(** * MySQLSlowLogAnalyzer: a shallow embedding of [slowLogAnalyzer.js]

    The development follows the script top to bottom: the JavaScript
    built-ins it calls (strings, the regular-expression fragment it uses,
    IEEE-754 doubles, [parseFloat]/[parseInt], [Map], [Array.prototype.sort]),
    then [cleanUpQuery], the ["line"] handler of [slowLogAnalyzer], and the
    data arranged by [writeTimingsCSV] and [writeConnectionsCSV]. *)

From Stdlib Require Import Bool Arith ZArith Lia List Ascii String.
From Stdlib Require Import Floats.SpecFloat.
From Stdlib Require Import Sorting.Permutation Sorting.Sorted.
From Stdlib Require Import Relations.Relation_Operators.
Import ListNotations.

Local Open Scope string_scope.
Local Open Scope list_scope.

(** ** JavaScript strings

    A JavaScript string is a sequence of code units; a Rocq [string] is a
    sequence of 8-bit characters, which is the same thing for the ASCII text
    of a slow-query log. *)

Module JsString.

Definition startsWith (s searchString : string) : bool :=
  String.prefix searchString s.

Fixpoint includes (s searchString : string) : bool :=
  if String.prefix searchString s then true
  else match s with
       | EmptyString => false
       | String _ s' => includes s' searchString
       end.

(** [s.substring(start, end)]: both indices are clamped to
    [0 .. s.length] and swapped when [start > end]. *)
Definition substring (s : string) (start finish : Z) : string :=
  let len := Z.of_nat (String.length s) in
  let clamp i := Z.min (Z.max i 0) len in
  let a := Z.min (clamp start) (clamp finish) in
  let b := Z.max (clamp start) (clamp finish) in
  String.substring (Z.to_nat a) (Z.to_nat (b - a)) s.

Definition endsWith (s searchString : string) : bool :=
  let n := String.length s in
  let k := String.length searchString in
  (k <=? n)%nat &&
  String.eqb (String.substring (n - k) k s) searchString.

Fixpoint drop (n : nat) (s : string) : string :=
  match n, s with
  | O, _ => s
  | S _, EmptyString => EmptyString
  | S n', String _ s' => drop n' s'
  end.

(** Truthiness of a string: every string but the empty one. *)
Definition truthy (s : string) : bool :=
  match s with EmptyString => false | String _ _ => true end.

End JsString.

(** ** The regular-expression fragment of the script

    Every pattern in the script is a concatenation of literal text, greedy
    repetitions of one character class, and capture groups that hold a
    greedy [+] repetition of one character class.  A pattern is transcribed
    as a list of items; matching is the backtracking, leftmost, greedy
    matching of JavaScript. *)

Module Regex.

Definition charClass := ascii -> bool.

Inductive item : Type :=
| Lit (l : string)          (* the characters of [l], literally *)
| Star (p : charClass)      (* [p*]   *)
| Plus (p : charClass)      (* [p+]   *)
| Opt (p : charClass)       (* [p?]   *)
| CapPlus (p : charClass).  (* [(p+)] *)

Definition regex := list item.

Definition digit : charClass :=
  fun c => let n := nat_of_ascii c in ((48 <=? n) && (n <=? 57))%nat.
Definition isChar (a : ascii) : charClass := fun c => Ascii.eqb c a.
Definition oneOf (l : string) : charClass :=
  fun c => existsb (Ascii.eqb c) (list_ascii_of_string l).
Definition orClass (p q : charClass) : charClass := fun c => p c || q c.
Definition notClass (p : charClass) : charClass := fun c => negb (p c).
(** [.] matches everything but a line terminator. *)
Definition anyChar : charClass :=
  fun c => negb (Ascii.eqb c "010"%char) && negb (Ascii.eqb c "013"%char).

(** Greedy repetition of [p], then the continuation [k]: the longest run
    is tried first and given back one character at a time.  The result
    carries the number of characters the repetition kept. *)
Fixpoint greedy {R : Type} (p : charClass) (k : string -> option R)
         (s : string) : option (nat * R) :=
  let stop := option_map (pair O) (k s) in
  match s with
  | EmptyString => stop
  | String c s' =>
      if p c then
        match greedy p k s' with
        | Some (n, x) => Some (S n, x)
        | None => stop
        end
      else stop
  end.

(** Match [r] at the start of [s]: the captured texts, in order, and the
    text left after the match. *)
Fixpoint matchHere (r : regex) : string -> option (list string * string) :=
  match r with
  | [] => fun s => Some ([], s)
  | it :: r' =>
      let k := matchHere r' in
      match it with
      | Lit l => fun s =>
          if String.prefix l s then k (JsString.drop (String.length l) s)
          else None
      | Star p => fun s => option_map snd (greedy p k s)
      | Plus p => fun s =>
          match s with
          | String c s' => if p c then option_map snd (greedy p k s') else None
          | EmptyString => None
          end
      | Opt p => fun s =>
          match s with
          | String c s' =>
              if p c then
                match k s' with
                | Some x => Some x
                | None => k s
                end
              else k s
          | EmptyString => k s
          end
      | CapPlus p => fun s =>
          match s with
          | String c s' =>
              if p c then
                match greedy p k s' with
                | Some (n, (caps, rest)) =>
                    Some (String.substring 0 (S n) s :: caps, rest)
                | None => None
                end
              else None
          | EmptyString => None
          end
      end
  end.

(** [s.match(r)] for a pattern without the [g] flag: the capture groups
    of the leftmost match, or [None] for JavaScript's [null]. *)
Fixpoint jsMatch (r : regex) (s : string) : option (list string) :=
  match matchHere r s with
  | Some (caps, _) => Some caps
  | None =>
      match s with
      | EmptyString => None
      | String _ s' => jsMatch r s'
      end
  end.

(** Length of the match of [r] at the start of [s]. *)
Definition matchLength (r : regex) (s : string) : option nat :=
  match matchHere r s with
  | Some (_, rest) => Some (String.length s - String.length rest)%nat
  | None => None
  end.

(** [s.replace(r, replacement)] for a pattern with the [g] flag: matches
    are found left to right and do not overlap.  [skip] counts the
    characters of the current match that are still to be dropped. *)
Fixpoint replaceFrom (r : regex) (replacement : string) (skip : nat)
         (s : string) : string :=
  match skip with
  | S k =>
      match s with
      | EmptyString => EmptyString
      | String _ s' => replaceFrom r replacement k s'
      end
  | O =>
      match matchLength r s with
      | Some (S k) =>
          replacement ++
          match s with
          | EmptyString => EmptyString
          | String _ s' => replaceFrom r replacement k s'
          end
      | Some O =>
          replacement ++
          match s with
          | EmptyString => EmptyString
          | String c s' => String c (replaceFrom r replacement O s')
          end
      | None =>
          match s with
          | EmptyString => EmptyString
          | String c s' => String c (replaceFrom r replacement O s')
          end
      end
  end.

Definition replaceAll (r : regex) (replacement : string) (s : string) : string :=
  replaceFrom r replacement O s.

End Regex.

Import Regex.

(** ** JavaScript numbers

    A JavaScript number is an IEEE-754 binary64 value: [spec_float] with
    a 53-bit significand and [emax = 1024], rounding to nearest, ties to
    even.  A property that was never assigned reads as [undefined]; a
    property of a timing object is therefore an [option], with [None] for
    [undefined]. *)

Module JsNumber.

Definition prec : Z := 53.
Definition emax : Z := 1024.

Definition number := spec_float.
Definition NaN : number := S754_nan.
Definition isNaN (x : number) : bool :=
  match x with S754_nan => true | _ => false end.

Definition add : number -> number -> number := SFadd prec emax.
Definition sub : number -> number -> number := SFsub prec emax.
Definition div : number -> number -> number := SFdiv prec emax.

(** The number nearest to the integer [z]. *)
Definition ofZ (z : Z) : number := binary_normalize prec emax z 0 false.

(** The number nearest to [m * 10 ^ e], for [0 <= m], with the sign
    [neg]. *)
Definition ofDecimal (neg : bool) (m e : Z) : number :=
  match m with
  | Zpos p =>
      if (0 <=? e)%Z
      then binary_normalize prec emax (cond_Zopp neg (m * 10 ^ e)%Z) 0 false
      else div (S754_finite neg p 0)
               (S754_finite false (Z.to_pos (10 ^ (- e))%Z) 0)
  | _ => S754_zero neg
  end.

(** Values a property can hold here: a number or [undefined]. *)
Definition value := option number.
Definition undefined : value := None.
Definition toNumber (v : value) : number :=
  match v with Some x => x | None => NaN end.

(** [a + b] where both operands are numbers or [undefined]. *)
Definition plus (a b : value) : number := add (toNumber a) (toNumber b).
(** [a - b], likewise. *)
Definition minus (a b : value) : number := sub (toNumber a) (toNumber b).

(** Sign tests against zero, as [Array.prototype.sort] applies them to
    the result of a comparator. *)
Definition isNegative (x : number) : bool :=
  match x with
  | S754_finite true _ _ | S754_infinity true => true
  | _ => false
  end.
Definition isPositive (x : number) : bool :=
  match x with
  | S754_finite false _ _ | S754_infinity false => true
  | _ => false
  end.

(** *** Comparing numbers

    Every finite double [s * m * 2 ^ e] has [emin <= e]: it is the
    integer [scaled] times [2 ^ emin].  Numbers are compared by value. *)

Definition emin : Z := SpecFloat.emin prec emax.

Definition scaled (x : number) : Z :=
  match x with
  | S754_finite s m e => cond_Zopp s (Zpos m * 2 ^ (e - emin))
  | _ => 0
  end.

Definition compare (x y : number) : option comparison :=
  match x, y with
  | S754_nan, _ | _, S754_nan => None
  | S754_infinity s1, S754_infinity s2 =>
      Some (match s1, s2 with
            | true, false => Lt
            | false, true => Gt
            | _, _ => Eq
            end)
  | S754_infinity s, _ => Some (if s then Lt else Gt)
  | _, S754_infinity s => Some (if s then Gt else Lt)
  | _, _ => Some (Z.compare (scaled x) (scaled y))
  end.

(** [x === y], [x < y] and [x <= y] on numbers. *)
Definition strictEquals (x y : number) : bool :=
  match compare x y with Some Eq => true | _ => false end.
Definition ltb (x y : number) : bool :=
  match compare x y with Some Lt => true | _ => false end.
Definition leb (x y : number) : bool :=
  match compare x y with Some (Lt | Eq) => true | _ => false end.

(** SameValueZero, the key equality of [Map]. *)
Definition sameValueZero (a b : value) : bool :=
  match a, b with
  | None, None => true
  | Some x, Some y => strictEquals x y || (isNaN x && isNaN y)
  | _, _ => false
  end.

(** *** Scanning numerals *)

Definition isWhiteSpace (c : ascii) : bool :=
  let n := nat_of_ascii c in
  (((9 <=? n) && (n <=? 13)) || (n =? 32))%nat.

Fixpoint skipWhiteSpace (s : string) : string :=
  match s with
  | String c s' => if isWhiteSpace c then skipWhiteSpace s' else s
  | EmptyString => s
  end.

Definition takeSign (s : string) : bool * string :=
  match s with
  | String "-"%char s' => (true, s')
  | String "+"%char s' => (false, s')
  | _ => (false, s)
  end.

Definition digitValue (radix : Z) (c : ascii) : option Z :=
  let n := Z.of_nat (nat_of_ascii c) in
  let v := if (48 <=? n)%Z && (n <=? 57)%Z then (n - 48)%Z
           else if (97 <=? n)%Z && (n <=? 122)%Z then (n - 87)%Z
           else if (65 <=? n)%Z && (n <=? 90)%Z then (n - 55)%Z
           else radix in
  if (v <? radix)%Z then Some v else None.

(** The longest run of digits at the start of [s]: the value of
    [acc] followed by these digits, how many there are, and the rest. *)
Fixpoint takeDigits (radix : Z) (s : string) (acc : Z) (n : nat)
  : Z * nat * string :=
  match s with
  | String c s' =>
      match digitValue radix c with
      | Some d => takeDigits radix s' (acc * radix + d)%Z (S n)
      | None => (acc, n, s)
      end
  | EmptyString => (acc, n, s)
  end.

(** The exponent part [e[+-]digits], when it is there and complete. *)
Definition takeExponent (s : string) : Z :=
  match s with
  | String c s' =>
      if Ascii.eqb c "e"%char || Ascii.eqb c "E"%char then
        let (neg, s'') := takeSign s' in
        let '(v, n, _) := takeDigits 10 s'' 0%Z O in
        match n with
        | O => 0%Z
        | S _ => cond_Zopp neg v
        end
      else 0%Z
  | EmptyString => 0%Z
  end.

(** [parseFloat(s)]: the longest prefix of the trimmed text that is a
    decimal literal, or [NaN] when there is none. *)
Definition parseFloat (s : string) : number :=
  let s := skipWhiteSpace s in
  let (neg, s) := takeSign s in
  if String.prefix "Infinity" s then S754_infinity neg else
  let '(i, ni, s1) := takeDigits 10 s 0%Z O in
  let '(m, nf, s2) :=
    match s1 with
    | String "."%char s1' => takeDigits 10 s1' i O
    | _ => (i, O, s1)
    end in
  match (ni + nf)%nat with
  | O => NaN
  | S _ => ofDecimal neg m (takeExponent s2 - Z.of_nat nf)%Z
  end.

(** [parseInt(s)] with no radix argument: base 16 after a [0x] prefix,
    base 10 otherwise; [NaN] when no digit follows. *)
Definition parseInt (s : string) : number :=
  let s := skipWhiteSpace s in
  let (neg, s) := takeSign s in
  let '(radix, s) :=
    if String.prefix "0x" s || String.prefix "0X" s
    then (16%Z, JsString.drop 2 s) else (10%Z, s) in
  let '(v, n, _) := takeDigits radix s 0%Z O in
  match n with
  | O => NaN
  | S _ => ofDecimal neg v 0
  end.

End JsNumber.

(** ** [cleanUpQuery] *)

(** The one-character string that holds a double quote. *)
Definition doubleQuote : string := String "034"%char EmptyString.

(** [/[-+]?[0-9]*\.?[0-9]+/g] *)
Definition numberRegex : regex :=
  [Opt (oneOf "-+"); Star digit; Opt (isChar "."%char); Plus digit].

(** [/'[^']*'/g] *)
Definition stringRegex : regex :=
  [Lit "'"; Star (notClass (isChar "'"%char)); Lit "'"].

Definition cleanUpQuery (query : string) : string :=
  let cleanQuery := query in
  let cleanQuery := replaceAll numberRegex "?" cleanQuery in
  let cleanQuery := replaceAll stringRegex "?" cleanQuery in
  if JsString.endsWith cleanQuery doubleQuote
  then JsString.substring cleanQuery 0 (Z.of_nat (String.length cleanQuery) - 2)
  else cleanQuery.


(** ** [Map] and [Array.prototype.sort] *)

Module JsMap.

(** A [Map] keeps its entries in insertion order; [keyEq] is the key
    equality (SameValueZero). *)
Section WithKey.
Context {K V : Type} (keyEq : K -> K -> bool).

Definition t := list (K * V).

Fixpoint get (k : K) (m : t) : option V :=
  match m with
  | [] => None
  | (k', v) :: m' => if keyEq k k' then Some v else get k m'
  end.

Definition has (k : K) (m : t) : bool :=
  match get k m with Some _ => true | None => false end.

(** [m.set(k, v)]: an existing key keeps its place, a new key goes
    last. *)
Fixpoint set (k : K) (v : V) (m : t) : t :=
  match m with
  | [] => [(k, v)]
  | (k', v') :: m' =>
      if keyEq k k' then (k', v) :: m' else (k', v') :: set k v m'
  end.

Definition keys (m : t) : list K := map fst m.
Definition values (m : t) : list V := map snd m.
End WithKey.

End JsMap.

Module JsArray.

Section Sort.
Context {A : Type} (comparefn : A -> A -> JsNumber.number).

(** [x] goes in front of the sorted [l], and moves right past every
    element the comparator orders before it. *)
Fixpoint insert (x : A) (l : list A) : list A :=
  match l with
  | [] => [x]
  | y :: l' =>
      if JsNumber.isPositive (comparefn x y) then y :: insert x l'
      else x :: y :: l'
  end.

(** [l.sort(comparefn)].  ECMAScript asks for a stable sort and reads a
    [NaN] from the comparator as [+0]; it fixes the result when the
    comparator is consistent, and any stable sort then returns this
    list.  For an inconsistent comparator the order is left to the
    implementation, and this insertion sort is one such order. *)
Fixpoint sort (l : list A) : list A :=
  match l with
  | [] => []
  | x :: l' => insert x (sort l')
  end.
End Sort.

End JsArray.

(** ** The timing objects and the ["line"] handler *)

Record Timing : Type := mkTiming {
  count : JsNumber.number;
  query : string;
  queryTime : JsNumber.value;
  lockTime : JsNumber.value;
  totalTime : JsNumber.value;
  unixTimestamp : JsNumber.value;
  connectionId : JsNumber.value
}.

Definition one : JsNumber.number := JsNumber.ofZ 1.

(** [{count: 1, query: ""}] *)
Definition freshTiming : Timing :=
  mkTiming one "" JsNumber.undefined JsNumber.undefined JsNumber.undefined JsNumber.undefined JsNumber.undefined.

Definition setQuery (q : string) (t : Timing) : Timing :=
  mkTiming (count t) q (queryTime t) (lockTime t) (totalTime t)
           (unixTimestamp t) (connectionId t).
Definition setQueryTime (x : JsNumber.number) (t : Timing) : Timing :=
  mkTiming (count t) (query t) (Some x) (lockTime t) (totalTime t)
           (unixTimestamp t) (connectionId t).
Definition setLockTime (x : JsNumber.number) (t : Timing) : Timing :=
  mkTiming (count t) (query t) (queryTime t) (Some x) (totalTime t)
           (unixTimestamp t) (connectionId t).
Definition setTotalTime (x : JsNumber.number) (t : Timing) : Timing :=
  mkTiming (count t) (query t) (queryTime t) (lockTime t) (Some x)
           (unixTimestamp t) (connectionId t).
Definition setUnixTimestamp (x : JsNumber.number) (t : Timing) : Timing :=
  mkTiming (count t) (query t) (queryTime t) (lockTime t) (totalTime t)
           (Some x) (connectionId t).
Definition setConnectionId (x : JsNumber.number) (t : Timing) : Timing :=
  mkTiming (count t) (query t) (queryTime t) (lockTime t) (totalTime t)
           (unixTimestamp t) (Some x).
Definition setCount (x : JsNumber.number) (t : Timing) : Timing :=
  mkTiming x (query t) (queryTime t) (lockTime t) (totalTime t)
           (unixTimestamp t) (connectionId t).

Definition TimingsMap := @JsMap.t string Timing.

(** The two variables the handler closes over. *)
Record State : Type := mkState {
  queryToTimingsMap : TimingsMap;
  currentTiming : Timing
}.

Definition initialState : State := mkState [] freshTiming.

(** The outcome of running a piece of the script: it completes, or it
    throws the [TypeError] of reading an index of [null]. *)
Inductive completion (A : Type) : Type :=
| Normal (a : A)
| Throw.
Arguments Normal {A} a.
Arguments Throw {A}.

Definition bind {A B : Type} (c : completion A) (f : A -> completion B)
  : completion B :=
  match c with
  | Normal a => f a
  | Throw => Throw
  end.

(** [match[i]] for [i >= 1]; reading it from [null] throws. *)
Definition group (m : option (list string)) (i : nat) : completion string :=
  match m with
  | Some caps => Normal (nth (pred i) caps "")
  | None => Throw
  end.

(** [/# Query_time: ([0-9.]+) +Lock_time: ([0-9.]+) +Rows_sent: ([0-9.]+) +Rows_examined: ([0-9.]+)/] *)
Definition queryTimeRegex : regex :=
  [Lit "# Query_time: "; CapPlus (orClass digit (isChar "."%char));
   Plus (isChar " "%char); Lit "Lock_time: "; CapPlus (orClass digit (isChar "."%char));
   Plus (isChar " "%char); Lit "Rows_sent: "; CapPlus (orClass digit (isChar "."%char));
   Plus (isChar " "%char); Lit "Rows_examined: "; CapPlus (orClass digit (isChar "."%char))].

(** [/SET timestamp=([0-9]+)/] *)
Definition timestampRegex : regex :=
  [Lit "SET timestamp="; CapPlus digit].

(** [/# Thread_id: *([0-9]+)/] *)
Definition threadIdRegex : regex :=
  [Lit "# Thread_id:"; Star (isChar " "%char); CapPlus digit].

(** [/# User@Host: .* Id: *([0-9]+)/] *)
Definition userHostRegex : regex :=
  [Lit "# User@Host: "; Star anyChar; Lit " Id:"; Star (isChar " "%char);
   CapPlus digit].

(** The test of the first branch. *)
Definition isBoundary (cloudwatchFormat : bool) (line : string) : bool :=
  if cloudwatchFormat then JsString.includes line "# Time:"
  else JsString.startsWith line "# Time:".

(** The lines the handler ignores. *)
Definition isIgnored (line : string) : bool :=
  JsString.startsWith line "#"
  || JsString.startsWith line "Tcp port:"
  || JsString.startsWith line "use "
  || JsString.startsWith line "/* "
  || JsString.startsWith line "/rdsdbbin"
  || JsString.startsWith line "@timestamp,@message"
  || JsString.startsWith line "Time         ".

(** The four updates of the branch that finds the query in the map. *)
Definition mergeTiming (queryTiming currentTiming : Timing) : Timing :=
  let queryTiming :=
    setTotalTime (JsNumber.plus (totalTime queryTiming)
                                (Some (JsNumber.plus (queryTime currentTiming)
                                                     (lockTime currentTiming))))
                 queryTiming in
  let queryTiming :=
    setQueryTime (JsNumber.plus (queryTime queryTiming) (queryTime currentTiming))
                 queryTiming in
  let queryTiming :=
    setLockTime (JsNumber.plus (lockTime queryTiming) (lockTime currentTiming))
                queryTiming in
  setCount (JsNumber.add (count queryTiming) one) queryTiming.

(** The two updates of the branch that does not. *)
Definition newTiming (query : string) (currentTiming : Timing) : Timing :=
  let currentTiming :=
    setTotalTime (JsNumber.plus (queryTime currentTiming) (lockTime currentTiming))
                 currentTiming in
  setQuery query currentTiming.

(** "Commit this query to the map": the body of the first branch up to the
    reset. *)
Definition commit (m : TimingsMap) (currentTiming : Timing) : TimingsMap :=
  let query := query currentTiming in
  if JsString.truthy query then
    let query := cleanUpQuery query in
    match JsMap.get String.eqb query m with
    | Some queryTiming =>
        JsMap.set String.eqb query (mergeTiming queryTiming currentTiming) m
    | None =>
        JsMap.set String.eqb query (newTiming query currentTiming) m
    end
  else m.

(** The ["line"] handler, without its progress report.  The object stored
    by [commit] is never written again through [currentTiming], which is
    bound to a fresh object right after. *)
Definition onLine (cloudwatchFormat : bool) (st : State) (line : string)
  : completion State :=
  let m := queryToTimingsMap st in
  let cur := currentTiming st in
  if isBoundary cloudwatchFormat line then
    Normal (mkState (commit m cur) freshTiming)
  else if JsString.startsWith line "# Query_time" then
    let mt := jsMatch queryTimeRegex line in
    bind (group mt 1) (fun g1 =>
    let cur := setQueryTime (JsNumber.parseFloat g1) cur in
    bind (group mt 2) (fun g2 =>
    let cur := setLockTime (JsNumber.parseFloat g2) cur in
    Normal (mkState m cur)))
  else if JsString.startsWith line "SET timestamp=" then
    let mt := jsMatch timestampRegex line in
    bind (group mt 1) (fun g1 =>
    Normal (mkState m (setUnixTimestamp (JsNumber.parseInt g1) cur)))
  else if JsString.startsWith line "# Thread_id:" then
    let mt := jsMatch threadIdRegex line in
    bind (group mt 1) (fun g1 =>
    Normal (mkState m (setConnectionId (JsNumber.parseInt g1) cur)))
  else if JsString.startsWith line "# User@Host" then
    let mt := jsMatch userHostRegex line in
    bind (group mt 1) (fun g1 =>
    Normal (mkState m (setConnectionId (JsNumber.parseInt g1) cur)))
  else if isIgnored line then
    Normal st
  else
    Normal (mkState m (setQuery (query cur ++ line) cur)).

(** The handler applied to the lines of the file in order, from [st]. *)
Fixpoint readLines (cloudwatchFormat : bool) (st : State) (lines : list string)
  : completion State :=
  match lines with
  | [] => Normal st
  | line :: rest =>
      bind (onLine cloudwatchFormat st line)
           (fun st' => readLines cloudwatchFormat st' rest)
  end.

(** ** The two reports

    The rows are modelled as the data each [write] call is given, in the
    order of the calls; the printing of numbers and dates is left out. *)

Definition MAX_CELL_STRING_LENGTH : Z := 50000.

Definition cleanStringForCSV (someText : string) : string :=
  let returnVal :=
    replaceAll [Lit doubleQuote] (doubleQuote ++ doubleQuote) someText in
  if (MAX_CELL_STRING_LENGTH <? Z.of_nat (String.length returnVal))%Z
  then JsString.substring returnVal 0 (MAX_CELL_STRING_LENGTH - 3) ++ "..."
  else returnVal.

Record TimingRow : Type := mkTimingRow {
  rowTotalTime : JsNumber.value;
  rowQueryTime : JsNumber.value;
  rowLockTime : JsNumber.value;
  rowAverageTime : JsNumber.number;
  rowCount : JsNumber.number;
  rowQuery : string
}.

(** [(v1, v2) => v2.totalTime - v1.totalTime] *)
Definition byTotalTimeDescending (v1 v2 : Timing) : JsNumber.number :=
  JsNumber.minus (totalTime v2) (totalTime v1).

(** [sortedByTime] of [writeTimingsCSV]. *)
Definition timingsSortedByTime (m : TimingsMap) : list Timing :=
  JsArray.sort byTotalTimeDescending (JsMap.values m).

Definition timingRow (timing : Timing) : TimingRow :=
  mkTimingRow (totalTime timing) (queryTime timing) (lockTime timing)
              (JsNumber.div (JsNumber.toNumber (totalTime timing)) (count timing))
              (count timing) (cleanStringForCSV (query timing)).

Definition writeTimingsCSV (m : TimingsMap) : list TimingRow :=
  map timingRow (timingsSortedByTime m).

Record Connections : Type := mkConnections {
  connUnixTimestamp : JsNumber.value;
  connCount : nat;
  connQueries : list string
}.

(** The loop that fills [timestampToQueriesMap]. *)
Fixpoint groupByTimestamp (values : list Timing)
         (timestampToQueriesMap : @JsMap.t JsNumber.value (list string))
  : @JsMap.t JsNumber.value (list string) :=
  match values with
  | [] => timestampToQueriesMap
  | v :: rest =>
      let k := unixTimestamp v in
      groupByTimestamp rest
        (match JsMap.get JsNumber.sameValueZero k timestampToQueriesMap with
         | Some queries =>
             JsMap.set JsNumber.sameValueZero k (queries ++ [query v]) timestampToQueriesMap
         | None =>
             JsMap.set JsNumber.sameValueZero k [query v] timestampToQueriesMap
         end)
  end.

(** [(v1, v2) => v1.unixTimestamp - v2.unixTimestamp] *)
Definition byTimestampAscending (v1 v2 : Connections) : JsNumber.number :=
  JsNumber.minus (connUnixTimestamp v1) (connUnixTimestamp v2).

(** [sortedByTime] of [writeConnectionsCSV]. *)
Definition connectionsSortedByTime (m : TimingsMap) : list Connections :=
  let timestampToQueriesMap := groupByTimestamp (JsMap.values m) [] in
  let timings :=
    map (fun timestamp =>
           let queries :=
             match JsMap.get JsNumber.sameValueZero timestamp timestampToQueriesMap with
             | Some q => q
             | None => []
             end in
           mkConnections timestamp (List.length queries) queries)
        (JsMap.keys timestampToQueriesMap) in
  JsArray.sort byTimestampAscending timings.

Record ConnectionsRow : Type := mkConnectionsRow {
  rowUnixTimestamp : JsNumber.value;
  rowConnectionCount : nat;
  rowQueries : string
}.

Definition writeConnectionsCSV (m : TimingsMap) : list ConnectionsRow :=
  map (fun timing =>
         mkConnectionsRow (connUnixTimestamp timing) (connCount timing)
           (cleanStringForCSV (String.concat (String "010"%char EmptyString)
                                             (connQueries timing))))
      (connectionsSortedByTime m).

(** The whole script on the lines of a file: the two reports, written
    once the last line is read. *)
Definition slowLogAnalyzer (cloudwatchFormat : bool) (lines : list string)
  : completion (list TimingRow * list ConnectionsRow) :=
  bind (readLines cloudwatchFormat initialState lines) (fun st =>
  Normal (writeTimingsCSV (queryToTimingsMap st),
          writeConnectionsCSV (queryToTimingsMap st))).

(** ** The command line *)





(** ** Notions used to state the properties *)

(** The key an entry is filed under. *)
Definition keyOf (e : Timing) : string := cleanUpQuery (query e).

(** The entries a run commits, in order: the [currentTiming] at each
    boundary line that finds a query text. *)
Fixpoint committed (cloudwatchFormat : bool) (st : State) (lines : list string)
  : list Timing :=
  match lines with
  | [] => []
  | line :: rest =>
      match onLine cloudwatchFormat st line with
      | Normal st' =>
          (if isBoundary cloudwatchFormat line
              && JsString.truthy (query (currentTiming st))
           then [currentTiming st] else [])
          ++ committed cloudwatchFormat st' rest
      | Throw => []
      end
  end.

(** The committed entries that are filed under [k]. *)
Definition entriesFor (k : string) (es : list Timing) : list Timing :=
  filter (fun e => String.eqb (keyOf e) k) es.

(** The stat that the entry [e0] creates under [k] and the entries [es]
    are then merged into. *)
Definition statOf (k : string) (e0 : Timing) (es : list Timing) : Timing :=
  fold_left mergeTiming es (newTiming k e0).

(** The running sums of a stat, entry by entry. *)
Definition entryTotal (e : Timing) : JsNumber.number :=
  JsNumber.plus (queryTime e) (lockTime e).
Definition runningTotalTime (e0 : Timing) (es : list Timing) : JsNumber.number :=
  fold_left (fun t e => JsNumber.plus (Some t) (Some (entryTotal e))) es
            (entryTotal e0).
Definition runningQueryTime (e0 : Timing) (es : list Timing) : JsNumber.value :=
  fold_left (fun q e => Some (JsNumber.plus q (queryTime e))) es (queryTime e0).
Definition runningLockTime (e0 : Timing) (es : list Timing) : JsNumber.value :=
  fold_left (fun l e => Some (JsNumber.plus l (lockTime e))) es (lockTime e0).

(** What committing [e] makes of the stat stored under [k]. *)
Definition absorb (k : string) (prev : option Timing) (e : Timing)
  : option Timing :=
  if String.eqb (keyOf e) k
  then Some (match prev with
             | Some s => mergeTiming s e
             | None => newTiming k e
             end)
  else prev.

(** The number of capture groups of a pattern. *)
Fixpoint captureCount (r : regex) : nat :=
  match r with
  | [] => O
  | CapPlus _ :: r' => S (captureCount r')
  | _ :: r' => captureCount r'
  end.

(** The text after the two substitutions of [cleanUpQuery], before its
    trailing double quote is looked at. *)
Definition substituteLiterals (query : string) : string :=
  replaceAll stringRegex "?" (replaceAll numberRegex "?" query).

(** Every character of [s] is in the class [p]. *)
Fixpoint allChars (p : ascii -> bool) (s : string) : bool :=
  match s with
  | EmptyString => true
  | String c s' => p c && allChars p s'
  end.

(** ** Notions for the order of the reports *)

(** A finite number whose exponent is not under [emin]; every number the
    script computes is one. *)
Definition wellScaled (x : JsNumber.number) : Prop :=
  match x with
  | S754_finite _ _ e => (JsNumber.emin <= e)%Z
  | _ => True
  end.

(** A number that the comparators order: not [NaN]. *)
Definition comparable (x : JsNumber.number) : Prop :=
  wellScaled x /\ JsNumber.isNaN x = false.

(** -1, 0 or 1 for minus infinity, a finite number, plus infinity. *)
Definition cls (x : JsNumber.number) : Z :=
  match x with
  | S754_infinity true => (-1)%Z
  | S754_infinity false => 1%Z
  | _ => 0%Z
  end.

(** A value that is [undefined] or a [wellScaled] number. *)
Definition goodValue (v : JsNumber.value) : Prop :=
  match v with
  | Some x => wellScaled x
  | None => True
  end.

(** What holds of every timing object of a run: its numbers are
    [wellScaled], and its timestamp, when it has one, is not [NaN]. *)
Definition goodTiming (t : Timing) : Prop :=
  goodValue (queryTime t) /\ goodValue (lockTime t)
  /\ goodValue (totalTime t) /\ goodValue (unixTimestamp t)
  /\ (forall x, unixTimestamp t = Some x -> JsNumber.isNaN x = false).

Definition goodState (st : State) : Prop :=
  goodTiming (currentTiming st)
  /\ Forall goodTiming (JsMap.values (queryToTimingsMap st)).

(** No key occurs twice, and no two keys are the same value. *)
Definition distinctKeys (keys : list JsNumber.value) : Prop :=
  NoDup keys
  /\ forall a b, In a keys -> In b keys ->
                 JsNumber.sameValueZero a b = true -> a = b.

(** The numbers the two comparators subtract. *)
Definition totalOf (t : Timing) : JsNumber.number :=
  JsNumber.toNumber (totalTime t).
Definition timestampOf (c : Connections) : JsNumber.number :=
  JsNumber.toNumber (connUnixTimestamp c).

(** Every row has a [totalTime] that is at most that of each row before
    it. *)
Definition descendingByTotalTime (l : list Timing) : Prop :=
  StronglySorted (fun a b => JsNumber.leb (totalOf b) (totalOf a) = true) l.

(** The rows of any one [totalTime] come in the order they have in
    [input]. *)
Definition equalTotalsKeepOrder (input output : list Timing) : Prop :=
  forall v,
    filter (fun t => JsNumber.strictEquals (totalOf t) v) output
    = filter (fun t => JsNumber.strictEquals (totalOf t) v) input.

(** Every bucket has a timestamp that is less than that of each bucket
    after it. *)
Definition strictlyAscendingByTimestamp (l : list Connections) : Prop :=
  StronglySorted
    (fun a b => JsNumber.ltb (timestampOf a) (timestampOf b) = true) l.

(** The weakest reading of "sorted": no number is followed, anywhere
    later in the list, by a greater one (by a smaller one). *)
Definition neverIncreases (xs : list JsNumber.number) : Prop :=
  forall i j a b,
    (i < j)%nat -> nth_error xs i = Some a -> nth_error xs j = Some b ->
    JsNumber.ltb a b = false.
Definition neverDecreases (xs : list JsNumber.number) : Prop :=
  forall i j a b,
    (i < j)%nat -> nth_error xs i = Some a -> nth_error xs j = Some b ->
    JsNumber.ltb b a = false.

(** ** Notions for texts that differ in literals *)

(** No item of [r] can take the character [c]. *)
Fixpoint inert (c : ascii) (r : regex) : bool :=
  match r with
  | [] => true
  | Lit l :: r' =>
      negb (existsb (Ascii.eqb c) (list_ascii_of_string l)) && inert c r'
  | Star p :: r' | Plus p :: r' | Opt p :: r' | CapPlus p :: r' =>
      negb (p c) && inert c r'
  end.

(** The result of a match, with the text [c :: b] put back after what is
    left. *)
Definition extend (c : ascii) (b : string) (x : list string * string)
  : list string * string :=
  (fst x, (snd x ++ String c b)%string).

(** The text has no single quote. *)
Definition quoteFree (s : string) : bool :=
  allChars (notClass (isChar "'"%char)) s.

(** A character that can be part of a number. *)
Definition numberChar : charClass := orClass (oneOf "-+.") digit.

(** A text that the number pattern matches from its first character to
    its last. *)
Definition isNumericLiteral (n : string) : bool :=
  match matchHere numberRegex n with
  | Some (_, EmptyString) => true
  | _ => false
  end.

(** A single-quoted literal. *)
Definition quoted (content : string) : string := "'" ++ content ++ "'".

(** [q2] is [q1] with one numeric literal, or the content of one
    single-quoted literal, replaced by another. *)
Inductive differInOneLiteral : string -> string -> Prop :=
| differ_number (p n1 n2 s : string) :
    isNumericLiteral n1 = true -> isNumericLiteral n2 = true ->
    differInOneLiteral (p ++ n1 ++ s) (p ++ n2 ++ s)
| differ_string (p c1 c2 s : string) :
    quoteFree c1 = true -> quoteFree c2 = true ->
    differInOneLiteral (p ++ quoted c1 ++ s) (p ++ quoted c2 ++ s).

(** Texts that differ only in the content of literals. *)
Definition sameModuloLiterals : string -> string -> Prop :=
  clos_refl_trans string differInOneLiteral.

Fixpoint lastChar (s : string) : option ascii :=
  match s with
  | EmptyString => None
  | String c EmptyString => Some c
  | String _ s' => lastChar s'
  end.
(** The text before a literal does not end in a character of a number;
    the text after it does not start with a digit or a dot. *)
Definition endsDelimited (p : string) : bool :=
  match lastChar p with
  | Some c => negb (numberChar c)
  | None => true
  end.
Definition startsDelimited (s : string) : bool :=
  match s with
  | String c _ => negb (orClass (isChar "."%char) digit c)
  | EmptyString => true
  end.

(** The single quotes of a text pair up into literals. *)
Inductive quotesPaired : string -> Prop :=
| paired_plain (u : string) : quoteFree u = true -> quotesPaired u
| paired_literal (u v w : string) :
    quoteFree u = true -> quoteFree v = true -> quotesPaired w ->
    quotesPaired (u ++ quoted v ++ w).

(** The same, for a literal that the text around it delimits. *)
Inductive differInOneDelimitedLiteral : string -> string -> Prop :=
| delimited_number (p n1 n2 s : string) :
    endsDelimited p = true -> startsDelimited s = true ->
    isNumericLiteral n1 = true -> isNumericLiteral n2 = true ->
    differInOneDelimitedLiteral (p ++ n1 ++ s) (p ++ n2 ++ s)
| delimited_string (p c1 c2 s : string) :
    quotesPaired p ->
    quoteFree c1 = true -> quoteFree c2 = true ->
    differInOneDelimitedLiteral (p ++ quoted c1 ++ s) (p ++ quoted c2 ++ s).

(** No character of the text can be part of a literal. *)
Definition plainText (s : string) : bool :=
  allChars (fun c => negb (numberChar c || isChar "'"%char c)) s.

(** ** Sample logs *)

Definition timeLine (n : string) : string := "# Time: " ++ n.
Definition queryTimeLine (q l : string) : string :=
  "# Query_time: " ++ q ++ " Lock_time: " ++ l
  ++ " Rows_sent: 1 Rows_examined: 10".

(** Two entries with the same normalized query. *)
Definition sameQueryLog : list string :=
  [timeLine "1";
   queryTimeLine "1.0" "0.5"; "SELECT * FROM t WHERE id = 5;";
   timeLine "2";
   queryTimeLine "2.0" "0.5"; "SELECT * FROM t WHERE id = 7;";
   timeLine "3"].

(** Two entries with distinct normalized queries. *)
Definition distinctQueriesLog : list string :=
  [timeLine "1";
   queryTimeLine "1.0" "0.5"; "SELECT * FROM t WHERE id = 5;";
   timeLine "2";
   queryTimeLine "2.0" "0.5"; "SELECT * FROM u WHERE id = 7;";
   timeLine "3"].

(** Two entries with the same normalized query whose sums round. *)
Definition roundingLog : list string :=
  [timeLine "1";
   queryTimeLine "0.1" "0.1"; "SELECT 1";
   timeLine "2";
   queryTimeLine "0.2" "0.3"; "SELECT 2";
   timeLine "3"].

(** An entry whose query text is one double quote. *)
Definition loneQuoteLog : list string :=
  [timeLine "1";
   queryTimeLine "1.0" "0.5"; doubleQuote;
   timeLine "2"].

(** An entry that no boundary line follows. *)
Definition unterminatedLog : list string :=
  [timeLine "1";
   queryTimeLine "1.0" "0.5"; "SELECT * FROM t WHERE id = 5;";
   timeLine "2"].
Definition unterminatedTail : list string :=
  [queryTimeLine "2.0" "0.5"; "SET timestamp=1672531200;";
   "SELECT * FROM u WHERE id = 7;"].

(** Three entries; the second has neither a [# Query_time] line nor a
    [SET timestamp=] line. *)
Definition missingFieldsLog : list string :=
  [timeLine "1";
   queryTimeLine "1.0" "0.5"; "SET timestamp=5;"; "SELECT a";
   timeLine "2";
   "SELECT b";
   timeLine "3";
   queryTimeLine "2.0" "0.5"; "SET timestamp=3;"; "SELECT c";
   timeLine "4"].

(** Two entries of one normalized text, with different timestamps. *)
Definition twoTimestampsLog : list string :=
  [timeLine "1"; "SET timestamp=5;"; "SELECT 1"; timeLine "2";
   "SET timestamp=7;"; "SELECT 2"; timeLine "3"].

(** Three entries with the totals 1.5, 2.5, 1.5 and the timestamps 5, 3,
    7. *)
Definition outOfOrderLog : list string :=
  [timeLine "1";
   queryTimeLine "1.0" "0.5"; "SET timestamp=5;"; "SELECT a";
   timeLine "2";
   queryTimeLine "2.0" "0.5"; "SET timestamp=3;"; "SELECT b";
   timeLine "3";
   queryTimeLine "0.5" "1.0"; "SET timestamp=7;"; "SELECT c";
   timeLine "4"].

(** The state a log is read to, and the stat it leaves under a key. *)
Definition stateOf (lines : list string) : State :=
  match readLines false initialState lines with
  | Normal st => st
  | Throw => initialState
  end.

Definition statUnder (k : string) (st : State) : Timing :=
  match JsMap.get String.eqb k (queryToTimingsMap st) with
  | Some s => s
  | None => freshTiming
  end.

Definition roundingState : State := Eval vm_compute in stateOf roundingLog.

Definition roundingStat : Timing :=
  Eval vm_compute in statUnder "SELECT ?" roundingState.

Definition twoTimestampsState : State :=
  Eval vm_compute in stateOf twoTimestampsLog.

Definition twoTimestampsStat : Timing :=
  Eval vm_compute in statUnder "SELECT ?" twoTimestampsState.

Definition outOfOrderState : State := Eval vm_compute in stateOf outOfOrderLog.

(** [m * 2 ^ e], for the doubles written out in the examples. *)
Definition double (m : positive) (e : Z) : JsNumber.number :=
  S754_finite false m e.

(** ** Notions for the further properties *)

(** How many times the character [a] occurs in [s]. *)
Fixpoint countChar (a : ascii) (s : string) : nat :=
  match s with
  | EmptyString => O
  | String c s' => ((if Ascii.eqb c a then 1 else 0) + countChar a s')%nat
  end.

(** The least number of characters a match of [r] takes. *)
Fixpoint minLength (r : regex) : nat :=
  match r with
  | [] => O
  | Lit l :: r' => (String.length l + minLength r')%nat
  | Plus _ :: r' | CapPlus _ :: r' => S (minLength r')
  | Star _ :: r' | Opt _ :: r' => minLength r'
  end.

(** The text has no digit. *)
Definition digitFree (s : string) : bool := allChars (notClass digit) s.

(** [s] with every double quote written twice. *)
Fixpoint doubleQuotes (s : string) : string :=
  match s with
  | EmptyString => EmptyString
  | String c s' =>
      if Ascii.eqb c "034"
      then String c (String c (doubleQuotes s'))
      else String c (doubleQuotes s')
  end.

(** The length of [doubleQuotes s]. *)
Definition escapedLength (s : string) : Z :=
  Z.of_nat (String.length s + countChar "034" s).

(** [n] times the letter [a]. *)
Definition padding (n : Z) : string :=
  string_of_list_ascii (repeat "a"%char (Z.to_nat n)).

(** The line starts with one of the four markers that have a branch of
    their own. *)
Definition isMarker (line : string) : bool :=
  JsString.startsWith line "# Query_time"
  || JsString.startsWith line "SET timestamp="
  || JsString.startsWith line "# Thread_id:"
  || JsString.startsWith line "# User@Host".

(** The line reaches the branch that ignores it. *)
Definition isNoise (cloudwatchFormat : bool) (line : string) : bool :=
  negb (isBoundary cloudwatchFormat line) && negb (isMarker line)
  && isIgnored line.

(** The line reaches the last branch, which appends it to the query. *)
Definition isQueryText (cloudwatchFormat : bool) (line : string) : bool :=
  negb (isBoundary cloudwatchFormat line) && negb (isMarker line)
  && negb (isIgnored line).

(** The texts of [l], one after the other. *)
Definition joined (l : list string) : string :=
  fold_right append "" l.

(** Whether [o] holds something: for a match, that it is not [null]. *)
Definition isSome {A : Type} (o : option A) : bool :=
  match o with Some _ => true | None => false end.

(** The line reaches the [# Thread_id:] or the [# User@Host] branch and
    matches its pattern. *)
Definition isConnectionLine (cloudwatchFormat : bool) (line : string) : bool :=
  negb (isBoundary cloudwatchFormat line)
  && ((JsString.startsWith line "# Thread_id:"
       && isSome (jsMatch threadIdRegex line))
      || (JsString.startsWith line "# User@Host"
          && isSome (jsMatch userHostRegex line))).

(** The timing object without what was read of the connection. *)
Definition withoutConnectionId (t : Timing) : Timing :=
  mkTiming (count t) (query t) (queryTime t) (lockTime t) (totalTime t)
           (unixTimestamp t) None.

(** [f] applied to every value of the map. *)
Definition mapValues {K V : Type} (f : V -> V) (m : @JsMap.t K V)
  : @JsMap.t K V :=
  map (fun kv => (fst kv, f (snd kv))) m.

(** The state without its connection ids. *)
Definition stateWithoutConnectionId (st : State) : State :=
  mkState (mapValues withoutConnectionId (queryToTimingsMap st))
          (withoutConnectionId (currentTiming st)).

(** [f] applied to what a completion returns. *)
Definition mapCompletion {A B : Type} (f : A -> B) (c : completion A)
  : completion B :=
  match c with
  | Normal a => Normal (f a)
  | Throw => Throw
  end.

(** The two reports the end handler writes. *)
Definition reportsOf (st : State) : list TimingRow * list ConnectionsRow :=
  (writeTimingsCSV (queryToTimingsMap st),
   writeConnectionsCSV (queryToTimingsMap st)).


(** The stat has the timestamp [k], as [Map] compares keys. *)
Definition stampedAs (k : JsNumber.value) (t : Timing) : bool :=
  JsNumber.sameValueZero (unixTimestamp t) k.

(** What [timestampToQueriesMap] holds for a key that the stats [l] have:
    their queries; nothing when there is no such stat. *)
Definition queriesOf (l : list Timing) : option (list string) :=
  match l with
  | [] => None
  | _ :: _ => Some (map query l)
  end.

(** The line reaches the branch of a marker and does not match its
    pattern. *)
Definition isMalformed (cloudwatchFormat : bool) (line : string) : bool :=
  negb (isBoundary cloudwatchFormat line)
  && (if JsString.startsWith line "# Query_time"
      then negb (isSome (jsMatch queryTimeRegex line))
      else if JsString.startsWith line "SET timestamp="
      then negb (isSome (jsMatch timestampRegex line))
      else if JsString.startsWith line "# Thread_id:"
      then negb (isSome (jsMatch threadIdRegex line))
      else if JsString.startsWith line "# User@Host"
      then negb (isSome (jsMatch userHostRegex line))
      else false).

(** What [missingFieldsLog] is read to, and its stat for [SELECT b]. *)
Definition missingFieldsState : State :=
  Eval vm_compute in stateOf missingFieldsLog.

Definition missingFieldsStat : Timing :=
  Eval vm_compute in statUnder "SELECT b" missingFieldsState.

(** The state [roundingState] is read on to by [outOfOrderLog]. *)
Definition laterState : State :=
  Eval vm_compute in
    match readLines false roundingState outOfOrderLog with
    | Normal st => st
    | Throw => roundingState
    end.

(** The sign bit of a number; [NaN] counts as unsigned. *)
Definition signBit (x : JsNumber.number) : bool :=
  match x with
  | S754_zero s | S754_infinity s | S754_finite s _ _ => s
  | S754_nan => false
  end.

(** [undefined], or a number whose sign bit is clear. *)
Definition unsignedValue (v : JsNumber.value) : Prop :=
  match v with
  | Some x => signBit x = false
  | None => True
  end.

(** Every number of the timing object is unsigned. *)
Definition unsignedTiming (t : Timing) : Prop :=
  signBit (count t) = false
  /\ unsignedValue (queryTime t) /\ unsignedValue (lockTime t)
  /\ unsignedValue (totalTime t) /\ unsignedValue (unixTimestamp t).

(** Every timing object of the state is unsigned. *)
Definition unsignedState (st : State) : Prop :=
  unsignedTiming (currentTiming st)
  /\ Forall unsignedTiming (JsMap.values (queryToTimingsMap st)).

(** The classes of the capture groups of [r], in order. *)
Fixpoint captureClasses (r : regex) : list charClass :=
  match r with
  | [] => []
  | CapPlus p :: r' => p :: captureClasses r'
  | _ :: r' => captureClasses r'
  end.

(** The text is not empty and starts with a character of the class. *)
Definition startsIn (p : charClass) (g : string) : Prop :=
  match g with
  | String c _ => p c = true
  | EmptyString => False
  end.

(** The literal texts of [r]. *)
Fixpoint literals (r : regex) : list string :=
  match r with
  | [] => []
  | Lit l :: r' => l :: literals r'
  | _ :: r' => literals r'
  end.

(** The stat of [outOfOrderState] for [SELECT b]. *)
Definition outOfOrderStat : Timing :=
  Eval vm_compute in statUnder "SELECT b" outOfOrderState.

(** [# Time:] is nowhere in the line but, at most, at its start. *)
Definition timeOnlyAtStart (line : string) : Prop :=
  JsString.includes line "# Time:" = true ->
  JsString.startsWith line "# Time:" = true.

(** The texts of [l] without repetitions, each where it first occurs. *)
Definition firstSeen (l : list string) : list string :=
  fold_left (fun seen k => if existsb (String.eqb k) seen then seen
                           else seen ++ [k]) l [].

(** * Properties *)

(** ** The map *)

Section MapFacts.
Context {V : Type}.
Implicit Types (m : @JsMap.t string V) (k : string) (v : V).

Lemma get_set_same m k v :
  JsMap.get String.eqb k (JsMap.set String.eqb k v m) = Some v.
Proof.
  induction m as [|[k' v'] m IH]; simpl.
  - now rewrite String.eqb_refl.
  - destruct (String.eqb k k') eqn:E; simpl; rewrite E; auto.
Qed.

Lemma get_set_other m k k' v :
  k' <> k ->
  JsMap.get String.eqb k' (JsMap.set String.eqb k v m)
  = JsMap.get String.eqb k' m.
Proof.
  intros Hne. induction m as [|[k0 v0] m IH]; simpl.
  - destruct (String.eqb k' k) eqn:E; auto.
    apply String.eqb_eq in E. contradiction.
  - destruct (String.eqb k k0) eqn:E; simpl.
    + apply String.eqb_eq in E. subst k0.
      destruct (String.eqb k' k) eqn:E'; auto.
      apply String.eqb_eq in E'. contradiction.
    + now rewrite IH.
Qed.

Lemma get_set m k k' v :
  JsMap.get String.eqb k' (JsMap.set String.eqb k v m)
  = if String.eqb k k' then Some v else JsMap.get String.eqb k' m.
Proof.
  destruct (String.eqb k k') eqn:E.
  - apply String.eqb_eq in E. subst. apply get_set_same.
  - apply get_set_other. intros ->. now rewrite String.eqb_refl in E.
Qed.

End MapFacts.

(** ** The handler *)

Lemma truthy_iff (s : string) : JsString.truthy s = true <-> s <> "".
Proof. destruct s; simpl; split; congruence. Qed.

Lemma onLine_boundary cw st line :
  isBoundary cw line = true ->
  onLine cw st line
  = Normal (mkState (commit (queryToTimingsMap st) (currentTiming st))
                    freshTiming).
Proof. intros H. unfold onLine. now rewrite H. Qed.

(** A line that is not a boundary leaves the map alone. *)
Lemma onLine_other_map cw st line st' :
  isBoundary cw line = false ->
  onLine cw st line = Normal st' ->
  queryToTimingsMap st' = queryToTimingsMap st.
Proof.
  intros Hb. unfold onLine. rewrite Hb.
  repeat match goal with
         | |- context [if ?b then _ else _] => destruct b
         | |- context [group ?m ?i] => destruct m; simpl
         end; intros H; inversion H; reflexivity.
Qed.

Lemma get_commit m e k :
  JsMap.get String.eqb k (commit m e)
  = if JsString.truthy (query e) && String.eqb (keyOf e) k
    then Some (match JsMap.get String.eqb k m with
               | Some s => mergeTiming s e
               | None => newTiming k e
               end)
    else JsMap.get String.eqb k m.
Proof.
  unfold commit, keyOf. destruct (JsString.truthy (query e)); simpl; auto.
  destruct (JsMap.get String.eqb (cleanUpQuery (query e)) m) eqn:G;
    rewrite get_set; destruct (String.eqb (cleanUpQuery (query e)) k) eqn:E;
    auto; apply String.eqb_eq in E; subst k; now rewrite G.
Qed.

Lemma readLines_app cw st l1 l2 :
  readLines cw st (l1 ++ l2)
  = bind (readLines cw st l1) (fun st' => readLines cw st' l2).
Proof.
  revert st. induction l1 as [|line l1 IH]; intros st; simpl; auto.
  destruct (onLine cw st line); simpl; auto.
Qed.

Lemma committed_truthy cw st lines :
  Forall (fun e => query e <> "") (committed cw st lines).
Proof.
  revert st. induction lines as [|line rest IH]; intros st; simpl; auto.
  destruct (onLine cw st line) as [st'|]; auto.
  apply Forall_app. split; auto.
  destruct (isBoundary cw line); simpl; auto.
  destruct (JsString.truthy (query (currentTiming st))) eqn:T; auto.
  constructor; auto. now apply truthy_iff.
Qed.

Lemma get_readLines cw lines : forall st st' k,
  readLines cw st lines = Normal st' ->
  JsMap.get String.eqb k (queryToTimingsMap st')
  = fold_left (absorb k) (committed cw st lines)
              (JsMap.get String.eqb k (queryToTimingsMap st)).
Proof.
  induction lines as [|line rest IH]; intros st st' k; simpl.
  - intros H. now inversion H.
  - destruct (onLine cw st line) as [st1|] eqn:L; simpl; [|discriminate].
    intros H. rewrite fold_left_app, (IH _ _ _ H). f_equal.
    destruct (isBoundary cw line) eqn:B; simpl.
    + rewrite (onLine_boundary _ _ _ B) in L. inversion L; subst st1; simpl.
      rewrite get_commit. unfold absorb.
      destruct (JsString.truthy (query (currentTiming st))); simpl; auto.
    + now rewrite (onLine_other_map _ _ _ _ B L).
Qed.

Lemma fold_absorb_some k es : forall s,
  fold_left (absorb k) es (Some s)
  = Some (fold_left mergeTiming (entriesFor k es) s).
Proof.
  induction es as [|e es IH]; intros s; simpl; auto.
  unfold absorb at 2. destruct (String.eqb (keyOf e) k); simpl; auto.
Qed.

Lemma fold_absorb_none k es :
  fold_left (absorb k) es None
  = match entriesFor k es with
    | [] => None
    | e0 :: rest => Some (statOf k e0 rest)
    end.
Proof.
  induction es as [|e es IH]; simpl; auto.
  unfold absorb at 2. destruct (String.eqb (keyOf e) k); simpl; auto.
  apply fold_absorb_some.
Qed.

(** Every stat of a run is [statOf] the entries committed under its key. *)
Lemma stat_of_run cw lines st k s :
  readLines cw initialState lines = Normal st ->
  JsMap.get String.eqb k (queryToTimingsMap st) = Some s ->
  exists e0 es,
    entriesFor k (committed cw initialState lines) = e0 :: es
    /\ s = statOf k e0 es.
Proof.
  intros R G. rewrite (get_readLines _ _ _ _ k R) in G. simpl in G.
  rewrite fold_absorb_none in G.
  destruct (entriesFor k (committed cw initialState lines)) as [|e0 es];
    [discriminate|].
  inversion G. eauto.
Qed.

Lemma count_current_onLine cw st line st' :
  onLine cw st line = Normal st' ->
  count (currentTiming st) = one ->
  count (currentTiming st') = one.
Proof.
  unfold onLine.
  repeat match goal with
         | |- context [if ?b then _ else _] => destruct b
         | |- context [group ?m ?i] => destruct m; simpl
         end; intros H; inversion H; auto.
Qed.

Lemma count_current_run cw lines : forall st st',
  readLines cw st lines = Normal st' ->
  count (currentTiming st) = one ->
  count (currentTiming st') = one.
Proof.
  induction lines as [|line rest IH]; intros st st'; simpl.
  - intros H. now inversion H.
  - destruct (onLine cw st line) as [st1|] eqn:L; simpl; [|discriminate].
    intros H C. eapply IH; eauto using count_current_onLine.
Qed.

Lemma has_get {V} (m : @JsMap.t string V) k :
  JsMap.has String.eqb k m = true <-> exists v, JsMap.get String.eqb k m = Some v.
Proof.
  unfold JsMap.has. destruct (JsMap.get String.eqb k m); split; eauto.
  - discriminate.
  - intros [v H]. discriminate.
Qed.

(** ** C1: what a boundary line commits *)

(** C1, as stated, fails: the entry of [loneQuoteLog] has the query text
    of one double quote, which is not empty, so the boundary line commits
    it; its normalized text is empty, and the map gets a stat under the
    empty key. *)
Lemma empty_key_is_committed :
  ~ (forall cw lines st,
        readLines cw initialState lines = Normal st ->
        JsMap.has String.eqb "" (queryToTimingsMap st) = false).
Proof.
  intros H.
  specialize (H false loneQuoteLog).
  destruct (readLines false initialState loneQuoteLog) as [st|] eqn:R;
    vm_compute in R; [|discriminate].
  specialize (H st eq_refl). inversion R; subst st. vm_compute in H.
  discriminate.
Qed.

(** C1, amended: on a boundary line the entry is committed exactly when
    its accumulated query text, before normalization, is not empty: with
    an empty text the map is left as it is, with any other text the map
    holds a stat under the normalized text afterwards, and
    [currentTiming] is reset either way; every key of the map is the
    normalization of a query text that was not empty. *)
Theorem boundary_commits_nonempty_query_text :
  (forall cw st line,
      isBoundary cw line = true ->
      exists m',
        onLine cw st line = Normal (mkState m' freshTiming)
        /\ (query (currentTiming st) = "" -> m' = queryToTimingsMap st)
        /\ (query (currentTiming st) <> "" ->
            JsMap.has String.eqb (keyOf (currentTiming st)) m' = true))
  /\ (forall cw lines st k,
        readLines cw initialState lines = Normal st ->
        JsMap.has String.eqb k (queryToTimingsMap st) = true ->
        exists text, text <> "" /\ k = cleanUpQuery text).
Proof.
  split.
  - intros cw st line B. eexists. split; [now apply onLine_boundary|]. split.
    + intros Q. unfold commit. now rewrite Q.
    + intros Q. apply has_get. rewrite get_commit.
      apply truthy_iff in Q. rewrite Q, String.eqb_refl. simpl. eauto.
  - intros cw lines st k R H. apply (proj1 (has_get _ _)) in H.
    destruct H as [s G].
    destruct (stat_of_run _ _ _ _ _ R G) as (e0 & es & E & _).
    assert (In e0 (entriesFor k (committed cw initialState lines))) as I
        by (rewrite E; now left).
    apply filter_In in I. destruct I as [I K].
    exists (query e0). split.
    + pose proof (committed_truthy cw initialState lines) as F.
      rewrite Forall_forall in F. now apply F.
    + apply String.eqb_eq in K. now rewrite <- K.
Qed.

Lemma boundary_commits_nonempty_query_text_witness :
  isBoundary false (timeLine "2") = true
  /\ exists m',
      onLine false (mkState [] (setQuery doubleQuote freshTiming)) (timeLine "2")
      = Normal (mkState m' freshTiming)
      /\ JsMap.has String.eqb "" m' = true.
Proof.
  split; [reflexivity|].
  destruct (proj1 boundary_commits_nonempty_query_text false
              (mkState [] (setQuery doubleQuote freshTiming)) (timeLine "2")
              eq_refl) as (m' & L & _ & H).
  exists m'. split; [exact L|]. apply H. discriminate.
Defined.

(** ** C2: the arithmetic of a commit *)

(** C2: a boundary line that finds a query text files the entry under
    its normalized text [k].  When the map has no stat under [k] it gets
    one with count 1, the entry's [queryTime] and [lockTime], and their
    sum as [totalTime]; when it has one, its count goes up by 1, the
    entry's [queryTime] and [lockTime] are added to its sums and their
    sum is added to its [totalTime].  No other stat changes.  The two
    sample logs give one stat of count 2 with 3.0, 1.0 and 4.0, and two
    stats of count 1. *)
Theorem commit_inserts_or_accumulates :
  (forall cw lines st line st',
      readLines cw initialState lines = Normal st ->
      isBoundary cw line = true ->
      query (currentTiming st) <> "" ->
      onLine cw st line = Normal st' ->
      let e := currentTiming st in
      let k := cleanUpQuery (query e) in
      let m := queryToTimingsMap st in
      let m' := queryToTimingsMap st' in
      (JsMap.get String.eqb k m = None ->
       JsMap.get String.eqb k m'
       = Some (mkTiming one k (queryTime e) (lockTime e)
                        (Some (JsNumber.plus (queryTime e) (lockTime e)))
                        (unixTimestamp e) (connectionId e)))
      /\ (forall s,
            JsMap.get String.eqb k m = Some s ->
            JsMap.get String.eqb k m'
            = Some (mkTiming
                      (JsNumber.add (count s) one) (query s)
                      (Some (JsNumber.plus (queryTime s) (queryTime e)))
                      (Some (JsNumber.plus (lockTime s) (lockTime e)))
                      (Some (JsNumber.plus
                               (totalTime s)
                               (Some (JsNumber.plus (queryTime e) (lockTime e)))))
                      (unixTimestamp s) (connectionId s)))
      /\ (forall k', k' <> k ->
            JsMap.get String.eqb k' m' = JsMap.get String.eqb k' m))
  /\ (exists st,
        readLines false initialState sameQueryLog = Normal st
        /\ queryToTimingsMap st
           = [("SELECT * FROM t WHERE id = ?;",
               mkTiming (JsNumber.ofZ 2) "SELECT * FROM t WHERE id = ?;"
                        (Some (JsNumber.ofZ 3)) (Some (JsNumber.ofZ 1))
                        (Some (JsNumber.ofZ 4)) None None)])
  /\ (exists st s1 s2,
        readLines false initialState distinctQueriesLog = Normal st
        /\ queryToTimingsMap st
           = [("SELECT * FROM t WHERE id = ?;", s1);
              ("SELECT * FROM u WHERE id = ?;", s2)]
        /\ count s1 = JsNumber.ofZ 1 /\ count s2 = JsNumber.ofZ 1).
Proof.
  split; [|split].
  - intros cw lines st line st' R B Q L.
    rewrite (onLine_boundary _ _ _ B) in L. inversion L; subst st'.
    cbv zeta. simpl. apply truthy_iff in Q.
    pose proof (count_current_run _ _ _ _ R eq_refl) as C.
    split; [|split].
    + intros G. rewrite get_commit, Q. unfold keyOf.
      rewrite String.eqb_refl, G. simpl.
      unfold newTiming, setQuery, setTotalTime; simpl. now rewrite C.
    + intros s G. rewrite get_commit, Q. unfold keyOf.
      rewrite String.eqb_refl, G. reflexivity.
    + intros k' Hne. rewrite get_commit. unfold keyOf.
      destruct (String.eqb (cleanUpQuery (query (currentTiming st))) k') eqn:E.
      * apply String.eqb_eq in E. congruence.
      * now rewrite andb_false_r.
  - eexists. split; [vm_compute; reflexivity|]. vm_compute; reflexivity.
  - do 3 eexists. split; [vm_compute; reflexivity|].
    split; [vm_compute; reflexivity|]. split; vm_compute; reflexivity.
Qed.

Lemma commit_inserts_or_accumulates_witness :
  exists st',
    onLine false (mkState [] (setQuery "SELECT 5" freshTiming)) (timeLine "2")
    = Normal st'
    /\ JsMap.get String.eqb "SELECT ?" (queryToTimingsMap st')
       = Some (mkTiming one "SELECT ?" None None (Some JsNumber.NaN) None None).
Proof.
  exists (mkState [("SELECT ?",
                    mkTiming one "SELECT ?" None None (Some JsNumber.NaN)
                             None None)] freshTiming).
  split; [reflexivity|].
  exact (proj1 (proj1 commit_inserts_or_accumulates
                  false ["SELECT 5"]
                  (mkState [] (setQuery "SELECT 5" freshTiming))
                  (timeLine "2") _
                  eq_refl eq_refl
                  (fun H : "SELECT 5" = "" => eq_ind "SELECT 5"
                     (fun s => match s with EmptyString => False | _ => True end)
                     I "" H)
                  eq_refl)
               eq_refl).
Defined.

(** ** C3: [totalTime] against [queryTime + lockTime] *)

Lemma strictEquals_refl x :
  JsNumber.isNaN x = false -> JsNumber.strictEquals x x = true.
Proof.
  unfold JsNumber.strictEquals.
  destruct x as [s|s| |s m e]; simpl; try discriminate; intros _;
    try (now rewrite Z.compare_refl); now destruct s.
Qed.

Lemma totalTime_fold_merge es : forall s t,
  totalTime s = Some t ->
  totalTime (fold_left mergeTiming es s)
  = Some (fold_left (fun t e => JsNumber.plus (Some t) (Some (entryTotal e)))
                    es t).
Proof.
  induction es as [|e es IH]; intros s t H; simpl; auto.
  apply IH. simpl. now rewrite H.
Qed.

Lemma queryTime_fold_merge es : forall s,
  queryTime (fold_left mergeTiming es s)
  = fold_left (fun q e => Some (JsNumber.plus q (queryTime e))) es (queryTime s).
Proof. induction es as [|e es IH]; intros s; simpl; auto. Qed.

Lemma lockTime_fold_merge es : forall s,
  lockTime (fold_left mergeTiming es s)
  = fold_left (fun l e => Some (JsNumber.plus l (lockTime e))) es (lockTime s).
Proof. induction es as [|e es IH]; intros s; simpl; auto. Qed.

Lemma unixTimestamp_fold_merge es : forall s,
  unixTimestamp (fold_left mergeTiming es s) = unixTimestamp s.
Proof. induction es as [|e es IH]; intros s; simpl; auto. now rewrite IH. Qed.

(** C3, as stated, fails: in [roundingLog] the stat has merged
    (0.1, 0.1) and (0.2, 0.3); its [totalTime] is
    (0.1 + 0.1) + (0.2 + 0.3) = 0.7 while its [queryTime + lockTime] is
    (0.1 + 0.2) + (0.1 + 0.3) = 0.7000000000000001. *)
Lemma totalTime_differs_from_sum_after_merge :
  ~ (forall cw lines st k s,
        readLines cw initialState lines = Normal st ->
        JsMap.get String.eqb k (queryToTimingsMap st) = Some s ->
        JsNumber.strictEquals (JsNumber.toNumber (totalTime s))
                              (JsNumber.plus (queryTime s) (lockTime s))
        = true).
Proof.
  intros H.
  assert (exists st s,
             readLines false initialState roundingLog = Normal st
             /\ JsMap.get String.eqb "SELECT ?" (queryToTimingsMap st) = Some s
             /\ JsNumber.strictEquals
                  (JsNumber.toNumber (totalTime s))
                  (JsNumber.plus (queryTime s) (lockTime s)) = false)
    as (st & s & R & G & E).
  { do 2 eexists. split; [vm_compute; reflexivity|].
    split; [vm_compute; reflexivity|]. vm_compute; reflexivity. }
  rewrite (H _ _ _ _ _ R G) in E. discriminate.
Qed.

(** C3, amended: a stat is made of the entries committed under its key,
    the first one [e0] and the later ones [es].  Its [totalTime] is the
    running sum, rounded at each step, of the entries'
    [queryTime + lockTime], and its [queryTime] and [lockTime] are the
    running sums of theirs.  While no entry has been merged into it
    ([es] empty), [totalTime] is the double [queryTime + lockTime], and
    [===] holds between the two unless that double is [NaN]. *)
Theorem totalTime_is_running_sum (cw : bool) (lines : list string)
        (st : State) (k : string) (s : Timing) :
  readLines cw initialState lines = Normal st ->
  JsMap.get String.eqb k (queryToTimingsMap st) = Some s ->
  exists e0 es,
    entriesFor k (committed cw initialState lines) = e0 :: es
    /\ totalTime s = Some (runningTotalTime e0 es)
    /\ queryTime s = runningQueryTime e0 es
    /\ lockTime s = runningLockTime e0 es
    /\ (es = [] ->
        totalTime s = Some (JsNumber.plus (queryTime s) (lockTime s))
        /\ (JsNumber.isNaN (JsNumber.plus (queryTime s) (lockTime s)) = false ->
            JsNumber.strictEquals (JsNumber.toNumber (totalTime s))
                                  (JsNumber.plus (queryTime s) (lockTime s))
            = true)).
Proof.
  intros R G. destruct (stat_of_run _ _ _ _ _ R G) as (e0 & es & E & ->).
  exists e0, es. unfold statOf. split; [exact E|]. split; [|split; [|split]].
  - now apply totalTime_fold_merge.
  - now rewrite queryTime_fold_merge.
  - now rewrite lockTime_fold_merge.
  - intros ->. simpl. split; [reflexivity|]. apply strictEquals_refl.
Qed.

Lemma totalTime_is_running_sum_witness :
  readLines false initialState roundingLog = Normal roundingState
  /\ JsMap.get String.eqb "SELECT ?" (queryToTimingsMap roundingState)
     = Some roundingStat
  /\ exists e0 es,
      entriesFor "SELECT ?" (committed false initialState roundingLog)
      = e0 :: es
      /\ totalTime roundingStat = Some (runningTotalTime e0 es).
Proof.
  assert (R : readLines false initialState roundingLog = Normal roundingState)
    by (vm_compute; reflexivity).
  assert (G : JsMap.get String.eqb "SELECT ?" (queryToTimingsMap roundingState)
              = Some roundingStat) by (vm_compute; reflexivity).
  split; [exact R|]. split; [exact G|].
  destruct (totalTime_is_running_sum false roundingLog roundingState
              "SELECT ?" roundingStat R G) as (e0 & es & E & T & _).
  exists e0, es. split; [exact E | exact T].
Defined.

(** ** C5: [unixTimestamp] is written once *)

(** C5: the [unixTimestamp] of a stat of the map is the same after any
    further lines, whatever is merged into it; and the [unixTimestamp]
    of every stat of a run is that of the first entry committed under its
    key. *)
Theorem unixTimestamp_first_write_wins :
  (forall cw lines st st' k s,
      readLines cw st lines = Normal st' ->
      JsMap.get String.eqb k (queryToTimingsMap st) = Some s ->
      exists s',
        JsMap.get String.eqb k (queryToTimingsMap st') = Some s'
        /\ unixTimestamp s' = unixTimestamp s)
  /\ (forall cw lines st k s,
        readLines cw initialState lines = Normal st ->
        JsMap.get String.eqb k (queryToTimingsMap st) = Some s ->
        exists e0 es,
          entriesFor k (committed cw initialState lines) = e0 :: es
          /\ unixTimestamp s = unixTimestamp e0).
Proof.
  split.
  - intros cw lines st st' k s R G.
    rewrite (get_readLines _ _ _ _ k R), G, fold_absorb_some.
    eexists. split; [reflexivity|]. apply unixTimestamp_fold_merge.
  - intros cw lines st k s R G.
    destruct (stat_of_run _ _ _ _ _ R G) as (e0 & es & E & ->).
    exists e0, es. split; [exact E|]. unfold statOf.
    now rewrite unixTimestamp_fold_merge.
Qed.

Lemma unixTimestamp_first_write_wins_witness :
  readLines false initialState twoTimestampsLog = Normal twoTimestampsState
  /\ JsMap.get String.eqb "SELECT ?" (queryToTimingsMap twoTimestampsState)
     = Some twoTimestampsStat
  /\ unixTimestamp twoTimestampsStat = Some (JsNumber.ofZ 5).
Proof.
  assert (R : readLines false initialState twoTimestampsLog
              = Normal twoTimestampsState) by (vm_compute; reflexivity).
  assert (G : JsMap.get String.eqb "SELECT ?"
                (queryToTimingsMap twoTimestampsState)
              = Some twoTimestampsStat) by (vm_compute; reflexivity).
  split; [exact R|]. split; [exact G|].
  destruct (proj2 unixTimestamp_first_write_wins false twoTimestampsLog
              twoTimestampsState "SELECT ?" twoTimestampsStat R G)
    as (e0 & es & E & ->).
  vm_compute in E. now inversion E.
Defined.

(** ** C9: only a boundary line commits *)

Lemma readLines_no_boundary_map cw tl : forall st st',
  Forall (fun line => isBoundary cw line = false) tl ->
  readLines cw st tl = Normal st' ->
  queryToTimingsMap st' = queryToTimingsMap st.
Proof.
  induction tl as [|line tl IH]; intros st st' F; simpl.
  - intros H. now inversion H.
  - inversion F as [|? ? B F']; subst.
    destruct (onLine cw st line) as [st1|] eqn:L; simpl; [|discriminate].
    intros H. rewrite (IH _ _ F' H). eapply onLine_other_map; eauto.
Qed.

(** C9: lines that follow the last boundary line change neither the map
    nor the reports: when the whole input is read, the reports are those
    of the input cut after its last boundary line. *)
Theorem entry_without_boundary_is_not_committed
        (cw : bool) (lines tl : list string) :
  Forall (fun line => isBoundary cw line = false) tl ->
  (forall st st',
      readLines cw initialState lines = Normal st ->
      readLines cw st tl = Normal st' ->
      queryToTimingsMap st' = queryToTimingsMap st)
  /\ (forall reports,
        slowLogAnalyzer cw (lines ++ tl) = Normal reports ->
        slowLogAnalyzer cw lines = Normal reports).
Proof.
  intros F. split.
  - intros st st' _. now apply readLines_no_boundary_map.
  - intros reports. unfold slowLogAnalyzer. rewrite readLines_app.
    destruct (readLines cw initialState lines) as [st|]; simpl; [|discriminate].
    destruct (readLines cw st tl) as [st'|] eqn:R; simpl; [|discriminate].
    now rewrite (readLines_no_boundary_map _ _ _ _ F R).
Qed.

Lemma entry_without_boundary_is_not_committed_witness :
  Forall (fun line => isBoundary false line = false) unterminatedTail
  /\ exists reports,
      slowLogAnalyzer false (unterminatedLog ++ unterminatedTail) = Normal reports
      /\ slowLogAnalyzer false unterminatedLog = Normal reports.
Proof.
  assert (F : Forall (fun line => isBoundary false line = false) unterminatedTail)
    by (repeat constructor).
  split; [exact F|].
  eexists. split; [vm_compute; reflexivity|].
  apply (proj2 (entry_without_boundary_is_not_committed
                  false unterminatedLog unterminatedTail F)).
  vm_compute; reflexivity.
Defined.

(** ** Patterns and prefixes *)

Lemma greedy_continues {R} p (k : string -> option R) s n x :
  greedy p k s = Some (n, x) -> exists s', k s' = Some x.
Proof.
  revert n x. induction s as [|c s IH]; intros n x; simpl.
  - destruct (k "") eqn:K; simpl; [|discriminate].
    intros H. inversion H; subst. eauto.
  - destruct (p c).
    + destruct (greedy p k s) as [[n' x']|] eqn:G.
      * intros H. inversion H; subst. eauto.
      * destruct (k (String c s)) eqn:K; simpl; [|discriminate].
        intros H. inversion H; subst. eauto.
    + destruct (k (String c s)) eqn:K; simpl; [|discriminate].
      intros H. inversion H; subst. eauto.
Qed.

Lemma matchHere_captures r : forall s caps rest,
  matchHere r s = Some (caps, rest) -> List.length caps = captureCount r.
Proof.
  induction r as [|it r IH]; intros s caps rest; simpl.
  - intros H. now inversion H.
  - destruct it as [l|p|p|p|p].
    + destruct (String.prefix l s); [eauto|discriminate].
    + destruct (greedy p (matchHere r) s) as [[n [caps' rest']]|] eqn:G;
        simpl; [|discriminate].
      intros H. inversion H; subst.
      destruct (greedy_continues _ _ _ _ _ G) as [s' K]. eauto.
    + destruct s as [|c s]; [discriminate|].
      destruct (p c); [|discriminate].
      destruct (greedy p (matchHere r) s) as [[n [caps' rest']]|] eqn:G;
        simpl; [|discriminate].
      intros H. inversion H; subst.
      destruct (greedy_continues _ _ _ _ _ G) as [s' K]. eauto.
    + destruct s as [|c s]; [eauto|].
      destruct (p c); [|eauto].
      destruct (matchHere r s) as [[caps' rest']|] eqn:K; [|eauto].
      intros H. inversion H; subst. eauto.
    + destruct s as [|c s]; [discriminate|].
      destruct (p c); [|discriminate].
      destruct (greedy p (matchHere r) s) as [[n [caps' rest']]|] eqn:G;
        [|discriminate].
      intros H. inversion H; subst. simpl. f_equal.
      destruct (greedy_continues _ _ _ _ _ G) as [s' K]. eauto.
Qed.

Lemma jsMatch_captures r s caps :
  jsMatch r s = Some caps -> List.length caps = captureCount r.
Proof.
  induction s as [|c s IH]; simpl.
  - destruct (matchHere r "") as [[caps' rest]|] eqn:M; [|discriminate].
    intros H. inversion H; subst. eauto using matchHere_captures.
  - destruct (matchHere r (String c s)) as [[caps' rest]|] eqn:M; [|exact IH].
    intros H. inversion H; subst. eauto using matchHere_captures.
Qed.

(** Two prefixes of one text: one is a prefix of the other. *)
Lemma prefix_comparable s : forall a b,
  String.prefix a s = true -> String.prefix b s = true ->
  String.prefix a b = true \/ String.prefix b a = true.
Proof.
  induction s as [|z s IH]; intros [|x a] [|y b]; simpl; auto;
    try discriminate.
  destruct (ascii_dec x z) as [->|]; [|discriminate].
  destruct (ascii_dec y z) as [->|]; [|intros; discriminate].
  destruct (ascii_dec z z); [|congruence]. apply IH.
Qed.

Lemma startsWith_exclusive a b s :
  String.prefix a b = false -> String.prefix b a = false ->
  JsString.startsWith s a = true -> JsString.startsWith s b = false.
Proof.
  unfold JsString.startsWith. intros Hab Hba Ha.
  destruct (String.prefix b s) eqn:Hb; auto.
  destruct (prefix_comparable _ _ _ Ha Hb); congruence.
Qed.

(** In standard mode no marker line is a boundary line. *)
Lemma marker_not_boundary cw line marker :
  String.prefix marker "# Time:" = false ->
  String.prefix "# Time:" marker = false ->
  JsString.startsWith line marker = true ->
  (cw = true -> JsString.includes line "# Time:" = false) ->
  isBoundary cw line = false.
Proof.
  intros H1 H2 S C. unfold isBoundary. destruct cw; auto.
  eapply startsWith_exclusive; eauto.
Qed.

(** ** C6: the [# Query_time] line *)

(** C6, as stated, fails in CloudWatch mode: a line that starts with
    [# Query_time], does not match the pattern and contains [# Time:] is
    taken by the first branch, which commits and does not throw. *)
Lemma query_time_line_taken_as_boundary :
  ~ (forall cw st line,
        JsString.startsWith line "# Query_time" = true ->
        jsMatch queryTimeRegex line = None ->
        onLine cw st line = Throw).
Proof.
  intros H.
  specialize (H true initialState "# Query_time: n/a # Time: 2023-01-01"
                eq_refl eq_refl).
  vm_compute in H. discriminate H.
Qed.

(** C6, amended: a line that starts with [# Query_time] and is not a
    boundary line (in CloudWatch mode: does not contain [# Time:]) throws
    when it does not match the pattern, before anything is written to the
    entry; when it matches, the entry gets [parseFloat] of the first two
    groups as [queryTime] and [lockTime], and nothing else changes: the
    other two groups are not kept. *)
Theorem query_time_line_throws_or_sets_two_fields
        (cw : bool) (st : State) (line : string) :
  JsString.startsWith line "# Query_time" = true ->
  (cw = true -> JsString.includes line "# Time:" = false) ->
  (jsMatch queryTimeRegex line = None -> onLine cw st line = Throw)
  /\ (forall caps,
        jsMatch queryTimeRegex line = Some caps ->
        exists g1 g2 g3 g4,
          caps = [g1; g2; g3; g4]
          /\ onLine cw st line
             = Normal (mkState (queryToTimingsMap st)
                               (mkTiming (count (currentTiming st))
                                         (query (currentTiming st))
                                         (Some (JsNumber.parseFloat g1))
                                         (Some (JsNumber.parseFloat g2))
                                         (totalTime (currentTiming st))
                                         (unixTimestamp (currentTiming st))
                                         (connectionId (currentTiming st))))).
Proof.
  intros S C.
  assert (B : isBoundary cw line = false)
    by (apply (marker_not_boundary cw line "# Query_time"); auto).
  unfold onLine. rewrite B, S. split.
  - intros ->. reflexivity.
  - intros caps M. rewrite M.
    pose proof (jsMatch_captures _ _ _ M) as L. simpl in L.
    destruct caps as [|g1 [|g2 [|g3 [|g4 [|g5 caps]]]]]; try discriminate L.
    exists g1, g2, g3, g4. split; reflexivity.
Qed.

Lemma query_time_line_throws_or_sets_two_fields_witness :
  onLine false initialState "# Query_time: n/a" = Throw
  /\ exists st',
      onLine false initialState (queryTimeLine "1.5" "0.25") = Normal st'
      /\ queryTime (currentTiming st') = Some (double (3 * 2 ^ 51) (-52))
      /\ lockTime (currentTiming st') = Some (double (2 ^ 52) (-54)).
Proof.
  split.
  - apply (proj1 (query_time_line_throws_or_sets_two_fields
                    false initialState "# Query_time: n/a" eq_refl
                    (fun H : false = true => False_ind _ (diff_false_true H)))).
    reflexivity.
  - eexists. split; [vm_compute; reflexivity|]. split; reflexivity.
Defined.

(** ** C10: the other marker lines *)

(** C10, as stated, fails in CloudWatch mode, for the same reason as C6:
    a line that starts with [SET timestamp=], has no digit after it and
    contains [# Time:] is a boundary line. *)
Lemma timestamp_line_taken_as_boundary :
  ~ (forall cw st line,
        JsString.startsWith line "SET timestamp=" = true ->
        jsMatch timestampRegex line = None ->
        onLine cw st line = Throw).
Proof.
  intros H.
  specialize (H true initialState "SET timestamp=# Time: 2023-01-01"
                eq_refl eq_refl).
  vm_compute in H. discriminate H.
Qed.

(** C10, amended: a line that is not a boundary line (in CloudWatch mode:
    does not contain [# Time:]), starts with [SET timestamp=],
    [# Thread_id:] or [# User@Host] and does not match the pattern of its
    branch throws; a boundary line never throws, whatever fields the
    entry lacks. *)
Theorem malformed_marker_line_throws (cw : bool) (st : State) (line : string) :
  (cw = true -> JsString.includes line "# Time:" = false) ->
  (JsString.startsWith line "SET timestamp=" = true ->
   jsMatch timestampRegex line = None -> onLine cw st line = Throw)
  /\ (JsString.startsWith line "# Thread_id:" = true ->
      jsMatch threadIdRegex line = None -> onLine cw st line = Throw)
  /\ (JsString.startsWith line "# User@Host" = true ->
      jsMatch userHostRegex line = None -> onLine cw st line = Throw)
  /\ (forall st0 line0,
        isBoundary cw line0 = true -> onLine cw st0 line0 <> Throw).
Proof.
  intros C. repeat split.
  - intros S M.
    assert (B : isBoundary cw line = false)
      by (apply (marker_not_boundary cw line "SET timestamp="); auto).
    unfold onLine. rewrite B, S, M.
    now rewrite (startsWith_exclusive "SET timestamp=" "# Query_time" line).
  - intros S M.
    assert (B : isBoundary cw line = false)
      by (apply (marker_not_boundary cw line "# Thread_id:"); auto).
    unfold onLine. rewrite B, S, M.
    rewrite (startsWith_exclusive "# Thread_id:" "# Query_time" line) by auto.
    now rewrite (startsWith_exclusive "# Thread_id:" "SET timestamp=" line).
  - intros S M.
    assert (B : isBoundary cw line = false)
      by (apply (marker_not_boundary cw line "# User@Host"); auto).
    unfold onLine. rewrite B, S, M.
    rewrite (startsWith_exclusive "# User@Host" "# Query_time" line) by auto.
    rewrite (startsWith_exclusive "# User@Host" "SET timestamp=" line) by auto.
    now rewrite (startsWith_exclusive "# User@Host" "# Thread_id:" line).
  - intros st0 line0 B. now rewrite (onLine_boundary _ _ _ B).
Qed.

Lemma malformed_marker_line_throws_witness :
  onLine false initialState "SET timestamp=;" = Throw
  /\ onLine false initialState "# Thread_id: none" = Throw
  /\ onLine false initialState "# User@Host: user[user] @ [1.2.3.4]" = Throw.
Proof.
  pose proof (fun line =>
                malformed_marker_line_throws false initialState line
                  (fun H : false = true => False_ind _ (diff_false_true H)))
    as T.
  split; [|split].
  - apply (proj1 (T _)); reflexivity.
  - apply (proj1 (proj2 (T _))); reflexivity.
  - apply (proj1 (proj2 (proj2 (T _)))); reflexivity.
Defined.

(** ** C7: the trailing double quote *)

Lemma string_length_app (p s : string) :
  String.length (p ++ s) = (String.length p + String.length s)%nat.
Proof. induction p as [|c p IH]; simpl; auto. Qed.

Lemma string_app_assoc (p q s : string) :
  ((p ++ q) ++ s = p ++ (q ++ s))%string.
Proof. induction p as [|c p IH]; simpl; auto. now rewrite IH. Qed.

Lemma string_app_nil_r (p : string) : (p ++ "" = p)%string.
Proof. induction p as [|c p IH]; simpl; auto. now rewrite IH. Qed.

Lemma substring_prefix_app (p s : string) :
  String.substring 0 (String.length p) (p ++ s) = p.
Proof.
  induction p as [|c p IH]; simpl.
  - now destruct s.
  - now rewrite IH.
Qed.

Lemma substring_suffix_app (p s : string) :
  String.substring (String.length p) (String.length s) (p ++ s) = s.
Proof.
  induction p as [|c p IH]; simpl; auto.
  induction s as [|c s IH]; simpl; auto. now rewrite IH.
Qed.

Lemma substring_split (s : string) : forall k,
  (k <= String.length s)%nat ->
  s = (String.substring 0 k s ++ String.substring k (String.length s - k) s)%string.
Proof.
  induction s as [|c s IH]; intros [|k] H; simpl in *; auto; try lia.
  - f_equal. pose proof (substring_suffix_app "" s) as E. simpl in E.
    now rewrite E.
  - f_equal. apply IH. lia.
Qed.

Lemma endsWith_app (p s : string) : JsString.endsWith (p ++ s) s = true.
Proof.
  unfold JsString.endsWith. rewrite string_length_app.
  replace (String.length p + String.length s - String.length s)%nat
    with (String.length p) by lia.
  rewrite substring_suffix_app, String.eqb_refl, andb_true_r.
  apply Nat.leb_le. lia.
Qed.

Lemma endsWith_inv (t s : string) :
  JsString.endsWith t s = true -> exists p, t = (p ++ s)%string.
Proof.
  unfold JsString.endsWith. intros H. apply andb_prop in H.
  destruct H as [L E]. apply Nat.leb_le in L. apply String.eqb_eq in E.
  exists (String.substring 0 (String.length t - String.length s) t).
  rewrite <- E at 2.
  replace (String.length s)
    with (String.length t - (String.length t - String.length s))%nat at 3
    by lia.
  apply substring_split. lia.
Qed.

(** [t.substring(0, t.length - 2)] for a text of two characters or more. *)
Lemma substring_drop_last_two (p : string) (c d : ascii) :
  JsString.substring (p ++ String c (String d "")) 0
    (Z.of_nat (String.length (p ++ String c (String d ""))) - 2) = p.
Proof.
  unfold JsString.substring. rewrite string_length_app. simpl String.length.
  replace (Z.min (Z.max 0 0) (Z.of_nat (String.length p + 2))) with 0%Z by lia.
  replace (Z.min (Z.max (Z.of_nat (String.length p + 2) - 2) 0)
                 (Z.of_nat (String.length p + 2)))
    with (Z.of_nat (String.length p)) by lia.
  replace (Z.min 0 (Z.of_nat (String.length p))) with 0%Z by lia.
  replace (Z.max 0 (Z.of_nat (String.length p)))
    with (Z.of_nat (String.length p)) by lia.
  rewrite Z.sub_0_r, Nat2Z.id. simpl Z.to_nat.
  apply substring_prefix_app.
Qed.

(** C7: let [t] be the text after the two substitutions.  When [t] ends
    with a double quote, [cleanUpQuery] returns [t] without its last two
    characters, the quote and the character before it (when [t] is the
    quote alone, nothing is left); otherwise it returns [t] itself. *)
Theorem trailing_quote_drops_two_characters (query : string) :
  let t := substituteLiterals query in
  (forall p c, t = (p ++ String c doubleQuote)%string -> cleanUpQuery query = p)
  /\ (t = doubleQuote -> cleanUpQuery query = "")
  /\ (JsString.endsWith t doubleQuote = false -> cleanUpQuery query = t)
  /\ (JsString.endsWith t doubleQuote = true
      <-> exists p, t = (p ++ doubleQuote)%string).
Proof.
  intros t. unfold cleanUpQuery. fold (substituteLiterals query). fold t.
  split; [|split; [|split; [|split]]].
  - intros p c E.
    assert (W : JsString.endsWith t doubleQuote = true).
    { rewrite E.
      change (p ++ String c doubleQuote)%string
        with (p ++ (String c "" ++ doubleQuote))%string.
      rewrite <- string_app_assoc. apply endsWith_app. }
    rewrite W, E. apply substring_drop_last_two.
  - intros E. rewrite E. reflexivity.
  - intros W. now rewrite W.
  - apply endsWith_inv.
  - intros [p ->]. apply endsWith_app.
Qed.

Lemma trailing_quote_drops_two_characters_witness :
  substituteLiterals ("SELECT 5;" ++ doubleQuote)
  = ("SELECT ?" ++ String ";"%char doubleQuote)%string
  /\ cleanUpQuery ("SELECT 5;" ++ doubleQuote) = "SELECT ?".
Proof.
  split; [reflexivity|].
  apply (proj1 (trailing_quote_drops_two_characters
                  ("SELECT 5;" ++ doubleQuote)) "SELECT ?" ";"%char).
  reflexivity.
Defined.

(** ** Rounding and the order of numbers *)

Section Binary64.
Local Open Scope Z_scope.
#[local] Abbreviation prec := JsNumber.prec.
#[local] Abbreviation emax := JsNumber.emax.
#[local] Abbreviation emin := JsNumber.emin.

Lemma digits2_pos_bound m : 2 ^ (Zpos (digits2_pos m) - 1) <= Zpos m.
Proof.
  induction m as [m IH|m IH|]; simpl digits2_pos.
  - rewrite Pos2Z.inj_succ. replace (Z.succ (Zpos (digits2_pos m)) - 1) with (Z.succ (Zpos (digits2_pos m) - 1)) by lia.
    rewrite Z.pow_succ_r by lia. lia.
  - rewrite Pos2Z.inj_succ. replace (Z.succ (Zpos (digits2_pos m)) - 1) with (Z.succ (Zpos (digits2_pos m) - 1)) by lia.
    rewrite Z.pow_succ_r by lia. lia.
  - simpl. lia.
Qed.

Lemma shr_1_m r : 0 <= shr_m r -> shr_m (shr_1 r) = shr_m r / 2.
Proof.
  destruct r as [m r s]. simpl. intros H.
  destruct m as [|[p|p|]|p]; cbn [shr_m]; try reflexivity; try lia.
  - apply Z.div_unique with 1; lia.
  - apply Z.div_unique with 0; lia.
Qed.

Lemma shr_1_nonneg r : 0 <= shr_m r -> 0 <= shr_m (shr_1 r).
Proof. intros H. rewrite shr_1_m by auto. apply Z.div_pos; lia. Qed.

Lemma iter_shr_1_m p : forall r,
  0 <= shr_m r ->
  shr_m (iter_pos shr_1 p r) = shr_m r / 2 ^ Zpos p.
Proof.
  induction p as [p IH|p IH|]; intros r H; simpl iter_pos.
  - assert (H1 : 0 <= shr_m (shr_1 r)) by now apply shr_1_nonneg.
    assert (H2 : 0 <= shr_m (iter_pos shr_1 p (shr_1 r))).
    { rewrite IH by auto. apply Z.div_pos; lia. }
    rewrite IH, IH, shr_1_m by auto.
    rewrite !Z.div_div by lia. f_equal.
    replace (Zpos p~1) with (1 + Zpos p + Zpos p) by lia.
    rewrite !Z.pow_add_r, Z.pow_1_r by lia. ring.
  - assert (H2 : 0 <= shr_m (iter_pos shr_1 p r)).
    { rewrite IH by auto. apply Z.div_pos; lia. }
    rewrite IH, IH by auto.
    rewrite !Z.div_div by lia. f_equal.
    replace (Zpos p~0) with (Zpos p + Zpos p) by lia.
    rewrite !Z.pow_add_r by lia. ring.
  - rewrite shr_1_m by auto. now rewrite Z.pow_1_r.
Qed.

Lemma shr_m_record_of_loc m l : shr_m (shr_record_of_loc m l) = m.
Proof. destruct l as [|[]]; reflexivity. Qed.


Lemma fexp_ge_emin e : emin <= fexp prec emax e.
Proof. unfold fexp. apply Z.le_max_r. Qed.

Lemma Zdigits2_bound m : 0 < m -> 2 ^ (Zdigits2 m - 1) <= m.
Proof. destruct m; simpl; try lia. intros _. apply digits2_pos_bound. Qed.

(** The exponent a right shift leaves is never under [emin], and a
    positive mantissa over an exponent that is not under [emin] stays
    positive. *)
Lemma shr_fexp_spec m e l :
  0 <= m ->
  let '(mrs, e') := shr_fexp prec emax m e l in
  emin <= e' /\ 0 <= shr_m mrs /\ (0 < m -> emin <= e -> 0 < shr_m mrs).
Proof.
  intros M. unfold shr_fexp, shr.
  pose proof (fexp_ge_emin (Zdigits2 m + e)) as F.
  pose proof (Zdigits2_bound m) as D.
  assert (P : emin <= e ->
              0 < fexp prec emax (Zdigits2 m + e) - e ->
              fexp prec emax (Zdigits2 m + e) - e <= Zdigits2 m - 1).
  { unfold fexp, JsNumber.emin, SpecFloat.emin, JsNumber.prec. lia. }
  set (f := fexp prec emax (Zdigits2 m + e)) in *.
  set (d := Zdigits2 m) in *.
  destruct (f - e) as [|p|p] eqn:N.
  - rewrite shr_m_record_of_loc. split; [lia|]. split; lia.
  - rewrite iter_shr_1_m by (rewrite shr_m_record_of_loc; lia).
    rewrite shr_m_record_of_loc. split; [lia|]. split.
    + apply Z.div_pos; lia.
    + intros M' E. apply Z.div_str_pos. split; [lia|].
      eapply Z.le_trans; [|apply D; lia]. apply Z.pow_le_mono_r; lia.
  - rewrite shr_m_record_of_loc. split; [lia|]. split; lia.
Qed.

Lemma round_nearest_even_ge m l : m <= round_nearest_even m l.
Proof.
  destruct l as [|[]]; simpl; try lia. destruct (Z.even m); lia.
Qed.

(** What rounding returns, for a mantissa that is not negative: a number
    whose exponent is not under [emin]; and, for a positive mantissa over
    an exponent that is not under [emin], a number that is not zero and
    has the sign asked for. *)
Lemma binary_round_aux_spec sx m e l :
  0 <= m ->
  match binary_round_aux prec emax sx m e l with
  | S754_zero s => s = sx /\ ~ (0 < m /\ emin <= e)
  | S754_infinity s => s = sx
  | S754_nan => False
  | S754_finite s _ e' => s = sx /\ emin <= e'
  end.
Proof.
  intros M. unfold binary_round_aux.
  pose proof (shr_fexp_spec m e l M) as S1.
  destruct (shr_fexp prec emax m e l) as [mrs' e'].
  destruct S1 as (E1 & N1 & P1).
  pose proof (round_nearest_even_ge (shr_m mrs') (loc_of_shr_record mrs')) as R.
  set (m2 := round_nearest_even (shr_m mrs') (loc_of_shr_record mrs')) in *.
  pose proof (shr_fexp_spec m2 e' loc_Exact ltac:(lia)) as S2.
  destruct (shr_fexp prec emax m2 e' loc_Exact) as [mrs'' e''].
  destruct S2 as (E2 & N2 & P2).
  destruct (shr_m mrs'') as [|p|p] eqn:Q.
  - split; auto. intros [M' E]. specialize (P1 M' E).
    assert (0 < 0) by (apply P2; lia). lia.
  - destruct (e'' <=? emax - prec); auto.
  - lia.
Qed.

Lemma shl_align_spec m e e' :
  let '(mz, ez) := shl_align m e e' in
  ez = Z.min e e' /\ Zpos mz = Zpos m * 2 ^ (e - ez).
Proof.
  unfold shl_align. destruct (e' - e) as [|d|d] eqn:N.
  - split; [lia|]. replace (e - e) with 0 by lia. simpl. lia.
  - split; [lia|]. replace (e - e) with 0 by lia. simpl. lia.
  - split; [lia|]. replace (e - e') with (Zpos d) by lia.
    change (Pos.iter xO m d) with (shift_pos d m).
    rewrite Zpower.shift_pos_correct. change (Zpower_pos 2 d) with (2 ^ Zpos d).
    lia.
Qed.

Lemma binary_round_spec sx m e :
  match binary_round prec emax sx m e with
  | S754_zero s => s = sx /\ ~ emin <= e
  | S754_infinity s => s = sx
  | S754_nan => False
  | S754_finite s _ e' => s = sx /\ emin <= e'
  end.
Proof.
  unfold binary_round.
  pose proof (shl_align_spec m e (fexp prec emax (Zpos (digits2_pos m) + e))) as A.
  pose proof (fexp_ge_emin (Zpos (digits2_pos m) + e)) as F.
  destruct (shl_align m e (fexp prec emax (Zpos (digits2_pos m) + e))) as [mz ez].
  destruct A as [A _].
  pose proof (binary_round_aux_spec sx (Zpos mz) ez loc_Exact ltac:(lia)) as R.
  destruct (binary_round_aux prec emax sx (Zpos mz) ez loc_Exact); auto.
  destruct R as [-> R]. split; auto. intros E. apply R. split; lia.
Qed.

(** The sign of [z * 2 ^ e] rounded, for an exponent not under [emin]. *)
Lemma binary_normalize_isPositive z e :
  emin <= e ->
  JsNumber.isPositive (binary_normalize prec emax z e false) = (0 <? z).
Proof.
  intros E. destruct z as [|m|m]; simpl binary_normalize.
  - reflexivity.
  - pose proof (binary_round_spec false m e) as R.
    destruct (binary_round prec emax false m e); simpl.
    + destruct R as [_ R]. contradiction.
    + now subst.
    + contradiction.
    + destruct R as [-> _]. reflexivity.
  - pose proof (binary_round_spec true m e) as R.
    destruct (binary_round prec emax true m e); simpl.
    + reflexivity.
    + now subst.
    + contradiction.
    + destruct R as [-> _]. reflexivity.
Qed.

Lemma binary_normalize_wellScaled z e szero :
  wellScaled (binary_normalize prec emax z e szero).
Proof.
  destruct z as [|m|m]; simpl binary_normalize.
  - exact I.
  - pose proof (binary_round_spec false m e) as R.
    destruct (binary_round prec emax false m e); simpl; auto. apply R.
  - pose proof (binary_round_spec true m e) as R.
    destruct (binary_round prec emax true m e); simpl; auto. apply R.
Qed.

Lemma add_wellScaled x y :
  wellScaled x -> wellScaled y -> wellScaled (JsNumber.add x y).
Proof.
  unfold JsNumber.add.
  destruct x as [sx|sx| |sx mx ex], y as [sy|sy| |sy my ey]; simpl; auto;
    try (destruct sx, sy; simpl; auto; fail).
  intros _ _. apply binary_normalize_wellScaled.
Qed.

Lemma div_wellScaled x y : wellScaled (JsNumber.div x y).
Proof.
  unfold JsNumber.div.
  destruct x as [sx|sx| |sx mx ex], y as [sy|sy| |sy my ey]; simpl; auto.
  unfold SFdiv_core_binary.
  set (e' := Z.min _ _). set (m' := match ex - ey - e' with Z0 => _ | Zpos _ => _ | Zneg _ => _ end).
  assert (M : 0 <= m').
  { unfold m'. destruct (ex - ey - e'); try lia. apply Z.shiftl_nonneg. lia. }
  pose proof (Z.div_pos m' (Zpos my) M ltac:(lia)) as Q.
  unfold Z.div in Q. destruct (Z.div_eucl m' (Zpos my)) as [q r]. simpl in Q.
  pose proof (binary_round_aux_spec (xorb sx sy) q e' (new_location (Zpos my) r) Q) as R.
  destruct (binary_round_aux prec emax (xorb sx sy) q e' (new_location (Zpos my) r));
    simpl; auto. apply R.
Qed.

Lemma ofDecimal_wellScaled neg m e : wellScaled (JsNumber.ofDecimal neg m e).
Proof.
  unfold JsNumber.ofDecimal. destruct m; try exact I.
  destruct (0 <=? e).
  - apply binary_normalize_wellScaled.
  - apply div_wellScaled.
Qed.

Lemma parseFloat_wellScaled s : wellScaled (JsNumber.parseFloat s).
Proof.
  unfold JsNumber.parseFloat.
  destruct (JsNumber.takeSign (JsNumber.skipWhiteSpace s)) as [neg s0].
  destruct (String.prefix "Infinity" s0); simpl; auto.
  destruct (JsNumber.takeDigits 10 s0 0 0) as [[i ni] s1].
  destruct (match s1 with
            | String "."%char s1' => JsNumber.takeDigits 10 s1' i 0
            | _ => (i, O, s1)
            end) as [[m nf] s2].
  destruct (ni + nf)%nat; simpl; auto. apply ofDecimal_wellScaled.
Qed.

Lemma parseInt_wellScaled s : wellScaled (JsNumber.parseInt s).
Proof.
  unfold JsNumber.parseInt.
  destruct (JsNumber.takeSign (JsNumber.skipWhiteSpace s)) as [neg s0].
  destruct (if (String.prefix "0x" s0 || String.prefix "0X" s0)%bool
            then (16, JsString.drop 2 s0) else (10, s0)) as [radix s1].
  destruct (JsNumber.takeDigits radix s1 0 0) as [[v n] s2].
  destruct n; simpl; auto. apply ofDecimal_wellScaled.
Qed.

Lemma scaled_finite s m e :
  emin <= e -> forall ez, emin <= ez -> ez <= e ->
  JsNumber.scaled (S754_finite s m e)
  = cond_Zopp s (Zpos m * 2 ^ (e - ez)) * 2 ^ (ez - emin).
Proof.
  intros E ez Ez L. unfold JsNumber.scaled.
  replace (e - emin) with ((e - ez) + (ez - emin)) by lia.
  rewrite Z.pow_add_r by lia. destruct s; unfold cond_Zopp; ring.
Qed.

(** The sign of a difference is the sign of the comparison. *)
Lemma sub_isPositive x y :
  wellScaled x -> wellScaled y ->
  JsNumber.isPositive (JsNumber.sub x y)
  = match JsNumber.compare x y with Some Gt => true | _ => false end.
Proof.
  unfold JsNumber.sub.
  destruct x as [sx|sx| |sx mx ex], y as [sy|sy| |sy my ey];
    try (simpl; intros; reflexivity);
    try (simpl; intros; destruct sx; try destruct sy; reflexivity).
  - (* zero - finite *)
    intros _ E. cbn [SFsub JsNumber.compare JsNumber.scaled] in *.
    assert (P : 0 < Zpos my * 2 ^ (ey - emin))
      by (apply Z.mul_pos_pos; [lia|apply Z.pow_pos_nonneg; simpl in E; lia]).
    destruct sy; cbn [negb JsNumber.isPositive cond_Zopp].
    + now rewrite (proj2 (Z.compare_gt_iff _ _)) by lia.
    + now rewrite (proj2 (Z.compare_lt_iff _ _)) by lia.
  - (* finite - zero *)
    intros E _. cbn [SFsub JsNumber.compare JsNumber.scaled] in *.
    assert (P : 0 < Zpos mx * 2 ^ (ex - emin))
      by (apply Z.mul_pos_pos; [lia|apply Z.pow_pos_nonneg; simpl in E; lia]).
    destruct sx; cbn [negb JsNumber.isPositive cond_Zopp].
    + now rewrite (proj2 (Z.compare_lt_iff _ _)) by lia.
    + now rewrite (proj2 (Z.compare_gt_iff _ _)) by lia.
  - (* finite - finite *)
    intros Ex Ey. simpl in Ex, Ey.
    cbn [SFsub JsNumber.compare].
    pose proof (shl_align_spec mx ex (Z.min ex ey)) as Ax.
    pose proof (shl_align_spec my ey (Z.min ex ey)) as Ay.
    destruct (shl_align mx ex (Z.min ex ey)) as [mx' ex'].
    destruct (shl_align my ey (Z.min ex ey)) as [my' ey'].
    destruct Ax as [Ex' Mx], Ay as [Ey' My]. cbn [fst].
    replace ex' with (Z.min ex ey) in Mx by (clear - Ex'; lia).
    replace ey' with (Z.min ex ey) in My by (clear - Ey'; lia).
    rewrite binary_normalize_isPositive by (clear - Ex Ey; lia).
    rewrite (scaled_finite sx mx ex Ex (Z.min ex ey)) by (clear - Ex Ey; lia).
    rewrite (scaled_finite sy my ey Ey (Z.min ex ey)) by (clear - Ex Ey; lia).
    rewrite Mx, My.
    set (X := cond_Zopp sx _). set (Y := cond_Zopp sy _).
    assert (0 < 2 ^ (Z.min ex ey - emin))
      by (apply Z.pow_pos_nonneg; clear - Ex Ey; lia).
    destruct (X * 2 ^ (Z.min ex ey - emin) ?= Y * 2 ^ (Z.min ex ey - emin)) eqn:C.
    + apply Z.compare_eq in C. apply Z.mul_reg_r in C; [|lia].
      apply Z.ltb_ge. lia.
    + apply Z.compare_lt_iff in C. apply Z.mul_lt_mono_pos_r in C; [|lia].
      apply Z.ltb_ge. lia.
    + apply Z.compare_gt_iff in C. apply Z.mul_lt_mono_pos_r in C; [|lia].
      apply Z.ltb_lt. lia.
Qed.

(** *** The order of numbers *)

Lemma compare_lex x y :
  JsNumber.isNaN x = false -> JsNumber.isNaN y = false ->
  JsNumber.compare x y
  = Some (match cls x ?= cls y with
          | Eq => JsNumber.scaled x ?= JsNumber.scaled y
          | c => c
          end).
Proof.
  destruct x as [sx|[]| |sx mx ex], y as [sy|[]| |sy my ey];
    simpl; intros; try discriminate; reflexivity.
Qed.

Ltac order_cases :=
  repeat match goal with
         | |- context [?a ?= ?b] => destruct (Z.compare_spec a b)
         | H : context [?a ?= ?b] |- _ => destruct (Z.compare_spec a b)
         end; try discriminate; try reflexivity; try lia.

Lemma leb_trans x y z :
  JsNumber.leb x y = true -> JsNumber.leb y z = true -> JsNumber.leb x z = true.
Proof.
  unfold JsNumber.leb.
  destruct (JsNumber.isNaN x) eqn:Nx; [destruct x; discriminate|].
  destruct (JsNumber.isNaN y) eqn:Ny; [destruct x, y; discriminate|].
  destruct (JsNumber.isNaN z) eqn:Nz; [destruct y, z; try discriminate; destruct s; discriminate|].
  rewrite !compare_lex by auto. order_cases.
Qed.

Lemma compare_not_gt_leb x y :
  JsNumber.isNaN x = false -> JsNumber.isNaN y = false ->
  match JsNumber.compare x y with Some Gt => true | _ => false end = false ->
  JsNumber.leb x y = true.
Proof.
  intros Nx Ny. unfold JsNumber.leb. rewrite compare_lex by auto. order_cases.
Qed.

Lemma compare_gt_leb x y :
  JsNumber.isNaN x = false -> JsNumber.isNaN y = false ->
  match JsNumber.compare x y with Some Gt => true | _ => false end = true ->
  JsNumber.leb y x = true.
Proof.
  intros Nx Ny. unfold JsNumber.leb. rewrite !compare_lex by auto. order_cases.
Qed.

Lemma strictEquals_not_gt x y v :
  JsNumber.strictEquals x v = true -> JsNumber.strictEquals y v = true ->
  match JsNumber.compare y x with Some Gt => true | _ => false end = false.
Proof.
  unfold JsNumber.strictEquals.
  destruct (JsNumber.isNaN v) eqn:Nv; [destruct x, v; try discriminate; destruct s; discriminate|].
  destruct (JsNumber.isNaN x) eqn:Nx; [destruct x; discriminate|].
  destruct (JsNumber.isNaN y) eqn:Ny; [destruct y; discriminate|].
  rewrite !compare_lex by auto. order_cases.
Qed.

Lemma leb_strictEquals_ltb x y :
  JsNumber.leb x y = true -> JsNumber.strictEquals x y = false ->
  JsNumber.ltb x y = true.
Proof.
  unfold JsNumber.leb, JsNumber.strictEquals, JsNumber.ltb.
  destruct (JsNumber.compare x y) as [[]|]; congruence.
Qed.

Lemma strictEquals_sym x y : JsNumber.strictEquals x y = JsNumber.strictEquals y x.
Proof.
  unfold JsNumber.strictEquals.
  destruct (JsNumber.isNaN x) eqn:Nx; [destruct x, y; try discriminate; reflexivity|].
  destruct (JsNumber.isNaN y) eqn:Ny;
    [destruct x as [|[]| |], y; try discriminate; reflexivity|].
  rewrite !compare_lex by auto. order_cases.
Qed.

Lemma sameValueZero_refl v : JsNumber.sameValueZero v v = true.
Proof.
  destruct v as [x|]; simpl; auto.
  destruct (JsNumber.isNaN x) eqn:N.
  - now rewrite orb_true_r.
  - now rewrite strictEquals_refl.
Qed.

Lemma sameValueZero_sym a b :
  JsNumber.sameValueZero a b = JsNumber.sameValueZero b a.
Proof.
  destruct a as [x|], b as [y|]; simpl; auto.
  now rewrite strictEquals_sym, andb_comm.
Qed.

Lemma ofDecimal_not_NaN neg m e : JsNumber.isNaN (JsNumber.ofDecimal neg m e) = false.
Proof.
  unfold JsNumber.ofDecimal. destruct m as [|p|p]; try reflexivity.
  destruct (0 <=? e).
  - destruct neg; cbn [cond_Zopp].
    + destruct (Z.pos p * 10 ^ e) as [|q|q] eqn:Q; cbn [Z.opp binary_normalize]; auto.
      * pose proof (binary_round_spec true q 0) as R.
        destruct (binary_round prec emax true q 0); auto; contradiction.
      * pose proof (binary_round_spec false q 0) as R.
        destruct (binary_round prec emax false q 0); auto; contradiction.
    + destruct (Z.pos p * 10 ^ e) as [|q|q] eqn:Q; cbn [binary_normalize]; auto.
      * pose proof (binary_round_spec false q 0) as R.
        destruct (binary_round prec emax false q 0); auto; contradiction.
      * pose proof (binary_round_spec true q 0) as R.
        destruct (binary_round prec emax true q 0); auto; contradiction.
  - unfold JsNumber.div. cbn [SFdiv]. unfold SFdiv_core_binary.
    set (e' := Z.min _ _).
    set (m' := match 0 - 0 - e' with Z0 => _ | Zpos _ => _ | Zneg _ => _ end).
    assert (M : 0 <= m').
    { unfold m'. destruct (0 - 0 - e'); try lia. apply Z.shiftl_nonneg. lia. }
    set (d := Z.to_pos (10 ^ (- e))).
    pose proof (Z.div_pos m' (Zpos d) M ltac:(lia)) as Q.
    unfold Z.div in Q. destruct (Z.div_eucl m' (Zpos d)) as [q r]. simpl in Q.
    pose proof (binary_round_aux_spec (xorb neg false) q e' (new_location (Zpos d) r) Q) as R.
    destruct (binary_round_aux prec emax (xorb neg false) q e' (new_location (Zpos d) r));
      auto; contradiction.
Qed.

End Binary64.

(** ** Sorting *)

Section SortFacts.
Context {A : Type} (comparefn : A -> A -> JsNumber.number).
Context (le : A -> A -> Prop) (good : A -> Prop).
Hypothesis le_trans :
  forall x y z, good x -> good y -> good z -> le x y -> le y z -> le x z.
Hypothesis not_positive_le :
  forall x y, good x -> good y ->
              JsNumber.isPositive (comparefn x y) = false -> le x y.
Hypothesis positive_le :
  forall x y, good x -> good y ->
              JsNumber.isPositive (comparefn x y) = true -> le y x.

Lemma insert_perm x l : Permutation (JsArray.insert comparefn x l) (x :: l).
Proof.
  induction l as [|y l IH]; simpl; auto.
  destruct (JsNumber.isPositive (comparefn x y)); auto.
  rewrite IH. apply perm_swap.
Qed.

Lemma sort_perm l : Permutation (JsArray.sort comparefn l) l.
Proof.
  induction l as [|x l IH]; simpl; auto.
  rewrite insert_perm. now constructor.
Qed.

Lemma insert_sorted x l :
  good x -> Forall good l ->
  StronglySorted le l -> StronglySorted le (JsArray.insert comparefn x l).
Proof.
  intros Gx Gl S. induction S as [|y l S IH F]; simpl.
  - repeat constructor.
  - inversion Gl as [|? ? Gy Gl']; subst.
    destruct (JsNumber.isPositive (comparefn x y)) eqn:C.
    + constructor; auto.
      rewrite Forall_forall. intros z Hz.
      apply (Permutation_in _ (insert_perm x l)) in Hz.
      destruct Hz as [<-|Hz]; auto.
      rewrite Forall_forall in F. auto.
    + assert (le x y) by auto.
      constructor; [constructor; auto|].
      constructor; auto.
      rewrite Forall_forall in *. intros z Hz. eauto.
Qed.

Lemma sort_sorted l :
  Forall good l -> StronglySorted le (JsArray.sort comparefn l).
Proof.
  induction l as [|x l IH]; simpl; intros G.
  - constructor.
  - inversion G; subst. apply insert_sorted; auto.
    rewrite Forall_forall in *. intros z Hz.
    apply (Permutation_in _ (sort_perm l)) in Hz. auto.
Qed.

(** Elements that [P] selects are never moved past each other. *)
Context (P : A -> bool).
Hypothesis selected_not_positive :
  forall x y, good x -> good y -> P x = true -> P y = true ->
              JsNumber.isPositive (comparefn x y) = false.

Lemma insert_filter x l :
  good x -> Forall good l ->
  filter P (JsArray.insert comparefn x l) = filter P (x :: l).
Proof.
  intros Gx Gl. induction Gl as [|y l Gy Gl IH]; simpl; auto.
  destruct (JsNumber.isPositive (comparefn x y)) eqn:C; simpl; auto.
  rewrite IH. simpl.
  destruct (P x) eqn:Px, (P y) eqn:Py; auto.
  rewrite selected_not_positive in C; auto. discriminate.
Qed.

Lemma sort_filter l :
  Forall good l -> filter P (JsArray.sort comparefn l) = filter P l.
Proof.
  induction l as [|x l IH]; simpl; auto. intros G. inversion G; subst.
  rewrite insert_filter; auto.
  - simpl. now rewrite IH.
  - rewrite Forall_forall in *. intros z Hz.
    apply (Permutation_in _ (sort_perm l)) in Hz. auto.
Qed.
End SortFacts.

(** ** The numbers a run holds *)

Lemma plus_wellScaled a b :
  goodValue a -> goodValue b -> wellScaled (JsNumber.plus a b).
Proof.
  intros Ha Hb. apply add_wellScaled; [destruct a|destruct b]; simpl; auto.
Qed.

Lemma mergeTiming_good s e :
  goodTiming s -> goodTiming e -> goodTiming (mergeTiming s e).
Proof.
  intros (Q & L & T & U & N) (Q' & L' & T' & U' & N').
  unfold goodTiming; simpl. repeat split; auto;
    apply plus_wellScaled; simpl; auto. apply plus_wellScaled; auto.
Qed.

Lemma newTiming_good k e : goodTiming e -> goodTiming (newTiming k e).
Proof.
  intros (Q & L & T & U & N).
  unfold goodTiming; simpl. repeat split; auto. apply plus_wellScaled; auto.
Qed.

Section MapValues.
Context {K V : Type} (keyEq : K -> K -> bool).

Lemma get_In k (m : @JsMap.t K V) v :
  JsMap.get keyEq k m = Some v -> In v (JsMap.values m).
Proof.
  induction m as [|[k' v'] m IH]; simpl; [discriminate|].
  destruct (keyEq k k'); auto. intros H. inversion H. auto.
Qed.

Lemma set_values_Forall (P : V -> Prop) k v (m : @JsMap.t K V) :
  Forall P (JsMap.values m) -> P v ->
  Forall P (JsMap.values (JsMap.set keyEq k v m)).
Proof.
  intros F Pv. induction m as [|[k' v'] m IH]; simpl.
  - repeat constructor; auto.
  - inversion F; subst. destruct (keyEq k k'); simpl; constructor; auto.
Qed.
End MapValues.

Lemma commit_good m e :
  Forall goodTiming (JsMap.values m) -> goodTiming e ->
  Forall goodTiming (JsMap.values (commit m e)).
Proof.
  intros F G. unfold commit. destruct (JsString.truthy (query e)); auto.
  destruct (JsMap.get String.eqb (cleanUpQuery (query e)) m) as [s|] eqn:E.
  - apply set_values_Forall; auto. apply mergeTiming_good; auto.
    apply get_In in E. rewrite Forall_forall in F. auto.
  - apply set_values_Forall; auto. now apply newTiming_good.
Qed.

Lemma greedy_run {R} p (k : string -> option R) s : forall n x,
  Regex.greedy p k s = Some (n, x) ->
  allChars p (String.substring 0 n s) = true.
Proof.
  induction s as [|c s IH]; intros n x; simpl.
  - destruct (k ""); simpl; [|discriminate].
    intros H. inversion H. reflexivity.
  - destruct (p c) eqn:Pc.
    + destruct (Regex.greedy p k s) as [[n' x']|] eqn:G.
      * intros H. inversion H; subst. simpl. rewrite Pc. simpl. eauto.
      * destruct (k (String c s)); simpl; [|discriminate].
        intros H. inversion H. reflexivity.
    + destruct (k (String c s)); simpl; [|discriminate].
      intros H. inversion H. reflexivity.
Qed.

Lemma matchHere_digits_capture l s caps rest :
  Regex.matchHere [Regex.Lit l; Regex.CapPlus Regex.digit] s = Some (caps, rest) ->
  exists c g, caps = [String c g]
              /\ Regex.digit c = true /\ allChars Regex.digit g = true.
Proof.
  simpl. destruct (String.prefix l s); [|discriminate].
  destruct (JsString.drop (String.length l) s) as [|c s']; [discriminate|].
  destruct (Regex.digit c) eqn:D; [|discriminate].
  destruct (Regex.greedy Regex.digit (fun s0 => Some ([], s0)) s')
    as [[n [caps' rest']]|] eqn:G; [|discriminate].
  intros H. inversion H; subst.
  pose proof (greedy_run _ _ _ _ _ G) as R.
  destruct (greedy_continues _ _ _ _ _ G) as [s0 K]. inversion K; subst.
  exists c, (String.substring 0 n s'). auto.
Qed.

Lemma jsMatch_timestamp_capture line caps :
  Regex.jsMatch timestampRegex line = Some caps ->
  exists c g, caps = [String c g]
              /\ Regex.digit c = true /\ allChars Regex.digit g = true.
Proof.
  unfold timestampRegex.
  induction line as [|a line IH]; cbn [Regex.jsMatch].
  - destruct (Regex.matchHere _ "") as [[caps' rest]|] eqn:M; [|discriminate].
    intros H. inversion H; subst. eauto using matchHere_digits_capture.
  - destruct (Regex.matchHere _ (String a line)) as [[caps' rest]|] eqn:M; [|exact IH].
    intros H. inversion H; subst. eauto using matchHere_digits_capture.
Qed.

Lemma takeDigits_count radix s : forall acc n v n' rest,
  JsNumber.takeDigits radix s acc n = (v, n', rest) -> (n <= n')%nat.
Proof.
  induction s as [|c s IH]; intros acc n v n' rest; simpl.
  - intros H. inversion H. lia.
  - destruct (JsNumber.digitValue radix c).
    + intros H. apply IH in H. lia.
    + intros H. inversion H. lia.
Qed.

Lemma digit_facts c :
  Regex.digit c = true ->
  JsNumber.isWhiteSpace c = false
  /\ (forall s, JsNumber.takeSign (String c s) = (false, String c s))
  /\ (exists d, JsNumber.digitValue 10 c = Some d)
  /\ c <> "x"%char /\ c <> "X"%char.
Proof.
  destruct c as [[] [] [] [] [] [] [] []]; vm_compute; intros H;
    try discriminate H; repeat split; eauto; discriminate.
Qed.

Lemma parseInt_digits c g :
  Regex.digit c = true -> allChars Regex.digit g = true ->
  JsNumber.isNaN (JsNumber.parseInt (String c g)) = false.
Proof.
  intros Dc Dg. destruct (digit_facts c Dc) as (W & S & [d V] & X1 & X2).
  unfold JsNumber.parseInt. cbn [JsNumber.skipWhiteSpace]. rewrite W, S.
  assert (P : (String.prefix "0x" (String c g) || String.prefix "0X" (String c g))%bool = false).
  { cbn [String.prefix].
    destruct (ascii_dec "0" c); [|reflexivity].
    destruct g as [|c2 g]; [reflexivity|].
    simpl in Dg. apply andb_prop in Dg. destruct Dg as [D2 _].
    destruct (digit_facts c2 D2) as (_ & _ & _ & Y1 & Y2).
    cbn [String.prefix].
    destruct (ascii_dec "x" c2), (ascii_dec "X" c2);
      first [congruence | reflexivity]. }
  rewrite P. cbn [JsNumber.takeDigits]. rewrite V.
  destruct (JsNumber.takeDigits 10 g (0 * 10 + d) 1) as [[v n] rest] eqn:T.
  apply takeDigits_count in T. destruct n; [lia|]. apply ofDecimal_not_NaN.
Qed.

Lemma onLine_good cw st line st' :
  onLine cw st line = Normal st' -> goodState st -> goodState st'.
Proof.
  intros L [Gc Gm]. revert L. unfold onLine.
  destruct (isBoundary cw line).
  { intros H. inversion H; subst. split; simpl.
    - unfold goodTiming; simpl. repeat split; auto. discriminate.
    - now apply commit_good. }
  destruct Gc as (Q & Lk & T & U & N).
  destruct (JsString.startsWith line "# Query_time").
  { destruct (Regex.jsMatch queryTimeRegex line); simpl; [|discriminate].
    intros H. inversion H; subst. split; auto.
    unfold goodTiming; simpl. repeat split; auto using parseFloat_wellScaled. }
  destruct (JsString.startsWith line "SET timestamp=").
  { destruct (Regex.jsMatch timestampRegex line) as [caps|] eqn:M; simpl; [|discriminate].
    intros H. inversion H; subst. split; auto.
    destruct (jsMatch_timestamp_capture _ _ M) as (c & g & -> & Dc & Dg).
    unfold goodTiming; simpl. repeat split; auto using parseInt_wellScaled.
    intros x E. inversion E; subst. now apply parseInt_digits. }
  destruct (JsString.startsWith line "# Thread_id:").
  { destruct (Regex.jsMatch threadIdRegex line); simpl; [|discriminate].
    intros H. inversion H; subst. split; auto.
    unfold goodTiming; simpl. repeat split; auto. }
  destruct (JsString.startsWith line "# User@Host").
  { destruct (Regex.jsMatch userHostRegex line); simpl; [|discriminate].
    intros H. inversion H; subst. split; auto.
    unfold goodTiming; simpl. repeat split; auto. }
  destruct (isIgnored line).
  { intros H. inversion H; subst. split; auto.
    unfold goodTiming. repeat split; auto. }
  intros H. inversion H; subst. split; auto.
  unfold goodTiming; simpl. repeat split; auto.
Qed.

Lemma readLines_good cw lines : forall st st',
  readLines cw st lines = Normal st' -> goodState st -> goodState st'.
Proof.
  induction lines as [|line rest IH]; intros st st'; simpl.
  - intros H. now inversion H.
  - destruct (onLine cw st line) as [st1|] eqn:L; simpl; [|discriminate].
    intros H G. eapply IH; eauto using onLine_good.
Qed.

Lemma initialState_good : goodState initialState.
Proof.
  split; simpl; [|constructor].
  unfold goodTiming; simpl. repeat split; auto. discriminate.
Qed.


(** ** The keys of [timestampToQueriesMap] *)

Section MapKeys.
Context {K V : Type} (keyEq : K -> K -> bool).

Lemma keys_set_found k v v0 (m : @JsMap.t K V) :
  JsMap.get keyEq k m = Some v0 ->
  JsMap.keys (JsMap.set keyEq k v m) = JsMap.keys m.
Proof.
  induction m as [|[k' v'] m IH]; simpl; [discriminate|].
  destruct (keyEq k k'); simpl; auto. intros H. now rewrite IH.
Qed.

Lemma keys_set_missing k v (m : @JsMap.t K V) :
  JsMap.get keyEq k m = None ->
  JsMap.keys (JsMap.set keyEq k v m) = (JsMap.keys m ++ [k])%list.
Proof.
  induction m as [|[k' v'] m IH]; simpl; auto.
  destruct (keyEq k k'); simpl; [discriminate|]. intros H. now rewrite IH.
Qed.

Lemma get_missing k (m : @JsMap.t K V) :
  JsMap.get keyEq k m = None ->
  forall a, In a (JsMap.keys m) -> keyEq k a = false.
Proof.
  induction m as [|[k' v'] m IH]; simpl; [contradiction|].
  destruct (keyEq k k') eqn:E; [discriminate|].
  intros H a [<-|Ha]; auto.
Qed.
End MapKeys.

Lemma groupByTimestamp_keys values : forall tm,
  distinctKeys (JsMap.keys tm) ->
  distinctKeys (JsMap.keys (groupByTimestamp values tm))
  /\ forall k, In k (JsMap.keys (groupByTimestamp values tm)) ->
               In k (JsMap.keys tm) \/ In k (map unixTimestamp values).
Proof.
  induction values as [|v values IH]; intros tm D; simpl.
  - split; auto.
  - destruct (JsMap.get JsNumber.sameValueZero (unixTimestamp v) tm) as [q|] eqn:G.
    + destruct (IH (JsMap.set JsNumber.sameValueZero (unixTimestamp v) (q ++ [query v])%list tm)) as [D' I'].
      { now rewrite (keys_set_found _ _ _ _ _ G). }
      split; auto. intros k Hk. apply I' in Hk.
      rewrite (keys_set_found _ _ _ _ _ G) in Hk. tauto.
    + destruct (IH (JsMap.set JsNumber.sameValueZero (unixTimestamp v) [query v] tm)) as [D' I'].
      { rewrite (keys_set_missing _ _ _ _ G).
        pose proof (get_missing _ _ _ G) as M.
        destruct D as [ND Inj]. split.
        - apply NoDup_app; [auto|repeat constructor; auto|].
          intros a Ha [<-|[]]. apply M in Ha.
          rewrite sameValueZero_refl in Ha. discriminate.
        - intros a b Ha Hb E. apply in_app_or in Ha, Hb.
          destruct Ha as [Ha|[<-|[]]], Hb as [Hb|[<-|[]]]; auto.
          + apply M in Ha. rewrite sameValueZero_sym in E. congruence.
          + apply M in Hb. congruence. }
      split; auto. intros k Hk. apply I' in Hk.
      rewrite (keys_set_missing _ _ _ _ G) in Hk.
      destruct Hk as [Hk|Hk]; auto. apply in_app_or in Hk.
      destruct Hk as [Hk|[<-|[]]]; auto.
Qed.

Lemma timings_sorted (l : list Timing) :
  Forall (fun t => comparable (totalOf t)) l ->
  Permutation (JsArray.sort byTotalTimeDescending l) l
  /\ descendingByTotalTime (JsArray.sort byTotalTimeDescending l)
  /\ equalTotalsKeepOrder l (JsArray.sort byTotalTimeDescending l).
Proof.
  intros G. split; [apply sort_perm|]. split.
  - apply (sort_sorted byTotalTimeDescending _ (fun t => comparable (totalOf t))); auto.
    + intros x y z _ _ _ H1 H2. eapply leb_trans; eauto.
    + intros x y [Wx Nx] [Wy Ny] H. unfold byTotalTimeDescending, JsNumber.minus in H.
      fold (totalOf x) in H. fold (totalOf y) in H.
      rewrite sub_isPositive in H by auto. now apply compare_not_gt_leb.
    + intros x y [Wx Nx] [Wy Ny] H. unfold byTotalTimeDescending, JsNumber.minus in H.
      fold (totalOf x) in H. fold (totalOf y) in H.
      rewrite sub_isPositive in H by auto. now apply compare_gt_leb.
  - intros v.
    apply (sort_filter byTotalTimeDescending (fun t => comparable (totalOf t))); auto.
    intros x y [Wx Nx] [Wy Ny] Px Py. unfold byTotalTimeDescending, JsNumber.minus.
    fold (totalOf x). fold (totalOf y).
    rewrite sub_isPositive by auto. eapply strictEquals_not_gt; eauto.
Qed.

Lemma ascending_distinct_strict (l : list Connections) :
  StronglySorted (fun a b => JsNumber.leb (timestampOf a) (timestampOf b) = true) l ->
  Forall (fun c => exists x, connUnixTimestamp c = Some x /\ JsNumber.isNaN x = false) l ->
  distinctKeys (map connUnixTimestamp l) ->
  strictlyAscendingByTimestamp l.
Proof.
  intros S. induction S as [|c l S IH F]; intros G [ND Inj].
  - constructor.
  - inversion G as [|? ? Gc Gl]; subst. simpl in ND. inversion ND as [|? ? Nc ND']; subst.
    constructor.
    + apply IH; auto. split; auto. intros a b Ha Hb. apply Inj; simpl; auto.
    + rewrite Forall_forall in *. intros d Hd.
      apply leb_strictEquals_ltb; [auto|].
      destruct (JsNumber.strictEquals (timestampOf c) (timestampOf d)) eqn:E; auto.
      exfalso. apply Nc.
      destruct Gc as (x & Ex & Nx). destruct (Gl d Hd) as (y & Ey & Ny).
      assert (connUnixTimestamp c = connUnixTimestamp d) as ->.
      { apply Inj; simpl; auto using in_map.
        unfold timestampOf in E. rewrite Ex, Ey in *. simpl in *. now rewrite E. }
      now apply in_map.
Qed.

Lemma connections_sorted (stats : list Timing) :
  Forall goodTiming stats ->
  (forall t, In t stats -> unixTimestamp t <> None) ->
  strictlyAscendingByTimestamp
    (JsArray.sort byTimestampAscending
       (map (fun timestamp =>
               let queries :=
                 match JsMap.get JsNumber.sameValueZero timestamp
                                 (groupByTimestamp stats []) with
                 | Some q => q
                 | None => []
                 end in
               mkConnections timestamp (List.length queries) queries)
            (JsMap.keys (groupByTimestamp stats [])))).
Proof.
  intros G H.
  destruct (groupByTimestamp_keys stats []) as [D I].
  { split; [constructor|]. intros a b []. }
  set (tm := groupByTimestamp stats []) in *.
  set (f := fun timestamp => _).
  assert (M : map connUnixTimestamp (map f (JsMap.keys tm)) = JsMap.keys tm).
  { rewrite map_map. simpl. apply map_id. }
  assert (K : forall k, In k (JsMap.keys tm) ->
                        exists x, k = Some x /\ comparable x).
  { intros k Hk. destruct (I k Hk) as [[]|Hk'].
    apply in_map_iff in Hk'. destruct Hk' as (t & <- & Ht).
    rewrite Forall_forall in G. destruct (G t Ht) as (_ & _ & _ & U & N).
    destruct (unixTimestamp t) as [x|] eqn:E; [|now apply H in Ht].
    exists x. split; auto. split; auto. }
  set (good := fun c => exists x, connUnixTimestamp c = Some x /\ comparable x).
  assert (GL : Forall good (map f (JsMap.keys tm))).
  { rewrite Forall_forall. intros c Hc. apply in_map_iff in Hc.
    destruct Hc as (k & <- & Hk). destruct (K k Hk) as (x & -> & C).
    exists x. auto. }
  pose proof (sort_perm byTimestampAscending (map f (JsMap.keys tm))) as P.
  apply ascending_distinct_strict.
  - apply (sort_sorted byTimestampAscending _ good); auto.
    + intros x y z _ _ _ H1 H2. eapply leb_trans; eauto.
    + intros x y (a & Ea & Wa & Na) (b & Eb & Wb & Nb) C.
      unfold byTimestampAscending, JsNumber.minus in C. unfold timestampOf.
      rewrite Ea, Eb in *. simpl in *.
      rewrite sub_isPositive in C by auto. now apply compare_not_gt_leb.
    + intros x y (a & Ea & Wa & Na) (b & Eb & Wb & Nb) C.
      unfold byTimestampAscending, JsNumber.minus in C. unfold timestampOf.
      rewrite Ea, Eb in *. simpl in *.
      rewrite sub_isPositive in C by auto. now apply compare_gt_leb.
  - rewrite Forall_forall in *. intros c Hc.
    apply (Permutation_in _ P) in Hc. destruct (GL c Hc) as (x & E & _ & N).
    eauto.
  - assert (P' : Permutation (JsMap.keys tm)
                   (map connUnixTimestamp
                        (JsArray.sort byTimestampAscending (map f (JsMap.keys tm))))).
    { rewrite <- M at 1. apply Permutation_map. now symmetry. }
    destruct D as [ND Inj]. split.
    + eapply Permutation_NoDup; eauto.
    + intros a b Ha Hb. apply Inj; eapply Permutation_in; try eassumption;
        now symmetry.
Qed.

(** ** C8: the order of the two reports *)

(** C8, as stated, fails: in [missingFieldsLog] the second of three stats
    has no [totalTime] that is a number and no timestamp, so both
    comparators return [NaN] against it, and the sort leaves the three in
    insertion order: the totals 1.5, [NaN], 2.5 and the timestamps 5,
    [undefined], 3.  Node's sort does the same on these arrays: it first
    compares each element with the one before it, reads every [NaN] as
    [+0], and finds the array to be one ordered run. *)
Lemma reports_out_of_order :
  ~ (forall cw lines timings connections,
        slowLogAnalyzer cw lines = Normal (timings, connections) ->
        neverIncreases
          (map (fun r => JsNumber.toNumber (rowTotalTime r)) timings))
  /\ ~ (forall cw lines timings connections,
          slowLogAnalyzer cw lines = Normal (timings, connections) ->
          neverDecreases
            (map (fun r => JsNumber.toNumber (rowUnixTimestamp r)) connections)).
Proof.
  assert (R : exists timings connections,
             slowLogAnalyzer false missingFieldsLog = Normal (timings, connections)
             /\ map rowTotalTime timings
                = [Some (double (3 * 2 ^ 51) (-52)); Some JsNumber.NaN;
                   Some (double (5 * 2 ^ 50) (-51))]
             /\ map rowUnixTimestamp connections
                = [Some (JsNumber.ofZ 5); None; Some (JsNumber.ofZ 3)]).
  { do 2 eexists. split; [vm_compute; reflexivity|].
    split; vm_compute; reflexivity. }
  destruct R as (timings & connections & R & T & C).
  split; intros H; specialize (H _ _ _ _ R).
  - specialize (H 0%nat 2%nat (double (3 * 2 ^ 51) (-52))
                  (double (5 * 2 ^ 50) (-51)) ltac:(lia)).
    assert (E : map (fun r => JsNumber.toNumber (rowTotalTime r)) timings
                = map JsNumber.toNumber (map rowTotalTime timings))
      by now rewrite map_map.
    rewrite E, T in H.
    specialize (H eq_refl eq_refl). vm_compute in H. discriminate H.
  - specialize (H 0%nat 2%nat (JsNumber.ofZ 5) (JsNumber.ofZ 3) ltac:(lia)).
    assert (E : map (fun r => JsNumber.toNumber (rowUnixTimestamp r)) connections
                = map JsNumber.toNumber (map rowUnixTimestamp connections))
      by now rewrite map_map.
    rewrite E, C in H.
    specialize (H eq_refl eq_refl). vm_compute in H. discriminate H.
Qed.

(** C8, amended: when no stat has [NaN] for [totalTime], the timing rows
    are the stats of the map sorted descending by [totalTime], rows of
    equal [totalTime] in insertion order; when every stat has a
    timestamp, the buckets of the connections report are sorted strictly
    ascending by timestamp. *)
Theorem reports_sorted_when_keys_are_numbers
        (cw : bool) (lines : list string) (st : State) :
  readLines cw initialState lines = Normal st ->
  let m := queryToTimingsMap st in
  ((forall t, In t (JsMap.values m) -> JsNumber.isNaN (totalOf t) = false) ->
   writeTimingsCSV m = map timingRow (timingsSortedByTime m)
   /\ Permutation (timingsSortedByTime m) (JsMap.values m)
   /\ descendingByTotalTime (timingsSortedByTime m)
   /\ equalTotalsKeepOrder (JsMap.values m) (timingsSortedByTime m))
  /\ ((forall t, In t (JsMap.values m) -> unixTimestamp t <> None) ->
      map rowUnixTimestamp (writeConnectionsCSV m)
      = map connUnixTimestamp (connectionsSortedByTime m)
      /\ strictlyAscendingByTimestamp (connectionsSortedByTime m)).
Proof.
  intros R m.
  destruct (readLines_good _ _ _ _ R initialState_good) as [_ G]. fold m in G.
  split.
  - intros N. split; [reflexivity|]. apply timings_sorted.
    rewrite Forall_forall in *. intros t Ht. split; auto.
    destruct (G t Ht) as (_ & _ & T & _). unfold totalOf.
    destruct (totalTime t); simpl; auto.
  - intros H. split.
    + unfold writeConnectionsCSV. now rewrite map_map.
    + now apply connections_sorted.
Qed.

Lemma reports_sorted_when_keys_are_numbers_witness :
  readLines false initialState outOfOrderLog = Normal outOfOrderState
  /\ map query (JsMap.values (queryToTimingsMap outOfOrderState))
     = ["SELECT a"; "SELECT b"; "SELECT c"]
  /\ map query (timingsSortedByTime (queryToTimingsMap outOfOrderState))
     = ["SELECT b"; "SELECT a"; "SELECT c"]
  /\ descendingByTotalTime
       (timingsSortedByTime (queryToTimingsMap outOfOrderState))
  /\ equalTotalsKeepOrder
       (JsMap.values (queryToTimingsMap outOfOrderState))
       (timingsSortedByTime (queryToTimingsMap outOfOrderState))
  /\ strictlyAscendingByTimestamp
       (connectionsSortedByTime (queryToTimingsMap outOfOrderState)).
Proof.
  assert (R : readLines false initialState outOfOrderLog
              = Normal outOfOrderState) by (vm_compute; reflexivity).
  split; [exact R|]. split; [vm_compute; reflexivity|].
  split; [vm_compute; reflexivity|].
  destruct (reports_sorted_when_keys_are_numbers
              false outOfOrderLog outOfOrderState R) as [T C].
  assert (N : forall t,
             In t (JsMap.values (queryToTimingsMap outOfOrderState)) ->
             JsNumber.isNaN (totalOf t) = false).
  { intros t [<-|[<-|[<-|[]]]]; reflexivity. }
  assert (U : forall t,
             In t (JsMap.values (queryToTimingsMap outOfOrderState)) ->
             unixTimestamp t <> None).
  { intros t [<-|[<-|[<-|[]]]]; discriminate. }
  destruct (T N) as (_ & _ & D & E). destruct (C U) as [_ A].
  split; [exact D|]. split; [exact E | exact A].
Defined.

(** ** C4: literals and the normalized text *)

Lemma prefix_app_inert (l a b : string) c :
  existsb (Ascii.eqb c) (list_ascii_of_string l) = false ->
  String.prefix l (a ++ String c b) = String.prefix l a.
Proof.
  revert a. induction l as [|x l IH]; intros a H; simpl in H.
  - now destruct a.
  - apply orb_false_elim in H. destruct H as [Hx Hl].
    destruct a as [|y a]; simpl.
    + destruct (ascii_dec x c) as [->|]; auto.
      now rewrite Ascii.eqb_refl in Hx.
    + destruct (ascii_dec x y); auto.
Qed.

Lemma prefix_length (l a : string) :
  String.prefix l a = true -> (String.length l <= String.length a)%nat.
Proof.
  revert a. induction l as [|x l IH]; intros [|y a]; simpl; try lia; try discriminate.
  destruct (ascii_dec x y); [|discriminate]. intros H. apply IH in H. lia.
Qed.

Lemma drop_app (n : nat) (a b : string) :
  (n <= String.length a)%nat ->
  JsString.drop n (a ++ b) = (JsString.drop n a ++ b)%string.
Proof.
  revert a. induction n as [|n IH]; intros [|y a]; simpl; auto; try lia.
  intros H. apply IH. lia.
Qed.

Lemma substring_app_short (n : nat) (a b : string) :
  (n <= String.length a)%nat ->
  String.substring 0 n (a ++ b) = String.substring 0 n a.
Proof.
  revert a. induction n as [|n IH]; intros [|y a]; simpl; auto; try lia.
  - now destruct b.
  - intros H. now rewrite IH by lia.
Qed.

Lemma greedy_count {R} p (k : string -> option R) a : forall n x,
  greedy p k a = Some (n, x) -> (n <= String.length a)%nat.
Proof.
  induction a as [|y a IH]; intros n x; simpl.
  - destruct (k ""); simpl; [|discriminate]. intros H. inversion H. lia.
  - destruct (p y).
    + destruct (greedy p k a) as [[n' x']|] eqn:G.
      * intros H. inversion H; subst. specialize (IH _ _ eq_refl). lia.
      * destruct (k (String y a)); simpl; [|discriminate].
        intros H. inversion H. lia.
    + destruct (k (String y a)); simpl; [|discriminate].
      intros H. inversion H. lia.
Qed.

(** A character that [p] refuses ends a repetition of [p] as the end of
    the text does. *)
Lemma greedy_local {R} p (k : string -> option R) (L : R -> R) c b :
  p c = false ->
  (forall a, k (a ++ String c b)%string = option_map L (k a)) ->
  forall a,
    greedy p k (a ++ String c b)%string
    = option_map (fun '(n, x) => (n, L x)) (greedy p k a).
Proof.
  intros Pc K a. induction a as [|y a IH].
  - pose proof (K "") as K0. simpl in *. rewrite Pc, K0.
    now destruct (k "").
  - pose proof (K (String y a)) as K1. simpl in *. destruct (p y).
    + rewrite IH. destruct (greedy p k a) as [[n x]|]; simpl; auto.
      rewrite K1. now destruct (k (String y a)).
    + rewrite K1. now destruct (k (String y a)).
Qed.

(** A character that no item of [r] can take ends a match of [r] as the
    end of the text does. *)
Lemma matchHere_local c b r :
  inert c r = true ->
  forall a,
    matchHere r (a ++ String c b)%string
    = option_map (extend c b) (matchHere r a).
Proof.
  induction r as [|it r IH]; intros I a; simpl in I.
  { reflexivity. }
  assert (I2 : inert c r = true) by (destruct it; apply andb_prop in I; tauto).
  specialize (IH I2).
  pose proof (greedy_local (R := list string * string)) as GL.
  destruct it as [l|p|p|p|p]; apply andb_prop in I; destruct I as [I1 _];
    apply negb_true_iff in I1; cbn [matchHere].
  - rewrite prefix_app_inert by auto.
    destruct (String.prefix l a) eqn:P; auto.
    rewrite drop_app by now apply prefix_length. apply IH.
  - rewrite (GL p (matchHere r) (extend c b) c b I1 IH).
    now destruct (greedy p (matchHere r) a) as [[n x]|].
  - destruct a as [|y a]; simpl; [now rewrite I1|].
    destruct (p y); auto.
    rewrite (GL p (matchHere r) (extend c b) c b I1 IH).
    now destruct (greedy p (matchHere r) a) as [[n x]|].
  - pose proof (IH "") as IH0. destruct a as [|y a]; simpl in *.
    + now rewrite I1.
    + pose proof (IH (String y a)) as IH1. simpl in IH1. destruct (p y); auto.
      rewrite IH. destruct (matchHere r a); simpl; auto.
  - destruct a as [|y a]; simpl; [now rewrite I1|].
    destruct (p y); auto.
    rewrite (GL p (matchHere r) (extend c b) c b I1 IH).
    destruct (greedy p (matchHere r) a) as [[n [caps rest]]|] eqn:G; simpl; auto.
    unfold extend; simpl. f_equal. f_equal. f_equal.
    apply greedy_count in G.
    cbn [String.substring]. f_equal. apply substring_app_short. lia.
Qed.

Lemma matchLength_local c b r a :
  inert c r = true ->
  matchLength r (a ++ String c b)%string = matchLength r a.
Proof.
  intros I. unfold matchLength. rewrite matchHere_local by auto.
  destruct (matchHere r a) as [[caps rest]|]; simpl; auto.
  rewrite !string_length_app. f_equal. simpl. lia.
Qed.

Lemma matchLength_bound r a n :
  matchLength r a = Some n -> (n <= String.length a)%nat.
Proof.
  unfold matchLength. destruct (matchHere r a) as [[caps rest]|]; [|discriminate].
  intros H. inversion H. lia.
Qed.

(** The substitution works on the two sides of a character that the
    pattern cannot take, one side at a time. *)
Lemma replaceFrom_split r rep c b :
  inert c r = true -> matchHere r "" = None ->
  forall a skip,
    (skip <= String.length a)%nat ->
    replaceFrom r rep skip (a ++ String c b)%string
    = (replaceFrom r rep skip a ++ String c (replaceFrom r rep 0 b))%string.
Proof.
  intros I E a. induction a as [|y a IH]; intros skip Hs.
  - assert (skip = 0)%nat as -> by (simpl in Hs; lia).
    pose proof (matchLength_local c b r "" I) as M.
    cbn [append] in *. cbn [replaceFrom]. rewrite M.
    unfold matchLength. rewrite E. reflexivity.
  - destruct skip as [|k]; cbn [append replaceFrom].
    + pose proof (matchLength_local c b r (String y a) I) as M.
      cbn [append] in M. rewrite M.
      destruct (matchLength r (String y a)) as [[|k]|] eqn:L.
      * rewrite IH by lia. now rewrite string_app_assoc.
      * apply matchLength_bound in L. simpl in L.
        rewrite IH by lia. now rewrite string_app_assoc.
      * now rewrite IH by lia.
    + apply IH. simpl in Hs. lia.
Qed.

Lemma replaceFrom_skip r rep (x s : string) :
  replaceFrom r rep (String.length x) (x ++ s)%string = replaceFrom r rep 0 s.
Proof.
  induction x as [|y x IH]; simpl; auto.
Qed.

(** A match at the start is replaced, and the substitution goes on after
    it. *)
Lemma replaceFrom_match r rep (x s : string) caps :
  x <> "" -> matchHere r (x ++ s)%string = Some (caps, s) ->
  replaceFrom r rep 0 (x ++ s)%string = (rep ++ replaceFrom r rep 0 s)%string.
Proof.
  intros Hx M. destruct x as [|y x]; [congruence|].
  cbn [append replaceFrom]. unfold matchLength. cbn [append] in M. rewrite M.
  cbn [String.length]. rewrite string_length_app.
  replace (S (String.length x + String.length s) - String.length s)%nat
    with (S (String.length x)) by lia.
  now rewrite replaceFrom_skip.
Qed.

Lemma replaceFrom_chars r rep (P : ascii -> bool) :
  allChars P rep = true ->
  forall s skip, allChars P s = true ->
                 allChars P (replaceFrom r rep skip s) = true.
Proof.
  intros Hr.
  assert (A : forall a b, allChars P a = true -> allChars P b = true ->
                          allChars P (a ++ b)%string = true).
  { induction a as [|y a IH]; simpl; auto. intros b H1 H2.
    apply andb_prop in H1. destruct H1 as [-> H1]. simpl. auto. }
  induction s as [|y s IH]; intros skip H.
  - destruct skip; simpl; auto.
    destruct (matchLength r "") as [[|k]|]; auto; rewrite A; auto.
  - simpl in H. apply andb_prop in H. destruct H as [Hy H].
    destruct skip; simpl; auto.
    destruct (matchLength r (String y s)) as [[|k]|]; auto;
      try apply A; auto; simpl; now rewrite Hy, IH.
Qed.

Lemma allChars_app P (a b : string) :
  allChars P (a ++ b) = allChars P a && allChars P b.
Proof. induction a as [|y a IH]; simpl; auto. now rewrite IH, andb_assoc. Qed.

Lemma string_last_split (p : string) :
  p <> "" -> exists a c, p = (a ++ String c "")%string.
Proof.
  induction p as [|y p IH]; [congruence|]. intros _.
  destruct p as [|z p].
  - exists "", y. reflexivity.
  - destruct IH as (a & c & E); [discriminate|].
    exists (String y a), c. simpl. now rewrite <- E.
Qed.

Lemma numberChar_inert c : numberChar c = false -> inert c numberRegex = true.
Proof.
  cbv [inert numberRegex numberChar orClass oneOf isChar existsb
       list_ascii_of_string].
  destruct (Ascii.eqb c "-"), (Ascii.eqb c "+"), (Ascii.eqb c "."), (digit c);
    simpl; intros H; try discriminate; reflexivity.
Qed.

Lemma replaceAll_nil r rep : matchHere r "" = None -> replaceAll r rep "" = "".
Proof. intros E. unfold replaceAll, matchLength; simpl. unfold matchLength. now rewrite E. Qed.

(** The number substitution works on a delimited prefix by itself. *)
Lemma lastChar_app (a : string) c : lastChar (a ++ String c "") = Some c.
Proof.
  induction a as [|y a IH]; simpl; auto.
  rewrite IH. now destruct a.
Qed.

Lemma number_substitution_prefix (p t : string) :
  endsDelimited p = true ->
  replaceAll numberRegex "?" (p ++ t)
  = (replaceAll numberRegex "?" p ++ replaceAll numberRegex "?" t)%string.
Proof.
  intros D. destruct p as [|y p].
  - reflexivity.
  - destruct (string_last_split (String y p)) as (a & c & E); [discriminate|].
    rewrite E in *. unfold endsDelimited in D. rewrite lastChar_app in D.
    apply negb_true_iff, numberChar_inert in D.
    unfold replaceAll. rewrite string_app_assoc. cbn [append].
    rewrite !replaceFrom_split by (auto; lia).
    rewrite string_app_assoc. cbn [append]. reflexivity.
Qed.

Lemma matchHere_opt_local c b p r (a : string) :
  inert c r = true -> a <> "" ->
  matchHere (Opt p :: r) (a ++ String c b)
  = option_map (extend c b) (matchHere (Opt p :: r) a).
Proof.
  intros I Ha. destruct a as [|y a]; [congruence|].
  pose proof (matchHere_local c b r I a) as M1.
  pose proof (matchHere_local c b r I (String y a)) as M2.
  cbn [append matchHere] in *. destruct (p y); auto.
  rewrite M1. destruct (matchHere r a); simpl; auto.
Qed.

(** A numeric literal in front of a text that does not go on with a
    digit or a dot is replaced as a whole. *)
Lemma number_literal_replaced (n s : string) :
  isNumericLiteral n = true -> startsDelimited s = true ->
  replaceAll numberRegex "?" (n ++ s)
  = ("?" ++ replaceAll numberRegex "?" s)%string.
Proof.
  unfold isNumericLiteral. intros L D.
  destruct (matchHere numberRegex n) as [[caps [|]]|] eqn:M; try discriminate.
  assert (Hn : n <> "") by (intros ->; vm_compute in M; discriminate).
  unfold replaceAll. apply (replaceFrom_match _ _ _ _ caps); auto.
  destruct s as [|c b].
  - now rewrite string_app_nil_r.
  - simpl in D. apply negb_true_iff in D.
    unfold numberRegex in *. rewrite matchHere_opt_local; auto.
    + now rewrite M.
    + revert D. cbv [inert orClass isChar].
      destruct (Ascii.eqb c "."), (digit c); simpl; intros D;
        try discriminate D; reflexivity.
Qed.

Lemma number_literal_swap (p n1 n2 s : string) :
  endsDelimited p = true -> startsDelimited s = true ->
  isNumericLiteral n1 = true -> isNumericLiteral n2 = true ->
  replaceAll numberRegex "?" (p ++ n1 ++ s)
  = replaceAll numberRegex "?" (p ++ n2 ++ s).
Proof.
  intros Dp Ds L1 L2.
  rewrite (number_substitution_prefix p (n1 ++ s)) by auto.
  rewrite (number_substitution_prefix p (n2 ++ s)) by auto.
  rewrite (number_literal_replaced n1 s), (number_literal_replaced n2 s) by auto.
  reflexivity.
Qed.

(** The string substitution. *)

Lemma notQuote_prefix y (s : string) :
  notClass (isChar "'"%char) y = true ->
  matchLength stringRegex (String y s) = None.
Proof.
  unfold notClass, isChar. intros H. apply negb_true_iff in H.
  unfold matchLength, stringRegex. cbn [matchHere String.prefix].
  destruct (ascii_dec "'" y) as [<-|]; [discriminate H|reflexivity].
Qed.

Lemma string_substitution_plain (u t : string) :
  quoteFree u = true ->
  replaceAll stringRegex "?" (u ++ t)
  = (u ++ replaceAll stringRegex "?" t)%string.
Proof.
  unfold replaceAll. induction u as [|y u IH]; simpl; auto.
  intros H. apply andb_prop in H. destruct H as [Hy Hu].
  rewrite (notQuote_prefix y (u ++ t) Hy). now rewrite IH.
Qed.

Lemma greedy_exact {R} p (k : string -> option R) (v : string) c w x :
  allChars p v = true -> p c = false -> k (String c w) = Some x ->
  greedy p k (v ++ String c w) = Some (String.length v, x).
Proof.
  intros Hv Hc K. induction v as [|y v IH]; simpl in *.
  - now rewrite Hc, K.
  - apply andb_prop in Hv. destruct Hv as [-> Hv]. now rewrite IH.
Qed.

Lemma prefix_nil (s : string) : String.prefix "" s = true.
Proof. now destruct s. Qed.

Lemma string_substitution_quoted (v w : string) :
  quoteFree v = true ->
  replaceAll stringRegex "?" (quoted v ++ w)
  = ("?" ++ replaceAll stringRegex "?" w)%string.
Proof.
  intros Hv. unfold replaceAll.
  apply (replaceFrom_match _ _ _ _ []); [discriminate|].
  unfold quoted, stringRegex. rewrite !string_app_assoc.
  cbn [append matchHere String.prefix JsString.drop String.length].
  destruct (ascii_dec "'" "'"); [|congruence].
  rewrite prefix_nil.
  rewrite (greedy_exact _ _ v "'"%char w ([], w)); auto.
  cbn [matchHere String.prefix JsString.drop String.length].
  destruct (ascii_dec "'" "'"); [|congruence]. now rewrite prefix_nil.
Qed.

Lemma string_substitution_paired (u t : string) :
  quotesPaired u ->
  replaceAll stringRegex "?" (u ++ t)
  = (replaceAll stringRegex "?" u ++ replaceAll stringRegex "?" t)%string.
Proof.
  intros P. revert t. induction P as [u Hu|u v w Hu Hv P IH]; intros t.
  - rewrite string_substitution_plain by auto.
    rewrite <- (string_app_nil_r u) at 2.
    rewrite string_substitution_plain by auto.
    rewrite replaceAll_nil by reflexivity. now rewrite string_app_nil_r.
  - rewrite !string_app_assoc.
    rewrite (string_substitution_plain u (quoted v ++ (w ++ t))) by auto.
    rewrite (string_substitution_plain u (quoted v ++ w)) by auto.
    rewrite (string_substitution_quoted v (w ++ t)) by auto.
    rewrite (string_substitution_quoted v w) by auto.
    rewrite IH. rewrite ?string_app_assoc. reflexivity.
Qed.

Lemma quote_inert : inert "'"%char numberRegex = true.
Proof. reflexivity. Qed.

Lemma number_substitution_quoted (p c s : string) :
  replaceAll numberRegex "?" (p ++ quoted c ++ s)
  = (replaceAll numberRegex "?" p
     ++ quoted (replaceAll numberRegex "?" c)
     ++ replaceAll numberRegex "?" s)%string.
Proof.
  unfold replaceAll, quoted. rewrite !string_app_assoc. cbn [append].
  rewrite replaceFrom_split by (auto using quote_inert; lia).
  rewrite replaceFrom_split by (auto using quote_inert; lia).
  rewrite ?string_app_assoc. reflexivity.
Qed.

Lemma number_substitution_quoteFree (u : string) :
  quoteFree u = true -> quoteFree (replaceAll numberRegex "?" u) = true.
Proof. intros H. apply replaceFrom_chars; auto. Qed.

Lemma number_substitution_paired (p : string) :
  quotesPaired p -> quotesPaired (replaceAll numberRegex "?" p).
Proof.
  induction 1 as [u Hu|u v w Hu Hv P IH].
  - apply paired_plain. now apply number_substitution_quoteFree.
  - rewrite number_substitution_quoted.
    apply paired_literal; auto using number_substitution_quoteFree.
Qed.

Lemma string_literal_swap (p c1 c2 s : string) :
  quotesPaired p -> quoteFree c1 = true -> quoteFree c2 = true ->
  substituteLiterals (p ++ quoted c1 ++ s)
  = substituteLiterals (p ++ quoted c2 ++ s).
Proof.
  intros P H1 H2. unfold substituteLiterals.
  rewrite !number_substitution_quoted.
  set (P' := replaceAll numberRegex "?" p).
  set (S' := replaceAll numberRegex "?" s).
  assert (HP : quotesPaired P') by now apply number_substitution_paired.
  rewrite (string_substitution_paired P' (quoted _ ++ S')) by auto.
  rewrite (string_substitution_paired P' (quoted _ ++ S')) by auto.
  rewrite !string_substitution_quoted
    by now apply number_substitution_quoteFree.
  reflexivity.
Qed.

Lemma cleanUpQuery_substituteLiterals q1 q2 :
  substituteLiterals q1 = substituteLiterals q2 ->
  cleanUpQuery q1 = cleanUpQuery q2.
Proof.
  unfold cleanUpQuery. fold (substituteLiterals q1). fold (substituteLiterals q2).
  now intros ->.
Qed.

Lemma delimited_literal_same_key q1 q2 :
  differInOneDelimitedLiteral q1 q2 -> cleanUpQuery q1 = cleanUpQuery q2.
Proof.
  intros D. apply cleanUpQuery_substituteLiterals. destruct D.
  - unfold substituteLiterals. now rewrite (number_literal_swap p n1 n2 s).
  - now apply string_literal_swap.
Qed.

Lemma plain_not_literal n :
  plainText n = true -> isNumericLiteral n = false.
Proof.
  unfold isNumericLiteral. destruct n as [|y n]; [reflexivity|].
  unfold plainText. cbn [allChars]. intros H.
  apply andb_prop in H. destruct H as [Hy _].
  apply negb_true_iff, orb_false_elim in Hy. destruct Hy as [Hy _].
  pose proof (matchHere_local y n numberRegex (numberChar_inert y Hy) "") as M.
  cbn [append] in M. rewrite M. reflexivity.
Qed.

Lemma plain_differs_from_nothing q1 q2 :
  differInOneLiteral q1 q2 -> plainText q1 = true -> False.
Proof.
  intros D. destruct D as [p n1 n2 s L1 L2|p c1 c2 s H1 H2];
    unfold plainText; rewrite !allChars_app; intros H;
    apply andb_prop in H; destruct H as [_ H];
    apply andb_prop in H; destruct H as [H _].
  - apply plain_not_literal in H. congruence.
  - unfold quoted in H. simpl in H. discriminate H.
Qed.

Lemma plain_same_only_as_itself q1 q2 :
  sameModuloLiterals q1 q2 -> plainText q1 = true -> q1 = q2.
Proof.
  induction 1 as [x y D|x|x y z _ IH1 _ IH2]; intros P; auto.
  - now apply plain_differs_from_nothing in D.
  - pose proof (IH1 P) as E. subst y. auto.
Qed.

(** C4, as stated, fails in both directions.  A literal can run into the
    text around it: [a=1-2] and [a=1--2] differ in one numeric literal,
    [2] against [-2], and normalize to [a=??] and [a=?-?].  And texts
    that differ elsewhere can normalize to the same text: [id = ?] and
    [id = 5] both give [id = ?]. *)
Lemma literals_are_not_what_decides_the_key :
  ~ (forall q1 q2,
        sameModuloLiterals q1 q2 -> cleanUpQuery q1 = cleanUpQuery q2)
  /\ ~ (forall q1 q2,
          cleanUpQuery q1 = cleanUpQuery q2 -> sameModuloLiterals q1 q2).
Proof.
  split; intros H.
  - specialize (H "a=1-2" "a=1--2").
    assert (D : sameModuloLiterals "a=1-2" "a=1--2").
    { apply rt_step. exact (differ_number "a=1-" "2" "-2" "" eq_refl eq_refl). }
    apply H in D. vm_compute in D. discriminate D.
  - specialize (H "id = ?" "id = 5" eq_refl).
    apply plain_same_only_as_itself in H; [discriminate H|reflexivity].
Qed.

(** C4, amended: two texts that differ only in the content of literals
    that the text around them delimits have the same normalized text:
    numeric literals that do not follow a digit, a sign or a dot and are
    not followed by a digit or a dot, and single-quoted literals that
    follow a text whose quotes pair up. *)
Theorem delimited_literals_do_not_change_the_key (q1 q2 : string) :
  clos_refl_trans string differInOneDelimitedLiteral q1 q2 ->
  cleanUpQuery q1 = cleanUpQuery q2.
Proof.
  induction 1 as [x y D|x|x y z _ IH1 _ IH2].
  - now apply delimited_literal_same_key.
  - reflexivity.
  - congruence.
Qed.

Lemma delimited_literals_do_not_change_the_key_witness :
  cleanUpQuery "SELECT * FROM t WHERE id = 5 AND name = 'a';"
  = cleanUpQuery "SELECT * FROM t WHERE id = -7.5 AND name = 'bob';".
Proof.
  apply delimited_literals_do_not_change_the_key.
  apply rt_trans with "SELECT * FROM t WHERE id = -7.5 AND name = 'a';".
  - apply rt_step.
    exact (delimited_number "SELECT * FROM t WHERE id = " "5" "-7.5"
             " AND name = 'a';" eq_refl eq_refl eq_refl eq_refl).
  - apply rt_step.
    exact (delimited_string "SELECT * FROM t WHERE id = -7.5 AND name = "
             "a" "bob" ";"
             (paired_plain "SELECT * FROM t WHERE id = -7.5 AND name = " eq_refl)
             eq_refl eq_refl).
Defined.

(** * Further properties *)

(** ** What a normalized text looks like *)

Lemma drop_length (n : nat) : forall s : string,
  String.length (JsString.drop n s) = (String.length s - n)%nat.
Proof.
  induction n as [|n IH]; intros [|c s]; simpl; auto.
Qed.

Lemma greedy_rest {R} p (k : string -> option R) (len : R -> nat) m s :
  (forall t x, k t = Some x -> (len x + m <= String.length t)%nat) ->
  forall n x, greedy p k s = Some (n, x) ->
              (len x + m + n <= String.length s)%nat.
Proof.
  intros K. induction s as [|c s IH]; intros n x; simpl.
  - destruct (k "") eqn:E; simpl; [|discriminate].
    intros H. inversion H; subst. apply K in E. simpl in E. lia.
  - destruct (p c).
    + destruct (greedy p k s) as [[n' x']|] eqn:G.
      * intros H. inversion H; subst. specialize (IH _ _ eq_refl). lia.
      * destruct (k (String c s)) eqn:E; simpl; [|discriminate].
        intros H. inversion H; subst. apply K in E. simpl in E. lia.
    + destruct (k (String c s)) eqn:E; simpl; [|discriminate].
      intros H. inversion H; subst. apply K in E. simpl in E. lia.
Qed.

(** What a match leaves is shorter than the text by [minLength] or
    more. *)
Lemma matchHere_minLength r : forall s caps rest,
  matchHere r s = Some (caps, rest) ->
  (String.length rest + minLength r <= String.length s)%nat.
Proof.
  induction r as [|it r IH]; intros s caps rest.
  - simpl. intros H. inversion H. lia.
  - assert (K : forall t x, matchHere r t = Some x ->
                            (String.length (snd x) + minLength r
                             <= String.length t)%nat).
    { intros t [c' r'] H. simpl. eauto. }
    destruct it as [l|p|p|p|p]; cbn [matchHere minLength].
    + destruct (String.prefix l s) eqn:P; [|discriminate].
      intros H. apply IH in H. rewrite drop_length in H.
      apply prefix_length in P. lia.
    + destruct (greedy p (matchHere r) s) as [[n x]|] eqn:G; [|discriminate].
      simpl. intros H. inversion H; subst x.
      apply (greedy_rest _ _ (fun x => String.length (snd x)) _ _ K) in G.
      simpl in G. lia.
    + destruct s as [|c s]; [discriminate|]. destruct (p c); [|discriminate].
      destruct (greedy p (matchHere r) s) as [[n x]|] eqn:G; [|discriminate].
      simpl. intros H. inversion H; subst x.
      apply (greedy_rest _ _ (fun x => String.length (snd x)) _ _ K) in G.
      simpl in G. lia.
    + destruct s as [|c s].
      * intros H. apply IH in H. lia.
      * destruct (p c).
        -- destruct (matchHere r s) as [x|] eqn:E.
           ++ intros H. inversion H; subst x. apply IH in E. simpl. lia.
           ++ intros H. apply IH in H. lia.
        -- intros H. apply IH in H. lia.
    + destruct s as [|c s]; [discriminate|]. destruct (p c); [|discriminate].
      destruct (greedy p (matchHere r) s) as [[n [c' r']]|] eqn:G;
        [|discriminate].
      intros H. inversion H; subst.
      apply (greedy_rest _ _ (fun x => String.length (snd x)) _ _ K) in G.
      simpl in G. simpl. lia.
Qed.

Lemma matchLength_minLength r s n :
  matchLength r s = Some n -> (minLength r <= n)%nat.
Proof.
  unfold matchLength. destruct (matchHere r s) as [[caps rest]|] eqn:M;
    [|discriminate].
  intros H. inversion H. apply matchHere_minLength in M. lia.
Qed.

Lemma greedy_total {R} p (k : string -> option R) s :
  (forall t, k t <> None) -> greedy p k s <> None.
Proof.
  intros K. induction s as [|c s IH]; simpl.
  - specialize (K ""). destruct (k ""); simpl; congruence.
  - destruct (p c).
    + destruct (greedy p k s) as [[n x]|]; [discriminate|contradiction].
    + specialize (K (String c s)). destruct (k (String c s)); simpl; congruence.
Qed.

Lemma greedy_none {R} (P : ascii -> bool) p (k : string -> option R) s :
  (forall t, allChars P t = true -> k t = None) ->
  allChars P s = true -> greedy p k s = None.
Proof.
  intros K. induction s as [|c s IH]; simpl; intros H.
  - now rewrite (K "").
  - apply andb_prop in H. destruct H as [Hc Hs].
    rewrite (K (String c s)) by (simpl; now rewrite Hc, Hs).
    rewrite (IH Hs). now destruct (p c).
Qed.

Lemma matchHere_star p r s :
  matchHere (Star p :: r) s = option_map snd (greedy p (matchHere r) s).
Proof. reflexivity. Qed.

Lemma matchHere_opt p r s :
  matchHere (Opt p :: r) s
  = match s with
    | String c s' =>
        if p c then
          match matchHere r s' with
          | Some x => Some x
          | None => matchHere r s
          end
        else matchHere r s
    | EmptyString => matchHere r s
    end.
Proof. reflexivity. Qed.

Lemma matchHere_plus p r s :
  matchHere (Plus p :: r) s
  = match s with
    | String c s' =>
        if p c then option_map snd (greedy p (matchHere r) s') else None
    | EmptyString => None
    end.
Proof. reflexivity. Qed.

Lemma matchHere_lit l r s :
  matchHere (Lit l :: r) s
  = if String.prefix l s then matchHere r (JsString.drop (String.length l) s)
    else None.
Proof. reflexivity. Qed.

Lemma greedy_cons {R} p (k : string -> option R) c s :
  greedy p k (String c s)
  = if p c then
      match greedy p k s with
      | Some (n, x) => Some (S n, x)
      | None => option_map (pair O) (k (String c s))
      end
    else option_map (pair O) (k (String c s)).
Proof. reflexivity. Qed.

Lemma opt_none (P : ascii -> bool) p r t :
  (forall t, allChars P t = true -> matchHere r t = None) ->
  allChars P t = true -> matchHere (Opt p :: r) t = None.
Proof.
  intros K H. rewrite matchHere_opt. destruct t as [|c t]; [now apply K|].
  rewrite (K (String c t) H). simpl in H. apply andb_prop in H.
  destruct H as [_ H]. rewrite (K t H). now destruct (p c).
Qed.

Lemma digit_not_sign_or_dot c :
  digit c = true -> oneOf "-+" c = false /\ isChar "."%char c = false.
Proof.
  destruct c as [[] [] [] [] [] [] [] []]; vm_compute; intros H;
    try discriminate H; split; reflexivity.
Qed.

(** The number pattern matches wherever a digit stands. *)
Lemma number_matches_at_digit c s :
  digit c = true -> matchHere numberRegex (String c s) <> None.
Proof.
  intros D. destruct (digit_not_sign_or_dot c D) as [S1 S2].
  assert (L : matchHere [Opt (isChar "."%char); Plus digit] (String c s)
              <> None).
  { rewrite matchHere_opt, S2, matchHere_plus, D.
    pose proof (greedy_total digit (matchHere []) s) as T.
    destruct (greedy digit (matchHere []) s); simpl; [discriminate|].
    exfalso. apply T; [|reflexivity]. intros t. simpl. discriminate. }
  unfold numberRegex. rewrite matchHere_opt, S1, matchHere_star, greedy_cons, D.
  destruct (greedy digit (matchHere [Opt (isChar "."%char); Plus digit]) s)
    as [[n x]|]; [discriminate|].
  destruct (matchHere [Opt (isChar "."%char); Plus digit] (String c s));
    [discriminate|contradiction].
Qed.

(** It matches nowhere in a text without digits. *)
Lemma number_needs_digit s :
  digitFree s = true -> matchHere numberRegex s = None.
Proof.
  unfold digitFree, numberRegex.
  assert (K3 : forall t, allChars (notClass digit) t = true ->
                         matchHere [Plus digit] t = None).
  { intros [|c t]; simpl; auto. unfold notClass at 1.
    destruct (digit c); simpl; [discriminate|reflexivity]. }
  assert (K2 : forall t, allChars (notClass digit) t = true ->
                         matchHere [Opt (isChar "."%char); Plus digit] t = None).
  { intros t. now apply opt_none. }
  assert (K1 : forall t,
             allChars (notClass digit) t = true ->
             matchHere [Star digit; Opt (isChar "."%char); Plus digit] t = None).
  { intros t H. rewrite matchHere_star.
    now rewrite (greedy_none (notClass digit) _ _ _ K2 H). }
  intros H. now apply opt_none with (P := notClass digit).
Qed.

(** Whatever a global replacement keeps of the text is a character the
    pattern does not start a match at. *)
Lemma replaceFrom_emits r rep (P : ascii -> bool) :
  allChars P rep = true ->
  (forall c s, P c = false -> exists k, matchLength r (String c s) = Some (S k)) ->
  forall s skip, allChars P (replaceFrom r rep skip s) = true.
Proof.
  intros Hr M.
  assert (A : forall a b, allChars P a = true -> allChars P b = true ->
                          allChars P (a ++ b)%string = true).
  { intros a b H1 H2. now rewrite allChars_app, H1, H2. }
  induction s as [|c s IH]; intros skip.
  - destruct skip; simpl; auto.
    destruct (matchLength r "") as [[|k]|]; auto.
  - destruct skip; simpl; auto.
    destruct (P c) eqn:Pc.
    + destruct (matchLength r (String c s)) as [[|k]|]; auto;
        try apply A; auto; simpl; now rewrite Pc, IH.
    + destruct (M c s Pc) as [k ->]. auto.
Qed.

Lemma number_substitution_digitFree s :
  digitFree (replaceAll numberRegex "?" s) = true.
Proof.
  apply replaceFrom_emits; [reflexivity|].
  intros c t Hc. unfold notClass in Hc. apply negb_false_iff in Hc.
  pose proof (number_matches_at_digit c t Hc) as N.
  destruct (matchLength numberRegex (String c t)) as [[|k]|] eqn:L.
  - apply matchLength_minLength in L. simpl in L. lia.
  - eauto.
  - unfold matchLength in L.
    destruct (matchHere numberRegex (String c t)) as [[]|]; congruence.
Qed.

Lemma allChars_substring P n : forall m s,
  allChars P s = true -> allChars P (String.substring n m s) = true.
Proof.
  induction n as [|n IH]; intros m s H.
  - revert m. induction s as [|c s IHs]; intros [|m]; simpl; auto.
    simpl in H. apply andb_prop in H. destruct H as [-> H]. simpl. auto.
  - destruct s as [|c s]; simpl; [now destruct m|].
    simpl in H. apply andb_prop in H. destruct H as [_ H]. auto.
Qed.

Lemma cleanUpQuery_unfold q :
  cleanUpQuery q
  = if JsString.endsWith (substituteLiterals q) doubleQuote
    then JsString.substring (substituteLiterals q) 0
           (Z.of_nat (String.length (substituteLiterals q)) - 2)
    else substituteLiterals q.
Proof. reflexivity. Qed.

Lemma substituteLiterals_digitFree q : digitFree (substituteLiterals q) = true.
Proof.
  unfold substituteLiterals, digitFree.
  apply replaceFrom_chars; [reflexivity|]. apply number_substitution_digitFree.
Qed.

Lemma quoteFree_count s : quoteFree s = true <-> countChar "'" s = O.
Proof.
  unfold quoteFree. induction s as [|c s IH]; simpl; [tauto|].
  unfold notClass at 1, isChar. destruct (Ascii.eqb c "'"); simpl.
  - split; intros H; discriminate H.
  - exact IH.
Qed.

Lemma first_quote_split s :
  quoteFree s = false ->
  exists v w, s = (v ++ String "'" w)%string /\ quoteFree v = true.
Proof.
  unfold quoteFree. induction s as [|c s IH]; simpl; [discriminate|].
  unfold notClass at 1, isChar. destruct (Ascii.eqb c "'") eqn:E; simpl.
  - intros _. apply Ascii.eqb_eq in E. subst c. exists "", s. auto.
  - intros H. destruct (IH H) as (v & w & -> & Hv).
    exists (String c v), w. split; auto. simpl.
    unfold notClass at 1, isChar. now rewrite E.
Qed.

Lemma stringRegex_matches_quoted (v w : string) :
  quoteFree v = true -> matchHere stringRegex (quoted v ++ w) = Some ([], w).
Proof.
  intros Hv. unfold quoted, stringRegex. rewrite !string_app_assoc.
  cbn [append matchHere String.prefix JsString.drop String.length].
  destruct (ascii_dec "'" "'"); [|congruence].
  rewrite prefix_nil.
  rewrite (greedy_exact _ _ v "'"%char w ([], w)); auto.
  cbn [matchHere String.prefix JsString.drop String.length].
  destruct (ascii_dec "'" "'"); [|congruence]. now rewrite prefix_nil.
Qed.

(** The string pattern matches at a quote that another quote follows,
    and at no other place. *)
Lemma stringRegex_at_open_quote s :
  quoteFree s = false ->
  exists k, matchLength stringRegex (String "'" s) = Some (S k).
Proof.
  intros H. destruct (first_quote_split s H) as (v & w & -> & Hv).
  pose proof (stringRegex_matches_quoted v w Hv) as M.
  unfold quoted in M. rewrite !string_app_assoc in M. cbn [append] in M.
  unfold matchLength. rewrite M. cbn [String.length].
  rewrite string_length_app. cbn [String.length].
  exists (S (String.length v)). f_equal. lia.
Qed.

Lemma stringRegex_at_last_quote s :
  quoteFree s = true -> matchLength stringRegex (String "'" s) = None.
Proof.
  intros H. unfold matchLength, stringRegex.
  rewrite matchHere_lit. cbn [String.prefix].
  destruct (ascii_dec "'" "'"); [|congruence]. rewrite prefix_nil.
  cbn [String.length JsString.drop]. rewrite matchHere_star.
  rewrite (greedy_none (notClass (isChar "'"%char))); auto.
  intros [|c t] Ht; [reflexivity|]. rewrite matchHere_lit.
  cbn [String.prefix].
  destruct (ascii_dec "'" c) as [<-|]; [discriminate Ht|reflexivity].
Qed.

Lemma string_substitution_quoteFree s :
  quoteFree s = true -> replaceAll stringRegex "?" s = s.
Proof.
  intros H. pose proof (string_substitution_plain s "" H) as E.
  rewrite string_app_nil_r in E. rewrite E.
  rewrite replaceAll_nil by reflexivity. apply string_app_nil_r.
Qed.

Lemma countChar_app a (x y : string) :
  countChar a (x ++ y) = (countChar a x + countChar a y)%nat.
Proof. induction x as [|c x IH]; simpl; auto. rewrite IH. lia. Qed.

Lemma string_substitution_count : forall s skip,
  (countChar "'" (replaceFrom stringRegex "?" skip s) <= 1)%nat.
Proof.
  induction s as [|c s IH]; intros skip.
  - destruct skip; simpl; auto.
  - destruct skip; [|apply IH].
    cbn [replaceFrom].
    destruct (Ascii.eqb c "'") eqn:E.
    + apply Ascii.eqb_eq in E. subst c.
      destruct (quoteFree s) eqn:Q.
      * rewrite (stringRegex_at_last_quote s Q).
        fold (replaceAll stringRegex "?" s).
        rewrite (string_substitution_quoteFree s Q). simpl.
        apply quoteFree_count in Q. lia.
      * destruct (stringRegex_at_open_quote s Q) as [k ->].
        rewrite countChar_app. simpl. apply IH.
    + rewrite notQuote_prefix
        by (unfold notClass, isChar; now rewrite E).
      simpl. rewrite E. apply IH.
Qed.

Lemma countChar_substring a n : forall m s,
  (countChar a (String.substring n m s) <= countChar a s)%nat.
Proof.
  induction n as [|n IH]; intros m s.
  - revert m. induction s as [|c s IHs]; intros [|m]; simpl; auto; try lia.
    specialize (IHs m). lia.
  - destruct s as [|c s]; simpl; [now destruct m|].
    specialize (IH m s). lia.
Qed.

(** Cutting a text at its end keeps it free of digits and of a second
    quote. *)
Lemma trimmed_shape (t : string) (z : Z) :
  digitFree t = true -> (countChar "'" t <= 1)%nat ->
  digitFree (JsString.substring t 0 z) = true
  /\ (countChar "'" (JsString.substring t 0 z) <= 1)%nat.
Proof.
  intros D C. unfold JsString.substring. split.
  - now apply allChars_substring.
  - eapply Nat.le_trans; [apply countChar_substring|exact C].
Qed.

(** X1: a normalized text holds no digit and at most one single quote:
    every digit is inside a match of the number pattern, and the string
    pattern takes the quotes two by two. *)
Theorem key_has_no_digit_and_one_quote_at_most (q : string) :
  digitFree (cleanUpQuery q) = true
  /\ (countChar "'" (cleanUpQuery q) <= 1)%nat.
Proof.
  rewrite cleanUpQuery_unfold.
  pose proof (substituteLiterals_digitFree q) as D.
  assert (C : (countChar "'" (substituteLiterals q) <= 1)%nat)
    by apply string_substitution_count.
  destruct (JsString.endsWith (substituteLiterals q) doubleQuote).
  - now apply trimmed_shape.
  - now split.
Qed.

Lemma number_substitution_digitFree_same s :
  digitFree s = true -> replaceAll numberRegex "?" s = s.
Proof.
  unfold replaceAll. induction s as [|c s IH]; intros H; [reflexivity|].
  cbn [replaceFrom]. unfold matchLength.
  rewrite (number_needs_digit _ H).
  unfold digitFree in H. simpl in H. apply andb_prop in H.
  destruct H as [_ H]. f_equal. now apply IH.
Qed.

Lemma string_substitution_one_quote s :
  (countChar "'" s <= 1)%nat -> replaceAll stringRegex "?" s = s.
Proof.
  unfold replaceAll. induction s as [|c s IH]; intros H; [reflexivity|].
  cbn [replaceFrom]. simpl in H.
  destruct (Ascii.eqb c "'") eqn:E.
  - apply Ascii.eqb_eq in E. subst c.
    assert (Q : quoteFree s = true) by (apply quoteFree_count; lia).
    rewrite (stringRegex_at_last_quote s Q). f_equal. apply IH. lia.
  - rewrite notQuote_prefix by (unfold notClass, isChar; now rewrite E).
    f_equal. apply IH. lia.
Qed.

Lemma substituteLiterals_same q :
  digitFree q = true -> (countChar "'" q <= 1)%nat ->
  substituteLiterals q = q.
Proof.
  intros D C. unfold substituteLiterals.
  rewrite (number_substitution_digitFree_same _ D).
  now apply string_substitution_one_quote.
Qed.

Lemma substring_length n : forall m s,
  String.length (String.substring n m s) = Nat.min m (String.length s - n).
Proof.
  induction n as [|n IH]; intros m s.
  - revert m. induction s as [|c s IHs]; intros [|m]; simpl; auto.
    now rewrite IHs, Nat.sub_0_r.
  - destruct s as [|c s]; simpl; [destruct m; simpl; lia|]. apply IH.
Qed.

Lemma drop_last_two_is_shorter (t : string) :
  t <> "" ->
  (String.length (JsString.substring t 0 (Z.of_nat (String.length t) - 2))
   < String.length t)%nat.
Proof.
  intros N. unfold JsString.substring. rewrite substring_length.
  destruct t as [|c t]; [congruence|]. cbn [String.length]. lia.
Qed.

(** X2: [cleanUpQuery] returns a text as it is exactly when the text has
    no digit, at most one single quote and no double quote at its end;
    and normalizing a normalized text again changes nothing unless it ends
    with a double quote. *)
Theorem texts_that_are_their_own_key (q : string) :
  (cleanUpQuery q = q
   <-> digitFree q = true /\ (countChar "'" q <= 1)%nat
       /\ JsString.endsWith q doubleQuote = false)
  /\ (JsString.endsWith (cleanUpQuery q) doubleQuote = false ->
      cleanUpQuery (cleanUpQuery q) = cleanUpQuery q).
Proof.
  assert (K : forall t, digitFree (cleanUpQuery t) = true
                        /\ (countChar "'" (cleanUpQuery t) <= 1)%nat).
  { intros t. rewrite cleanUpQuery_unfold.
    pose proof (substituteLiterals_digitFree t) as D.
    pose proof (string_substitution_count
                  (replaceAll numberRegex "?" t) O) as C.
    fold (replaceAll stringRegex "?" (replaceAll numberRegex "?" t)) in C.
    fold (substituteLiterals t) in C.
    destruct (JsString.endsWith (substituteLiterals t) doubleQuote);
      [now apply trimmed_shape|now split]. }
  assert (F : forall t, digitFree t = true -> (countChar "'" t <= 1)%nat ->
                        JsString.endsWith t doubleQuote = false ->
                        cleanUpQuery t = t).
  { intros t D C E. rewrite cleanUpQuery_unfold, (substituteLiterals_same t D C).
    now rewrite E. }
  split.
  - split.
    + intros H. destruct (K q) as [D C]. rewrite H in D, C.
      split; [exact D|]. split; [exact C|].
      destruct (JsString.endsWith q doubleQuote) eqn:E; auto.
      rewrite cleanUpQuery_unfold, (substituteLiterals_same q D C), E in H.
      assert (N : q <> "") by (intros ->; discriminate E).
      pose proof (drop_last_two_is_shorter q N) as L. rewrite H in L. lia.
    + intros (D & C & E). now apply F.
  - destruct (K q) as [D C]. now apply F.
Qed.

Lemma replaceFrom_length r rep :
  (String.length rep <= 1)%nat -> (1 <= minLength r)%nat ->
  forall s skip,
    (String.length (replaceFrom r rep skip s) <= String.length s - skip)%nat.
Proof.
  intros Hr Hm. induction s as [|c s IH]; intros skip.
  - destruct skip; simpl; auto.
    destruct (matchLength r "") as [n|] eqn:L; [|simpl; lia].
    pose proof (matchLength_minLength _ _ _ L).
    pose proof (matchLength_bound _ _ _ L). simpl in *. lia.
  - destruct skip; [|apply IH]. cbn [replaceFrom].
    destruct (matchLength r (String c s)) as [[|k]|] eqn:L.
    + apply matchLength_minLength in L. lia.
    + rewrite string_length_app. specialize (IH k). simpl. lia.
    + specialize (IH O). simpl. lia.
Qed.

(** X3: a normalized text is never longer than the text it is made of. *)
Theorem key_is_not_longer_than_the_text (q : string) :
  (String.length (cleanUpQuery q) <= String.length q)%nat.
Proof.
  rewrite cleanUpQuery_unfold.
  assert (L : (String.length (substituteLiterals q) <= String.length q)%nat).
  { unfold substituteLiterals, replaceAll.
    pose proof (replaceFrom_length stringRegex "?" ltac:(simpl; lia)
                  ltac:(simpl; lia) (replaceFrom numberRegex "?" 0 q) O).
    pose proof (replaceFrom_length numberRegex "?" ltac:(simpl; lia)
                  ltac:(simpl; lia) q O).
    lia. }
  destruct (JsString.endsWith (substituteLiterals q) doubleQuote); auto.
  unfold JsString.substring. rewrite substring_length. lia.
Qed.

(** ** Cells of the CSV files *)

Lemma replaceAll_doubleQuote s :
  replaceAll [Lit doubleQuote] (doubleQuote ++ doubleQuote) s = doubleQuotes s.
Proof.
  unfold replaceAll. induction s as [|c s IH]; [reflexivity|].
  cbn [replaceFrom doubleQuotes]. unfold matchLength.
  rewrite matchHere_lit. unfold doubleQuote at 1. cbn [String.prefix].
  destruct (ascii_dec "034" c) as [<-|N].
  - rewrite prefix_nil. cbn [doubleQuote String.length JsString.drop matchHere].
    replace (S (String.length s) - String.length s)%nat with 1%nat by lia.
    rewrite IH. reflexivity.
  - destruct (Ascii.eqb c "034") eqn:E.
    + apply Ascii.eqb_eq in E. congruence.
    + now rewrite IH.
Qed.

Lemma doubleQuotes_length s :
  Z.of_nat (String.length (doubleQuotes s)) = escapedLength s.
Proof.
  unfold escapedLength. f_equal.
  induction s as [|c s IH]; simpl; auto.
  destruct (Ascii.eqb c "034"); simpl; rewrite IH; lia.
Qed.

Lemma doubleQuotes_app (a b : string) :
  doubleQuotes (a ++ b) = (doubleQuotes a ++ doubleQuotes b)%string.
Proof.
  induction a as [|c a IH]; simpl; auto.
  destruct (Ascii.eqb c "034"); simpl; now rewrite IH.
Qed.

Lemma doubleQuotes_count s :
  countChar "034" (doubleQuotes s) = (2 * countChar "034" s)%nat.
Proof.
  induction s as [|c s IH]; simpl; auto.
  destruct (Ascii.eqb c "034") eqn:E; simpl; rewrite E, IH; lia.
Qed.

Lemma doubleQuotes_injective : forall s1 s2,
  doubleQuotes s1 = doubleQuotes s2 -> s1 = s2.
Proof.
  induction s1 as [|c1 s1 IH]; intros [|c2 s2]; simpl; auto.
  - destruct (Ascii.eqb c2 "034"); discriminate.
  - destruct (Ascii.eqb c1 "034"); discriminate.
  - destruct (Ascii.eqb c1 "034") eqn:E1, (Ascii.eqb c2 "034") eqn:E2;
      intros H; inversion H; subst; try congruence; f_equal; auto.
Qed.

Lemma cleanStringForCSV_cases s :
  cleanStringForCSV s
  = if (MAX_CELL_STRING_LENGTH <? escapedLength s)%Z
    then (String.substring 0 (Z.to_nat (MAX_CELL_STRING_LENGTH - 3))
                           (doubleQuotes s) ++ "...")%string
    else doubleQuotes s.
Proof.
  unfold cleanStringForCSV. rewrite replaceAll_doubleQuote, doubleQuotes_length.
  destruct (MAX_CELL_STRING_LENGTH <? escapedLength s)%Z eqn:L; auto.
  apply Z.ltb_lt in L. f_equal. unfold JsString.substring.
  rewrite doubleQuotes_length. unfold MAX_CELL_STRING_LENGTH in *.
  replace (Z.min (Z.max 0 0) (escapedLength s)) with 0%Z by lia.
  replace (Z.min (Z.max (50000 - 3) 0) (escapedLength s)) with (50000 - 3)%Z
    by lia.
  replace (Z.max 0 (50000 - 3)) with (50000 - 3)%Z by lia.
  replace (Z.min 0 (50000 - 3)) with 0%Z by lia.
  now rewrite Z.sub_0_r.
Qed.

(** X4: [cleanStringForCSV] never returns more than
    [MAX_CELL_STRING_LENGTH] characters.  A text that fits once its
    double quotes are doubled comes back with them doubled and nothing
    else changed; a longer one is cut after
    [MAX_CELL_STRING_LENGTH - 3] characters of the doubled text and ends
    in three dots, which makes [MAX_CELL_STRING_LENGTH] characters. *)
Theorem cell_fits_or_is_cut (s : string) :
  (Z.of_nat (String.length (cleanStringForCSV s)) <= MAX_CELL_STRING_LENGTH)%Z
  /\ ((escapedLength s <= MAX_CELL_STRING_LENGTH)%Z ->
      cleanStringForCSV s = doubleQuotes s
      /\ countChar "034" (cleanStringForCSV s) = (2 * countChar "034" s)%nat)
  /\ ((MAX_CELL_STRING_LENGTH < escapedLength s)%Z ->
      cleanStringForCSV s
      = (String.substring 0 (Z.to_nat (MAX_CELL_STRING_LENGTH - 3))
                          (doubleQuotes s) ++ "...")%string
      /\ Z.of_nat (String.length (cleanStringForCSV s))
         = MAX_CELL_STRING_LENGTH).
Proof.
  rewrite cleanStringForCSV_cases.
  assert (C : (MAX_CELL_STRING_LENGTH < escapedLength s)%Z ->
              Z.of_nat (String.length
                          (String.substring
                             0 (Z.to_nat (MAX_CELL_STRING_LENGTH - 3))
                             (doubleQuotes s) ++ "..."))
              = MAX_CELL_STRING_LENGTH).
  { intros L. rewrite string_length_app, substring_length, Nat.sub_0_r.
    rewrite <- doubleQuotes_length in L. unfold MAX_CELL_STRING_LENGTH in *.
    cbn [String.length]. lia. }
  destruct (MAX_CELL_STRING_LENGTH <? escapedLength s)%Z eqn:L.
  - apply Z.ltb_lt in L. split; [rewrite (C L); lia|].
    split; [lia|]. intros _. split; [reflexivity|auto].
  - apply Z.ltb_ge in L. split; [now rewrite doubleQuotes_length|].
    split; [|lia]. intros _. split; [reflexivity|apply doubleQuotes_count].
Qed.

(** X5: two texts that both fit the cell and differ give different
    cells. *)
Theorem escaping_loses_nothing (s1 s2 : string) :
  (escapedLength s1 <= MAX_CELL_STRING_LENGTH)%Z ->
  (escapedLength s2 <= MAX_CELL_STRING_LENGTH)%Z ->
  cleanStringForCSV s1 = cleanStringForCSV s2 -> s1 = s2.
Proof.
  intros L1 L2. rewrite !cleanStringForCSV_cases.
  apply Z.ltb_ge in L1, L2. rewrite L1, L2. apply doubleQuotes_injective.
Qed.

Lemma escaping_loses_nothing_witness :
  cleanStringForCSV ("say " ++ doubleQuote ++ "hi" ++ doubleQuote)
  = ("say " ++ doubleQuote ++ doubleQuote ++ "hi"
     ++ doubleQuote ++ doubleQuote)%string
  /\ ("say " ++ doubleQuote ++ "hi" ++ doubleQuote
      = "say " ++ doubleQuote ++ "hi" ++ doubleQuote)%string.
Proof.
  split; [reflexivity|].
  apply (escaping_loses_nothing
           ("say " ++ doubleQuote ++ "hi" ++ doubleQuote)
           ("say " ++ doubleQuote ++ "hi" ++ doubleQuote));
    [vm_compute; discriminate | vm_compute; discriminate | reflexivity].
Defined.

(** X6: the cut does not look at what it cuts: when the doubled quote
    stands at the characters [MAX_CELL_STRING_LENGTH - 3] and
    [MAX_CELL_STRING_LENGTH - 2] of the escaped text, the cell keeps one
    of the two quotes, followed by the three dots. *)
Theorem cut_can_split_a_doubled_quote (p s : string) :
  (escapedLength p = MAX_CELL_STRING_LENGTH - 4)%Z ->
  (3 <= String.length s)%nat ->
  cleanStringForCSV (p ++ doubleQuote ++ s)
  = (doubleQuotes p ++ doubleQuote ++ "...")%string.
Proof.
  intros Lp Ls. rewrite cleanStringForCSV_cases.
  assert (E : escapedLength (p ++ doubleQuote ++ s)
              = (escapedLength p + 2 + escapedLength s)%Z).
  { rewrite <- !doubleQuotes_length, !doubleQuotes_app, !string_length_app.
    cbn [doubleQuotes doubleQuote String.length Ascii.eqb Bool.eqb]. lia. }
  assert (Ls' : (3 <= escapedLength s)%Z) by (unfold escapedLength; lia).
  unfold MAX_CELL_STRING_LENGTH in *.
  replace (50000 <? escapedLength (p ++ doubleQuote ++ s))%Z with true
    by (symmetry; apply Z.ltb_lt; lia).
  rewrite !doubleQuotes_app.
  cbn [doubleQuotes doubleQuote Ascii.eqb Bool.eqb append].
  replace (doubleQuotes p ++ String "034" (String "034" (doubleQuotes s)))%string
    with ((doubleQuotes p ++ String "034" "")
          ++ String "034" (doubleQuotes s))%string
    by (now rewrite string_app_assoc).
  replace (Z.to_nat (50000 - 3))
    with (String.length (doubleQuotes p ++ String "034" "")).
  - rewrite substring_prefix_app. now rewrite string_app_assoc.
  - rewrite string_length_app. cbn [String.length].
    rewrite <- doubleQuotes_length in Lp. lia.
Qed.

Lemma cut_can_split_a_doubled_quote_witness :
  escapedLength (padding 49996) = (MAX_CELL_STRING_LENGTH - 4)%Z
  /\ cleanStringForCSV (padding 49996 ++ doubleQuote ++ "end")
     = (doubleQuotes (padding 49996) ++ doubleQuote ++ "...")%string.
Proof.
  assert (L : escapedLength (padding 49996) = (MAX_CELL_STRING_LENGTH - 4)%Z)
    by (vm_compute; reflexivity).
  split; [exact L|].
  apply (cut_can_split_a_doubled_quote (padding 49996) "end" L).
  simpl. lia.
Defined.

(** ** Lines that are not markers *)

Lemma onLine_noise cw st line :
  isNoise cw line = true -> onLine cw st line = Normal st.
Proof.
  unfold isNoise, isMarker. intros H.
  apply andb_prop in H. destruct H as [H I].
  apply andb_prop in H. destruct H as [B M].
  apply negb_true_iff in B, M.
  repeat (apply orb_false_elim in M; destruct M as [M ?]).
  unfold onLine. now rewrite B, M, H, H0, H1, I.
Qed.

Lemma onLine_queryText cw st line :
  isQueryText cw line = true ->
  onLine cw st line
  = Normal (mkState (queryToTimingsMap st)
                    (setQuery (query (currentTiming st) ++ line)
                              (currentTiming st))).
Proof.
  unfold isQueryText, isMarker. intros H.
  apply andb_prop in H. destruct H as [H I].
  apply andb_prop in H. destruct H as [B M].
  apply negb_true_iff in B, M, I.
  repeat (apply orb_false_elim in M; destruct M as [M ?]).
  unfold onLine. now rewrite B, M, H, H0, H1, I.
Qed.

Lemma noise_or_queryText cw line :
  isBoundary cw line = false -> isMarker line = false ->
  isNoise cw line = negb (isQueryText cw line).
Proof.
  unfold isNoise, isQueryText. intros -> ->. simpl.
  now destruct (isIgnored line).
Qed.

(** X7: between two boundary lines, lines that are neither boundary nor
    marker lines change the query text only: it gets the lines that are
    not ignored, in order, with nothing put between them. *)
Theorem query_lines_are_joined (cw : bool) (lines : list string) (st : State) :
  Forall (fun line => isBoundary cw line = false /\ isMarker line = false)
         lines ->
  readLines cw st lines
  = Normal (mkState (queryToTimingsMap st)
                    (setQuery (query (currentTiming st)
                               ++ joined (filter (isQueryText cw) lines))
                              (currentTiming st))).
Proof.
  revert st. induction lines as [|line lines IH]; intros st F.
  - simpl. rewrite string_app_nil_r. now destruct st as [m []].
  - inversion F as [|? ? [B M] F']; subst. cbn [readLines filter].
    pose proof (noise_or_queryText cw line B M) as N.
    destruct (isQueryText cw line) eqn:Q.
    + rewrite (onLine_queryText _ _ _ Q). cbn [bind].
      rewrite (IH _ F'). cbn [joined fold_right queryToTimingsMap currentTiming].
      unfold setQuery. cbn [query count queryTime lockTime totalTime
                              unixTimestamp connectionId].
      now rewrite string_app_assoc.
    + rewrite (onLine_noise cw st line) by (now rewrite N).
      cbn [bind]. now apply IH.
Qed.

Lemma query_lines_are_joined_witness :
  readLines false initialState ["SELECT *"; "# a comment"; "FROM t"]
  = Normal (mkState [] (setQuery "SELECT *FROM t" freshTiming)).
Proof.
  apply (query_lines_are_joined false ["SELECT *"; "# a comment"; "FROM t"]
           initialState).
  repeat constructor.
Defined.

(** ** When a run throws *)

Lemma onLine_throws cw st line :
  onLine cw st line = Throw <-> isMalformed cw line = true.
Proof.
  unfold onLine, isMalformed.
  destruct (isBoundary cw line); cbn [negb andb]; [split; discriminate|].
  repeat match goal with
         | |- context [if ?b then _ else _] => destruct b
         | |- context [jsMatch ?r ?l] => destruct (jsMatch r l)
         end; cbn [group bind isSome negb];
    split; intros H; try discriminate H; reflexivity.
Qed.

(** X8: reading a log throws exactly when one of its lines reaches the
    branch of a marker and does not match the pattern of that branch;
    the state plays no part. *)
Theorem run_throws_at_a_malformed_marker
        (cw : bool) (lines : list string) (st : State) :
  readLines cw st lines = Throw
  <-> Exists (fun line => isMalformed cw line = true) lines.
Proof.
  revert st. induction lines as [|line lines IH]; intros st; cbn [readLines].
  - split; [discriminate|]. intros H. inversion H.
  - destruct (onLine cw st line) as [st'|] eqn:L; cbn [bind].
    + rewrite IH. split; [now right|].
      intros H. inversion H as [? ? M|]; subst; auto.
      apply onLine_throws with (st := st) in M. congruence.
    + split; auto. intros _. left. now apply (onLine_throws cw st).
Qed.

(** ** The connection id *)

Section MapValuesFacts.
Context {K V : Type} (keyEq : K -> K -> bool) (f : V -> V).

Lemma get_mapValues k (m : @JsMap.t K V) :
  JsMap.get keyEq k (mapValues f m) = option_map f (JsMap.get keyEq k m).
Proof.
  induction m as [|[k' v'] m IH]; simpl; auto. now destruct (keyEq k k').
Qed.

Lemma set_mapValues k v (m : @JsMap.t K V) :
  JsMap.set keyEq k (f v) (mapValues f m) = mapValues f (JsMap.set keyEq k v m).
Proof.
  induction m as [|[k' v'] m IH]; simpl; auto.
  destruct (keyEq k k'); simpl; auto. now rewrite IH.
Qed.

Lemma values_mapValues (m : @JsMap.t K V) :
  JsMap.values (mapValues f m) = map f (JsMap.values m).
Proof. unfold JsMap.values, mapValues. now rewrite !map_map. Qed.

Lemma mapValues_idempotent (m : @JsMap.t K V) :
  (forall v, f (f v) = f v) -> mapValues f (mapValues f m) = mapValues f m.
Proof.
  intros H. unfold mapValues. rewrite map_map. apply map_ext.
  intros [k v]. simpl. now rewrite H.
Qed.
End MapValuesFacts.

Lemma commit_withoutConnectionId m e :
  commit (mapValues withoutConnectionId m) (withoutConnectionId e)
  = mapValues withoutConnectionId (commit m e).
Proof.
  unfold commit. cbn [withoutConnectionId query].
  destruct (JsString.truthy (query e)); auto.
  rewrite get_mapValues.
  destruct (JsMap.get String.eqb (cleanUpQuery (query e)) m) as [s|];
    cbn [option_map]; rewrite <- set_mapValues; reflexivity.
Qed.

Lemma stateWithoutConnectionId_idempotent st :
  stateWithoutConnectionId (stateWithoutConnectionId st)
  = stateWithoutConnectionId st.
Proof.
  unfold stateWithoutConnectionId. cbn [queryToTimingsMap currentTiming].
  now rewrite mapValues_idempotent.
Qed.

Lemma Normal_inj {A} (a b : A) : Normal a = Normal b -> a = b.
Proof. intros H. now inversion H. Qed.

(** The handler does the same to two states that differ in
    [connectionId] only. *)
Lemma onLine_withoutConnectionId cw st line :
  mapCompletion stateWithoutConnectionId
    (onLine cw (stateWithoutConnectionId st) line)
  = mapCompletion stateWithoutConnectionId (onLine cw st line).
Proof.
  unfold onLine, stateWithoutConnectionId.
  cbn [queryToTimingsMap currentTiming].
  destruct (isBoundary cw line).
  { cbn [mapCompletion queryToTimingsMap currentTiming].
    rewrite commit_withoutConnectionId.
    now rewrite mapValues_idempotent. }
  repeat match goal with
         | |- context [if ?b then _ else _] => destruct b
         | |- context [group ?m ?i] => destruct m; cbn [group bind]
         end;
    cbn [mapCompletion queryToTimingsMap currentTiming];
    try reflexivity;
    rewrite mapValues_idempotent by reflexivity; reflexivity.
Qed.

Lemma readLines_withoutConnectionId cw lines : forall st,
  mapCompletion stateWithoutConnectionId
    (readLines cw (stateWithoutConnectionId st) lines)
  = mapCompletion stateWithoutConnectionId (readLines cw st lines).
Proof.
  induction lines as [|line lines IH]; intros st; cbn [readLines].
  - cbn [mapCompletion]. now rewrite stateWithoutConnectionId_idempotent.
  - pose proof (onLine_withoutConnectionId cw st line) as L.
    destruct (onLine cw (stateWithoutConnectionId st) line) as [b|],
             (onLine cw st line) as [a|];
      cbn [mapCompletion bind] in *; try discriminate L; auto.
    apply Normal_inj in L. rewrite <- (IH b), L. apply IH.
Qed.

Lemma startsWith_threadId line :
  JsString.startsWith line "# Thread_id:" = true ->
  JsString.startsWith line "# Query_time" = false
  /\ JsString.startsWith line "SET timestamp=" = false.
Proof.
  intros H. split.
  - now apply (startsWith_exclusive "# Thread_id:" "# Query_time").
  - now apply (startsWith_exclusive "# Thread_id:" "SET timestamp=").
Qed.

Lemma startsWith_userHost line :
  JsString.startsWith line "# User@Host" = true ->
  JsString.startsWith line "# Query_time" = false
  /\ JsString.startsWith line "SET timestamp=" = false
  /\ JsString.startsWith line "# Thread_id:" = false.
Proof.
  intros H. split; [|split].
  - now apply (startsWith_exclusive "# User@Host" "# Query_time").
  - now apply (startsWith_exclusive "# User@Host" "SET timestamp=").
  - now apply (startsWith_exclusive "# User@Host" "# Thread_id:").
Qed.

Lemma onLine_connectionLine cw st line :
  isConnectionLine cw line = true ->
  exists st', onLine cw st line = Normal st'
              /\ stateWithoutConnectionId st' = stateWithoutConnectionId st.
Proof.
  unfold isConnectionLine. intros H.
  apply andb_prop in H. destruct H as [B H]. apply negb_true_iff in B.
  unfold onLine. rewrite B.
  apply orb_prop in H. destruct H as [H|H];
    apply andb_prop in H; destruct H as [S M].
  - destruct (startsWith_threadId line S) as [-> ->]. rewrite S.
    destruct (jsMatch threadIdRegex line); [|discriminate M].
    cbn [group bind]. eexists. split; reflexivity.
  - destruct (startsWith_userHost line S) as (-> & -> & ->). rewrite S.
    destruct (jsMatch userHostRegex line); [|discriminate M].
    cbn [group bind]. eexists. split; reflexivity.
Qed.

Section SortMap.
Context {A : Type} (comparefn : A -> A -> JsNumber.number) (f : A -> A).
Hypothesis comparefn_f : forall x y, comparefn (f x) (f y) = comparefn x y.

Lemma insert_map x l :
  JsArray.insert comparefn (f x) (map f l)
  = map f (JsArray.insert comparefn x l).
Proof.
  induction l as [|y l IH]; simpl; auto.
  rewrite comparefn_f. destruct (JsNumber.isPositive (comparefn x y)); simpl; auto.
  now rewrite IH.
Qed.

Lemma sort_map l :
  JsArray.sort comparefn (map f l) = map f (JsArray.sort comparefn l).
Proof.
  induction l as [|x l IH]; simpl; auto. now rewrite IH, insert_map.
Qed.
End SortMap.

Lemma groupByTimestamp_withoutConnectionId values : forall tm,
  groupByTimestamp (map withoutConnectionId values) tm
  = groupByTimestamp values tm.
Proof. induction values as [|v values IH]; intros tm; simpl; auto. Qed.

Lemma reports_withoutConnectionId st :
  reportsOf (stateWithoutConnectionId st) = reportsOf st.
Proof.
  unfold reportsOf, stateWithoutConnectionId. cbn [queryToTimingsMap].
  f_equal.
  - unfold writeTimingsCSV, timingsSortedByTime.
    rewrite values_mapValues, sort_map by reflexivity.
    rewrite map_map. reflexivity.
  - unfold writeConnectionsCSV, connectionsSortedByTime.
    now rewrite values_mapValues, groupByTimestamp_withoutConnectionId.
Qed.

Lemma slowLogAnalyzer_reports cw lines :
  slowLogAnalyzer cw lines
  = mapCompletion reportsOf
      (mapCompletion stateWithoutConnectionId
         (readLines cw initialState lines)).
Proof.
  unfold slowLogAnalyzer.
  destruct (readLines cw initialState lines) as [st|]; cbn [bind mapCompletion];
    auto.
  now rewrite reports_withoutConnectionId.
Qed.

Lemma readLines_without_connection_lines cw lines : forall st,
  mapCompletion stateWithoutConnectionId
    (readLines cw st
       (filter (fun line => negb (isConnectionLine cw line)
                            && negb (isNoise cw line)) lines))
  = mapCompletion stateWithoutConnectionId (readLines cw st lines).
Proof.
  induction lines as [|line lines IH]; intros st; [reflexivity|].
  cbn [filter readLines].
  destruct (isConnectionLine cw line) eqn:C; cbn [negb andb].
  - destruct (onLine_connectionLine cw st line C) as (st' & -> & E).
    cbn [bind]. rewrite IH.
    rewrite <- (readLines_withoutConnectionId cw lines st'), E.
    symmetry. apply readLines_withoutConnectionId.
  - destruct (isNoise cw line) eqn:N; cbn [negb].
    + rewrite (onLine_noise cw st line N). cbn [bind]. apply IH.
    + cbn [readLines]. destruct (onLine cw st line) as [st'|]; cbn [bind]; auto.
Qed.

(** X9: the connection id is read and never written out: a log without
    its well-formed [# Thread_id:] and [# User@Host] lines, and without
    the lines the handler ignores, gives the same two reports, or throws
    as well. *)
Theorem connection_lines_reach_no_report (cw : bool) (lines : list string) :
  slowLogAnalyzer cw
    (filter (fun line => negb (isConnectionLine cw line)
                         && negb (isNoise cw line)) lines)
  = slowLogAnalyzer cw lines.
Proof.
  rewrite !slowLogAnalyzer_reports.
  now rewrite readLines_without_connection_lines.
Qed.

(** ** Labels of the marker lines *)

Lemma includes_cons c s l :
  JsString.includes s l = true -> JsString.includes (String c s) l = true.
Proof.
  intros H. cbn [JsString.includes]. now destruct (String.prefix l (String c s)).
Qed.

Lemma includes_prefix s l :
  String.prefix l s = true -> JsString.includes s l = true.
Proof. intros H. destruct s; cbn [JsString.includes]; now rewrite H. Qed.

Lemma includes_drop n : forall s l,
  JsString.includes (JsString.drop n s) l = true ->
  JsString.includes s l = true.
Proof.
  induction n as [|n IH]; intros [|c s] l; simpl JsString.drop; auto.
  intros H. apply includes_cons. now apply IH.
Qed.

(** The continuation of a greedy repetition runs on what is left of the
    text. *)
Lemma greedy_drop {R} p (k : string -> option R) s : forall n x,
  greedy p k s = Some (n, x) -> k (JsString.drop n s) = Some x.
Proof.
  induction s as [|c s IH]; intros n x; simpl.
  - destruct (k "") eqn:K; simpl; [|discriminate].
    intros H. inversion H; subst. exact K.
  - destruct (p c).
    + destruct (greedy p k s) as [[n' x']|] eqn:G.
      * intros H. inversion H; subst. simpl. auto.
      * destruct (k (String c s)) eqn:K; simpl; [|discriminate].
        intros H. inversion H; subst. exact K.
    + destruct (k (String c s)) eqn:K; simpl; [|discriminate].
      intros H. inversion H; subst. exact K.
Qed.

(** A text that matches holds every literal of the pattern. *)
Lemma matchHere_literals r : forall s x l,
  matchHere r s = Some x -> In l (literals r) ->
  JsString.includes s l = true.
Proof.
  induction r as [|it r IH]; intros s x l; [intros _ []|].
  destruct it as [l0|p|p|p|p]; cbn [literals].
  - rewrite matchHere_lit. destruct (String.prefix l0 s) eqn:P; [|discriminate].
    intros M [<-|I].
    + now apply includes_prefix.
    + eapply includes_drop, IH; eauto.
  - rewrite matchHere_star.
    destruct (greedy p (matchHere r) s) as [[n y]|] eqn:G; [|discriminate].
    intros _ I. apply greedy_drop in G. eapply includes_drop, IH; eauto.
  - rewrite matchHere_plus. destruct s as [|c s]; [discriminate|].
    destruct (p c); [|discriminate].
    destruct (greedy p (matchHere r) s) as [[n y]|] eqn:G; [|discriminate].
    intros _ I. apply greedy_drop in G.
    apply includes_cons. eapply includes_drop, IH; eauto.
  - rewrite matchHere_opt. destruct s as [|c s]; [apply IH|].
    destruct (p c); [|apply IH].
    destruct (matchHere r s) as [y|] eqn:E; [|apply IH].
    intros _ I. apply includes_cons. eapply IH; eauto.
  - cbn [matchHere]. destruct s as [|c s]; [discriminate|].
    destruct (p c); [|discriminate].
    destruct (greedy p (matchHere r) s) as [[n [caps' rest']]|] eqn:G;
      [|discriminate].
    intros _ I. apply greedy_drop in G.
    apply includes_cons. eapply includes_drop, IH; eauto.
Qed.

Lemma jsMatch_literals r : forall s caps l,
  jsMatch r s = Some caps -> In l (literals r) ->
  JsString.includes s l = true.
Proof.
  induction s as [|c s IH]; intros caps l; cbn [jsMatch].
  - destruct (matchHere r "") as [x|] eqn:M; [|discriminate].
    intros _. now apply (matchHere_literals r "" x).
  - destruct (matchHere r (String c s)) as [x|] eqn:M.
    + intros _. now apply (matchHere_literals r _ x).
    + intros H I. apply includes_cons. eauto.
Qed.

(** X10: a [# Query_time] line that is not a boundary line and lacks one
    of the labels [Lock_time: ], [Rows_sent: ] and [Rows_examined: ]
    throws, and so does a [# User@Host] line without [ Id:]. *)
Theorem marker_line_without_a_label_throws
        (cw : bool) (st : State) (line : string) :
  isBoundary cw line = false ->
  (JsString.startsWith line "# Query_time" = true ->
   (exists l, In l ["Lock_time: "; "Rows_sent: "; "Rows_examined: "]
              /\ JsString.includes line l = false) ->
   onLine cw st line = Throw)
  /\ (JsString.startsWith line "# User@Host" = true ->
      JsString.includes line " Id:" = false ->
      onLine cw st line = Throw).
Proof.
  intros B. split.
  - intros S (l & I & N). unfold onLine. rewrite B, S.
    destruct (jsMatch queryTimeRegex line) as [caps|] eqn:M; [|reflexivity].
    rewrite (jsMatch_literals _ _ _ l M) in N; [discriminate|].
    simpl in *. tauto.
  - intros S N. unfold onLine. rewrite B.
    destruct (startsWith_userHost line S) as (-> & -> & ->). rewrite S.
    destruct (jsMatch userHostRegex line) as [caps|] eqn:M; [|reflexivity].
    rewrite (jsMatch_literals _ _ _ " Id:" M) in N; [discriminate|].
    simpl. tauto.
Qed.

Lemma marker_line_without_a_label_throws_witness :
  onLine false initialState "# Query_time: 1.5  Lock_time: 0.2" = Throw
  /\ onLine false initialState "# User@Host: root[root] @ localhost []" = Throw.
Proof.
  destruct (marker_line_without_a_label_throws false initialState
              "# Query_time: 1.5  Lock_time: 0.2" eq_refl) as [Q _].
  destruct (marker_line_without_a_label_throws false initialState
              "# User@Host: root[root] @ localhost []" eq_refl) as [_ U].
  split.
  - apply Q; [reflexivity|]. exists "Rows_sent: ". split; [simpl; auto|reflexivity].
  - apply U; reflexivity.
Defined.

(** ** The two formats *)

Lemma isBoundary_modes line :
  timeOnlyAtStart line -> isBoundary true line = isBoundary false line.
Proof.
  unfold timeOnlyAtStart, isBoundary. intros H.
  destruct (JsString.startsWith line "# Time:") eqn:S.
  - now apply includes_prefix.
  - destruct (JsString.includes line "# Time:"); auto.
    discriminate (H eq_refl).
Qed.

Lemma onLine_modes st line :
  timeOnlyAtStart line -> onLine true st line = onLine false st line.
Proof. intros H. unfold onLine. now rewrite (isBoundary_modes line H). Qed.

(** X11: the two formats differ in the test for a boundary line only: a
    line that starts with [# Time:] is a boundary line in both, and a log
    that has [# Time:] nowhere but at the start of lines is read to the
    same state, or to the same throw, in both. *)
Theorem modes_differ_only_where_Time_is_inside
        (lines : list string) (st : State) :
  Forall timeOnlyAtStart lines ->
  readLines true st lines = readLines false st lines
  /\ (forall line, isBoundary false line = true -> isBoundary true line = true).
Proof.
  intros F. split.
  - revert st. induction F as [|line lines H F IH]; intros st; [reflexivity|].
    cbn [readLines]. rewrite (onLine_modes st line H).
    destruct (onLine false st line); cbn [bind]; auto.
  - intros line. unfold isBoundary. apply includes_prefix.
Qed.

Lemma modes_differ_only_where_Time_is_inside_witness :
  readLines true initialState outOfOrderLog = Normal outOfOrderState.
Proof.
  assert (F : Forall timeOnlyAtStart outOfOrderLog).
  { repeat constructor; intros H; try reflexivity; vm_compute in H;
      discriminate H. }
  destruct (modes_differ_only_where_Time_is_inside
              outOfOrderLog initialState F) as [E _].
  rewrite E. vm_compute; reflexivity.
Defined.

(** ** [NaN] in the sums *)

Lemma add_NaN_l x : JsNumber.add JsNumber.NaN x = JsNumber.NaN.
Proof. now destruct x. Qed.

Lemma add_NaN_r x : JsNumber.add x JsNumber.NaN = JsNumber.NaN.
Proof. now destruct x. Qed.

Lemma isNaN_eq x : JsNumber.isNaN x = true -> x = JsNumber.NaN.
Proof. destruct x; simpl; intros H; try discriminate H; reflexivity. Qed.

Lemma running_total_NaN es : forall t,
  JsNumber.isNaN t = true
  \/ Exists (fun e => JsNumber.isNaN (entryTotal e) = true) es ->
  JsNumber.isNaN
    (fold_left (fun t e => JsNumber.plus (Some t) (Some (entryTotal e))) es t)
  = true.
Proof.
  induction es as [|e es IH]; intros t H; simpl.
  - destruct H as [H|H]; [exact H|inversion H].
  - apply IH. destruct H as [H|H].
    + left. apply isNaN_eq in H. subst t. unfold JsNumber.plus.
      cbn [JsNumber.toNumber]. now rewrite add_NaN_l.
    + inversion H as [? ? He|? ? He]; subst; [|now right].
      left. apply isNaN_eq in He. unfold JsNumber.plus.
      cbn [JsNumber.toNumber]. now rewrite He, add_NaN_r.
Qed.

(** X12: a stat that has taken in an entry without [queryTime] or
    without [lockTime] has [NaN] for [totalTime], whatever else was
    merged into it before or after, and its row has [NaN] as total and
    as average. *)
Theorem entry_without_times_makes_total_NaN
        (cw : bool) (lines : list string) (st : State) (k : string)
        (s e : Timing) :
  readLines cw initialState lines = Normal st ->
  JsMap.get String.eqb k (queryToTimingsMap st) = Some s ->
  In e (entriesFor k (committed cw initialState lines)) ->
  queryTime e = None \/ lockTime e = None ->
  totalTime s = Some JsNumber.NaN
  /\ rowTotalTime (timingRow s) = Some JsNumber.NaN
  /\ rowAverageTime (timingRow s) = JsNumber.NaN.
Proof.
  intros R G I U.
  assert (N : JsNumber.isNaN (entryTotal e) = true).
  { unfold entryTotal, JsNumber.plus.
    destruct U as [-> | ->]; cbn [JsNumber.toNumber];
      [now rewrite add_NaN_l|now rewrite add_NaN_r]. }
  destruct (stat_of_run _ _ _ _ _ R G) as (e0 & es & E & ->).
  assert (T : totalTime (statOf k e0 es) = Some JsNumber.NaN).
  { unfold statOf. rewrite (totalTime_fold_merge es _ (entryTotal e0))
      by reflexivity.
    f_equal. apply isNaN_eq. apply running_total_NaN.
    rewrite E in I. destruct I as [<-|I]; [now left|right].
    apply Exists_exists. eauto. }
  split; [exact T|]. unfold timingRow. cbn [rowTotalTime rowAverageTime].
  rewrite T. split; [reflexivity|]. simpl. now destruct (count (statOf k e0 es)).
Qed.

Lemma entry_without_times_makes_total_NaN_witness :
  readLines false initialState missingFieldsLog = Normal missingFieldsState
  /\ totalTime missingFieldsStat = Some JsNumber.NaN.
Proof.
  assert (R : readLines false initialState missingFieldsLog
              = Normal missingFieldsState) by (vm_compute; reflexivity).
  split; [exact R|].
  apply (entry_without_times_makes_total_NaN
           false missingFieldsLog missingFieldsState "SELECT b"
           missingFieldsStat (setQuery "SELECT b" freshTiming) R).
  - vm_compute; reflexivity.
  - vm_compute. left. reflexivity.
  - left. reflexivity.
Defined.

(** ** One stat for each key *)









(** X14: the timing report has one row for each stat of the map,
    whatever the comparator says, [NaN] included: the sort only changes
    the order. *)
Theorem every_stat_gets_one_row (m : TimingsMap) :
  Permutation (writeTimingsCSV m) (map timingRow (JsMap.values m))
  /\ List.length (writeTimingsCSV m) = List.length m.
Proof.
  assert (P : Permutation (writeTimingsCSV m) (map timingRow (JsMap.values m))).
  { unfold writeTimingsCSV, timingsSortedByTime. apply Permutation_map.
    apply sort_perm. }
  split; [exact P|]. rewrite (Permutation_length P).
  unfold JsMap.values. now rewrite !length_map.
Qed.

(** ** Stats stay *)

Lemma commit_keeps m e :
  (exists new, JsMap.keys (commit m e) = JsMap.keys m ++ new)
  /\ forall k s, JsMap.get String.eqb k m = Some s ->
                 exists s', JsMap.get String.eqb k (commit m e) = Some s'
                            /\ query s' = query s.
Proof.
  split.
  - unfold commit. destruct (JsString.truthy (query e)).
    + destruct (JsMap.get String.eqb (cleanUpQuery (query e)) m) as [s|] eqn:G.
      * exists []. now rewrite (keys_set_found _ _ _ _ _ G), app_nil_r.
      * eexists. now rewrite (keys_set_missing _ _ _ _ G).
    + exists []. now rewrite app_nil_r.
  - intros k s G. rewrite get_commit.
    destruct (JsString.truthy (query e) && String.eqb (keyOf e) k); eauto.
    rewrite G. eauto.
Qed.

(** X15: reading on never removes a stat and never moves one: the keys
    the map had come first, in the same order, and each still has a stat
    with the same [query]. *)
Theorem stats_are_never_removed
        (cw : bool) (lines : list string) (st st' : State) :
  readLines cw st lines = Normal st' ->
  (exists new, JsMap.keys (queryToTimingsMap st')
               = JsMap.keys (queryToTimingsMap st) ++ new)
  /\ forall k s, JsMap.get String.eqb k (queryToTimingsMap st) = Some s ->
                 exists s', JsMap.get String.eqb k (queryToTimingsMap st')
                            = Some s'
                            /\ query s' = query s.
Proof.
  revert st. induction lines as [|line lines IH]; intros st; cbn [readLines].
  - intros H. inversion H; subst. split; eauto. exists []. now rewrite app_nil_r.
  - destruct (onLine cw st line) as [st1|] eqn:L; cbn [bind]; [|discriminate].
    intros R. destruct (IH _ R) as [[new K] Q].
    assert (S1 : (exists new, JsMap.keys (queryToTimingsMap st1)
                              = JsMap.keys (queryToTimingsMap st) ++ new)
                 /\ forall k s,
                     JsMap.get String.eqb k (queryToTimingsMap st) = Some s ->
                     exists s', JsMap.get String.eqb k (queryToTimingsMap st1)
                                = Some s'
                                /\ query s' = query s).
    { destruct (isBoundary cw line) eqn:B.
      - rewrite (onLine_boundary _ _ _ B) in L. inversion L; subst st1.
        apply commit_keeps.
      - rewrite (onLine_other_map _ _ _ _ B L). split; eauto.
        exists []. now rewrite app_nil_r. }
    destruct S1 as [[new1 K1] Q1]. split.
    + exists (new1 ++ new). now rewrite K, K1, app_assoc.
    + intros k s G. destruct (Q1 k s G) as (s1 & G1 & E1).
      destruct (Q k s1 G1) as (s' & G' & E'). exists s'. split; congruence.
Qed.

Lemma stats_are_never_removed_witness :
  readLines false roundingState outOfOrderLog = Normal laterState
  /\ JsMap.keys (queryToTimingsMap roundingState) = ["SELECT ?"]
  /\ JsMap.keys (queryToTimingsMap laterState)
     = ["SELECT ?"; "SELECT a"; "SELECT b"; "SELECT c"]
  /\ exists new, JsMap.keys (queryToTimingsMap laterState)
                 = JsMap.keys (queryToTimingsMap roundingState) ++ new.
Proof.
  assert (R : readLines false roundingState outOfOrderLog = Normal laterState)
    by (vm_compute; reflexivity).
  split; [exact R|]. split; [reflexivity|]. split; [reflexivity|].
  apply (stats_are_never_removed false outOfOrderLog roundingState laterState R).
Defined.

(** ** Keys in the order of the first commit *)

Lemma get_keys {V} k (m : @JsMap.t string V) :
  existsb (String.eqb k) (JsMap.keys m)
  = match JsMap.get String.eqb k m with Some _ => true | None => false end.
Proof.
  induction m as [|[k' v'] m IH]; simpl; auto.
  destruct (String.eqb k k'); simpl; auto.
Qed.

Lemma keys_commit m e :
  JsMap.keys (commit m e)
  = if JsString.truthy (query e)
    then if existsb (String.eqb (keyOf e)) (JsMap.keys m) then JsMap.keys m
         else JsMap.keys m ++ [keyOf e]
    else JsMap.keys m.
Proof.
  unfold commit, keyOf. destruct (JsString.truthy (query e)); auto.
  rewrite get_keys.
  destruct (JsMap.get String.eqb (cleanUpQuery (query e)) m) as [s|] eqn:G.
  - apply (keys_set_found _ _ _ _ _ G).
  - apply (keys_set_missing _ _ _ _ G).
Qed.

Lemma keys_readLines cw lines : forall st st',
  readLines cw st lines = Normal st' ->
  JsMap.keys (queryToTimingsMap st')
  = fold_left (fun seen k => if existsb (String.eqb k) seen then seen
                             else seen ++ [k])
              (map keyOf (committed cw st lines))
              (JsMap.keys (queryToTimingsMap st)).
Proof.
  induction lines as [|line lines IH]; intros st st'; cbn [readLines committed].
  - intros H. now inversion H.
  - destruct (onLine cw st line) as [st1|] eqn:L; cbn [bind]; [|discriminate].
    intros R. rewrite map_app, fold_left_app, (IH _ _ R). f_equal.
    destruct (isBoundary cw line) eqn:B; cbn [andb].
    + rewrite (onLine_boundary _ _ _ B) in L. inversion L; subst st1.
      cbn [queryToTimingsMap]. rewrite keys_commit.
      now destruct (JsString.truthy (query (currentTiming st))).
    + now rewrite (onLine_other_map _ _ _ _ B L).
Qed.

(** X16: the map has a stat under a text exactly when an entry with that
    normalized text was committed, and its keys are the normalized texts
    of the committed entries in the order in which each was first
    committed. *)
Theorem stats_are_the_committed_texts
        (cw : bool) (lines : list string) (st : State) :
  readLines cw initialState lines = Normal st ->
  (forall k,
      JsMap.has String.eqb k (queryToTimingsMap st) = true
      <-> exists e, In e (committed cw initialState lines) /\ keyOf e = k)
  /\ JsMap.keys (queryToTimingsMap st)
     = firstSeen (map keyOf (committed cw initialState lines)).
Proof.
  intros R. split.
  - intros k. unfold JsMap.has.
    rewrite (get_readLines _ _ _ _ k R). cbn [queryToTimingsMap initialState].
    cbn [JsMap.get]. rewrite fold_absorb_none.
    destruct (entriesFor k (committed cw initialState lines)) as [|e0 es] eqn:E.
    + split; [discriminate|]. intros (e & I & K).
      assert (I' : In e (entriesFor k (committed cw initialState lines))).
      { apply filter_In. split; auto. subst k. apply String.eqb_refl. }
      rewrite E in I'. destruct I'.
    + split; auto. intros _. exists e0.
      assert (I : In e0 (entriesFor k (committed cw initialState lines)))
        by (rewrite E; now left).
      apply filter_In in I. destruct I as [I K].
      apply String.eqb_eq in K. auto.
  - apply (keys_readLines _ _ _ _ R).
Qed.

Lemma stats_are_the_committed_texts_witness :
  readLines false initialState twoTimestampsLog = Normal twoTimestampsState
  /\ map keyOf (committed false initialState twoTimestampsLog)
     = ["SELECT ?"; "SELECT ?"]
  /\ JsMap.keys (queryToTimingsMap twoTimestampsState) = ["SELECT ?"].
Proof.
  assert (R : readLines false initialState twoTimestampsLog
              = Normal twoTimestampsState) by (vm_compute; reflexivity).
  split; [exact R|]. split; [vm_compute; reflexivity|].
  destruct (stats_are_the_committed_texts
              false twoTimestampsLog twoTimestampsState R) as [_ K].
  rewrite K. vm_compute; reflexivity.
Defined.

(** ** Signs *)

Lemma binary_round_signBit sx m e :
  signBit (binary_round JsNumber.prec JsNumber.emax sx m e) = sx.
Proof.
  pose proof (binary_round_spec sx m e) as R.
  destruct (binary_round JsNumber.prec JsNumber.emax sx m e); simpl;
    tauto.
Qed.

Lemma binary_normalize_signBit z e :
  (0 <= z)%Z ->
  signBit (binary_normalize JsNumber.prec JsNumber.emax z e false) = false.
Proof.
  destruct z as [|m|m]; simpl binary_normalize; intros H.
  - reflexivity.
  - apply binary_round_signBit.
  - lia.
Qed.

Lemma add_signBit x y :
  signBit x = false -> signBit y = false -> signBit (JsNumber.add x y) = false.
Proof.
  unfold JsNumber.add.
  destruct x as [sx|sx| |sx mx ex], y as [sy|sy| |sy my ey]; simpl;
    intros Hx Hy; subst; auto.
  apply binary_normalize_signBit. simpl. lia.
Qed.

Lemma plus_signBit a b :
  unsignedValue a -> unsignedValue b -> signBit (JsNumber.plus a b) = false.
Proof.
  intros A B. apply add_signBit; [destruct a|destruct b]; auto.
Qed.

Lemma div_signBit x y :
  signBit x = false -> signBit y = false -> signBit (JsNumber.div x y) = false.
Proof.
  unfold JsNumber.div.
  destruct x as [sx|sx| |sx mx ex], y as [sy|sy| |sy my ey]; simpl;
    intros Hx Hy; subst; auto.
  unfold SFdiv_core_binary.
  set (e' := Z.min _ _).
  set (m' := match (ex - ey - e')%Z with Z0 => _ | Zpos _ => _ | Zneg _ => _ end).
  assert (M : (0 <= m')%Z).
  { unfold m'. destruct (ex - ey - e')%Z; try lia. apply Z.shiftl_nonneg. lia. }
  pose proof (Z.div_pos m' (Zpos my) M ltac:(lia)) as Q.
  unfold Z.div in Q. destruct (Z.div_eucl m' (Zpos my)) as [q r]. simpl in Q.
  pose proof (binary_round_aux_spec false q e' (new_location (Zpos my) r) Q)
    as R.
  simpl xorb.
  destruct (binary_round_aux JsNumber.prec JsNumber.emax false q e'
              (new_location (Zpos my) r)); simpl; tauto.
Qed.

Lemma ofDecimal_signBit m e : signBit (JsNumber.ofDecimal false m e) = false.
Proof.
  unfold JsNumber.ofDecimal. destruct m as [|p|p]; try reflexivity.
  destruct (0 <=? e)%Z eqn:E.
  - apply binary_normalize_signBit. unfold cond_Zopp.
    apply Z.leb_le in E. apply Z.mul_nonneg_nonneg; [lia|].
    apply Z.pow_nonneg. lia.
  - now apply div_signBit.
Qed.

Lemma time_char_facts c :
  orClass digit (isChar "."%char) c = true ->
  JsNumber.isWhiteSpace c = false
  /\ forall s, JsNumber.takeSign (String c s) = (false, String c s).
Proof.
  destruct c as [[] [] [] [] [] [] [] []]; vm_compute; intros H;
    try discriminate H; split; reflexivity.
Qed.

Lemma parseFloat_signBit g :
  startsIn (orClass digit (isChar "."%char)) g ->
  signBit (JsNumber.parseFloat g) = false.
Proof.
  destruct g as [|c g]; [contradiction|]. intros H.
  destruct (time_char_facts c H) as [W S].
  unfold JsNumber.parseFloat. cbn [JsNumber.skipWhiteSpace]. rewrite W, S.
  destruct (String.prefix "Infinity" (String c g)); [reflexivity|].
  destruct (JsNumber.takeDigits 10 (String c g) 0 0) as [[i ni] s1].
  destruct (match s1 with
            | String "."%char s1' => JsNumber.takeDigits 10 s1' i 0
            | _ => (i, O, s1)
            end) as [[m nf] s2].
  destruct (ni + nf)%nat; [reflexivity|]. apply ofDecimal_signBit.
Qed.

Lemma parseInt_signBit g :
  startsIn digit g -> signBit (JsNumber.parseInt g) = false.
Proof.
  destruct g as [|c g]; [contradiction|]. intros H.
  destruct (digit_facts c H) as (W & S & _).
  unfold JsNumber.parseInt. cbn [JsNumber.skipWhiteSpace]. rewrite W, S.
  destruct (if (String.prefix "0x" (String c g)
                || String.prefix "0X" (String c g))%bool
            then (16%Z, JsString.drop 2 (String c g))
            else (10%Z, String c g)) as [radix s1].
  destruct (JsNumber.takeDigits radix s1 0 0) as [[v n] s2].
  destruct n; [reflexivity|]. apply ofDecimal_signBit.
Qed.

(** Every capture group holds text that starts in its class. *)
Lemma matchHere_capture_starts r : forall s caps rest,
  matchHere r s = Some (caps, rest) ->
  Forall2 startsIn (captureClasses r) caps.
Proof.
  induction r as [|it r IH]; intros s caps rest.
  - simpl. intros H. inversion H. constructor.
  - destruct it as [l|p|p|p|p]; cbn [captureClasses].
    + rewrite matchHere_lit. destruct (String.prefix l s); [|discriminate].
      apply IH.
    + rewrite matchHere_star.
      destruct (greedy p (matchHere r) s) as [[n x]|] eqn:G; [|discriminate].
      simpl. intros H. inversion H; subst x.
      destruct (greedy_continues _ _ _ _ _ G) as [s' K]. eauto.
    + rewrite matchHere_plus. destruct s as [|c s]; [discriminate|].
      destruct (p c); [|discriminate].
      destruct (greedy p (matchHere r) s) as [[n x]|] eqn:G; [|discriminate].
      simpl. intros H. inversion H; subst x.
      destruct (greedy_continues _ _ _ _ _ G) as [s' K]. eauto.
    + rewrite matchHere_opt. destruct s as [|c s]; [apply IH|].
      destruct (p c); [|apply IH].
      destruct (matchHere r s) as [x|] eqn:E; [|apply IH].
      intros H. inversion H; subst x. eauto.
    + cbn [matchHere]. destruct s as [|c s]; [discriminate|].
      destruct (p c) eqn:Pc; [|discriminate].
      destruct (greedy p (matchHere r) s) as [[n [caps' rest']]|] eqn:G;
        [|discriminate].
      intros H. inversion H; subst.
      destruct (greedy_continues _ _ _ _ _ G) as [s' K].
      constructor; [exact Pc|eauto].
Qed.

Lemma jsMatch_capture_starts r : forall s caps,
  jsMatch r s = Some caps -> Forall2 startsIn (captureClasses r) caps.
Proof.
  induction s as [|c s IH]; intros caps; cbn [jsMatch].
  - destruct (matchHere r "") as [[caps' rest]|] eqn:M; [|discriminate].
    intros H. inversion H; subst. eauto using matchHere_capture_starts.
  - destruct (matchHere r (String c s)) as [[caps' rest]|] eqn:M; [|apply IH].
    intros H. inversion H; subst. eauto using matchHere_capture_starts.
Qed.

Lemma mergeTiming_unsigned s e :
  unsignedTiming s -> unsignedTiming e -> unsignedTiming (mergeTiming s e).
Proof.
  intros (C & Q & L & T & U) (C' & Q' & L' & T' & U').
  unfold unsignedTiming, mergeTiming. simpl.
  repeat split; auto using plus_signBit.
  - apply add_signBit; auto.
  - apply plus_signBit; auto. simpl. now apply plus_signBit.
Qed.

Lemma newTiming_unsigned k e : unsignedTiming e -> unsignedTiming (newTiming k e).
Proof.
  intros (C & Q & L & T & U). unfold unsignedTiming, newTiming. simpl.
  repeat split; auto using plus_signBit.
Qed.

Lemma commit_unsigned m e :
  Forall unsignedTiming (JsMap.values m) -> unsignedTiming e ->
  Forall unsignedTiming (JsMap.values (commit m e)).
Proof.
  intros F G. unfold commit. destruct (JsString.truthy (query e)); auto.
  destruct (JsMap.get String.eqb (cleanUpQuery (query e)) m) as [s|] eqn:E.
  - apply set_values_Forall; auto. apply mergeTiming_unsigned; auto.
    apply get_In in E. rewrite Forall_forall in F. auto.
  - apply set_values_Forall; auto. now apply newTiming_unsigned.
Qed.

Lemma freshTiming_unsigned : unsignedTiming freshTiming.
Proof. repeat split. Qed.

Lemma onLine_unsigned cw st line st' :
  onLine cw st line = Normal st' -> unsignedState st -> unsignedState st'.
Proof.
  intros L [Gc Gm]. revert L. unfold onLine.
  destruct (isBoundary cw line).
  { intros H. inversion H; subst. split; simpl.
    - apply freshTiming_unsigned.
    - now apply commit_unsigned. }
  destruct Gc as (C & Q & Lk & T & U).
  destruct (JsString.startsWith line "# Query_time").
  { destruct (jsMatch queryTimeRegex line) as [caps|] eqn:M; simpl;
      [|discriminate].
    intros H. inversion H; subst. split; auto.
    apply jsMatch_capture_starts in M. cbn [captureClasses queryTimeRegex] in M.
    inversion M as [|? g1 ? caps1 S1 M1]; subst.
    inversion M1 as [|? g2 ? caps2 S2 M2]; subst.
    unfold unsignedTiming; simpl.
    repeat split; auto using parseFloat_signBit. }
  destruct (JsString.startsWith line "SET timestamp=").
  { destruct (jsMatch timestampRegex line) as [caps|] eqn:M; simpl;
      [|discriminate].
    intros H. inversion H; subst. split; auto.
    apply jsMatch_capture_starts in M. cbn [captureClasses timestampRegex] in M.
    inversion M as [|? g1 ? caps1 S1 M1]; subst.
    unfold unsignedTiming; simpl.
    repeat split; auto using parseInt_signBit. }
  destruct (JsString.startsWith line "# Thread_id:").
  { destruct (jsMatch threadIdRegex line); simpl; [|discriminate].
    intros H. inversion H; subst. split; auto.
    unfold unsignedTiming; simpl. repeat split; auto. }
  destruct (JsString.startsWith line "# User@Host").
  { destruct (jsMatch userHostRegex line); simpl; [|discriminate].
    intros H. inversion H; subst. split; auto.
    unfold unsignedTiming; simpl. repeat split; auto. }
  destruct (isIgnored line).
  { intros H. inversion H; subst. split; auto.
    unfold unsignedTiming. repeat split; auto. }
  intros H. inversion H; subst. split; auto.
  unfold unsignedTiming; simpl. repeat split; auto.
Qed.

Lemma readLines_unsigned cw lines : forall st st',
  readLines cw st lines = Normal st' -> unsignedState st -> unsignedState st'.
Proof.
  induction lines as [|line rest IH]; intros st st'; simpl.
  - intros H. now inversion H.
  - destruct (onLine cw st line) as [st1|] eqn:L; simpl; [|discriminate].
    intros H G. eapply IH; eauto using onLine_unsigned.
Qed.

(** X17: the patterns take no sign, and sums and quotients of unsigned
    numbers are unsigned: no total, query time, lock time, average, count
    or timestamp of a run is negative or [-0]. *)
Theorem no_number_of_a_report_is_negative
        (cw : bool) (lines : list string) (st : State) (s : Timing) :
  readLines cw initialState lines = Normal st ->
  In s (JsMap.values (queryToTimingsMap st)) ->
  unsignedValue (rowTotalTime (timingRow s))
  /\ unsignedValue (rowQueryTime (timingRow s))
  /\ unsignedValue (rowLockTime (timingRow s))
  /\ signBit (rowAverageTime (timingRow s)) = false
  /\ signBit (rowCount (timingRow s)) = false
  /\ unsignedValue (unixTimestamp s).
Proof.
  intros R I.
  assert (G : unsignedState st).
  { apply (readLines_unsigned _ _ _ _ R). split; [|constructor].
    apply freshTiming_unsigned. }
  destruct G as [_ G]. rewrite Forall_forall in G.
  destruct (G s I) as (C & Q & L & T & U).
  unfold timingRow. cbn [rowTotalTime rowQueryTime rowLockTime rowAverageTime
                           rowCount].
  repeat split; auto. apply div_signBit; auto.
  destruct (totalTime s); auto.
Qed.

Lemma no_number_of_a_report_is_negative_witness :
  readLines false initialState outOfOrderLog = Normal outOfOrderState
  /\ In outOfOrderStat (JsMap.values (queryToTimingsMap outOfOrderState))
  /\ signBit (rowAverageTime (timingRow outOfOrderStat)) = false.
Proof.
  assert (R : readLines false initialState outOfOrderLog
              = Normal outOfOrderState) by (vm_compute; reflexivity).
  assert (I : In outOfOrderStat
                (JsMap.values (queryToTimingsMap outOfOrderState)))
    by (right; left; reflexivity).
  split; [exact R|]. split; [exact I|].
  apply (no_number_of_a_report_is_negative
           false outOfOrderLog outOfOrderState outOfOrderStat R I).
Defined.

(** ** The buckets of the connections report *)

Lemma strictEquals_true x y :
  JsNumber.strictEquals x y = true ->
  JsNumber.isNaN x = false /\ JsNumber.isNaN y = false
  /\ cls x = cls y /\ JsNumber.scaled x = JsNumber.scaled y.
Proof.
  unfold JsNumber.strictEquals.
  destruct (JsNumber.isNaN x) eqn:Nx;
    [destruct x, y; try discriminate; reflexivity|].
  destruct (JsNumber.isNaN y) eqn:Ny;
    [destruct x as [|[]| |], y; try discriminate; reflexivity|].
  rewrite compare_lex by auto.
  destruct (Z.compare_spec (cls x) (cls y)); try discriminate.
  destruct (Z.compare_spec (JsNumber.scaled x) (JsNumber.scaled y));
    try discriminate.
  auto.
Qed.

Lemma strictEquals_congruent x y z :
  JsNumber.strictEquals x y = true ->
  JsNumber.strictEquals x z = JsNumber.strictEquals y z.
Proof.
  intros H. destruct (strictEquals_true x y H) as (Nx & Ny & C & S).
  unfold JsNumber.strictEquals.
  destruct (JsNumber.isNaN z) eqn:Nz.
  - destruct z; try discriminate. now destruct x, y.
  - rewrite !compare_lex by auto. now rewrite C, S.
Qed.

Lemma sameValueZero_congruent a b c :
  JsNumber.sameValueZero a b = true ->
  JsNumber.sameValueZero a c = JsNumber.sameValueZero b c.
Proof.
  destruct a as [x|], b as [y|], c as [z|]; simpl; try discriminate; auto.
  intros H. apply orb_prop in H. destruct H as [H|H].
  - destruct (strictEquals_true x y H) as (Nx & Ny & _).
    now rewrite Nx, Ny, (strictEquals_congruent x y z H).
  - apply andb_prop in H. destruct H as [Nx Ny].
    rewrite Nx, Ny. destruct x, y; try discriminate. reflexivity.
Qed.

Section MapEquivalence.
Context {K V : Type} (keyEq : K -> K -> bool).
Hypothesis keyEq_sym : forall a b, keyEq a b = keyEq b a.
Hypothesis keyEq_congruent :
  forall a b c, keyEq a b = true -> keyEq a c = keyEq b c.

(** Insert, then look up. *)
Lemma get_set_equivalent k v (m : @JsMap.t K V) a :
  JsMap.get keyEq a (JsMap.set keyEq k v m)
  = if keyEq k a then Some v else JsMap.get keyEq a m.
Proof.
  induction m as [|[k' v'] m IH]; simpl.
  - now rewrite (keyEq_sym a k).
  - destruct (keyEq k k') eqn:E; simpl.
    + rewrite (keyEq_congruent _ _ a E), (keyEq_sym k' a).
      now destruct (keyEq a k').
    + rewrite IH. destruct (keyEq a k') eqn:A; auto.
      rewrite (keyEq_sym k a), (keyEq_congruent _ _ k A), (keyEq_sym k' k).
      now rewrite E.
Qed.

Lemma get_key (m : @JsMap.t K V) k :
  (forall a, keyEq a a = true) ->
  In k (JsMap.keys m) -> JsMap.get keyEq k m <> None.
Proof.
  intros R. induction m as [|[k' v'] m IH]; simpl; [contradiction|].
  intros [->|H].
  - now rewrite R.
  - destruct (keyEq k k'); [discriminate|auto].
Qed.

Lemma get_some_key (m : @JsMap.t K V) k v :
  JsMap.get keyEq k m = Some v ->
  exists k', In k' (JsMap.keys m) /\ keyEq k k' = true.
Proof.
  induction m as [|[k' v'] m IH]; simpl; [discriminate|].
  destruct (keyEq k k') eqn:E.
  - intros _. exists k'. auto.
  - intros H. destruct (IH H) as (a & Ha & Ea). exists a. auto.
Qed.
End MapEquivalence.

Lemma stampedAs_congruent a b t :
  JsNumber.sameValueZero a b = true -> stampedAs a t = stampedAs b t.
Proof.
  intros H. unfold stampedAs.
  rewrite (sameValueZero_sym _ a), (sameValueZero_sym _ b).
  now apply sameValueZero_congruent.
Qed.

Lemma queriesOf_snoc l v :
  Some (match queriesOf l with
        | Some queries => (queries ++ [query v])%list
        | None => [query v]
        end)
  = queriesOf (l ++ [v]).
Proof.
  destruct l as [|x l]; simpl; auto. now rewrite map_app.
Qed.

(** What the grouping loop keeps under each key. *)
Lemma groupByTimestamp_get values : forall seen tm,
  (forall k, JsMap.get JsNumber.sameValueZero k tm
             = queriesOf (filter (stampedAs k) seen)) ->
  forall k, JsMap.get JsNumber.sameValueZero k (groupByTimestamp values tm)
            = queriesOf (filter (stampedAs k) (seen ++ values)).
Proof.
  induction values as [|v values IH]; intros seen tm H k.
  - simpl. now rewrite app_nil_r.
  - cbn [groupByTimestamp].
    replace (seen ++ v :: values) with ((seen ++ [v]) ++ values)
      by (now rewrite <- app_assoc).
    apply IH. clear k. intros k.
    rewrite filter_app. cbn [filter].
    assert (G : JsMap.get JsNumber.sameValueZero k
                  (JsMap.set JsNumber.sameValueZero (unixTimestamp v)
                     (match queriesOf (filter (stampedAs (unixTimestamp v)) seen) with
                      | Some queries => (queries ++ [query v])%list
                      | None => [query v]
                      end) tm)
                = queriesOf (filter (stampedAs k) seen
                             ++ (if stampedAs k v then [v] else []))).
    { rewrite get_set_equivalent
        by (auto using sameValueZero_sym, sameValueZero_congruent).
      unfold stampedAs at 3.
      destruct (JsNumber.sameValueZero (unixTimestamp v) k) eqn:E.
      - rewrite queriesOf_snoc. f_equal. f_equal. apply filter_ext.
        intros t. now apply stampedAs_congruent.
      - now rewrite app_nil_r. }
    rewrite <- G, (H (unixTimestamp v)).
    now destruct (queriesOf (filter (stampedAs (unixTimestamp v)) seen)).
Qed.

Lemma list_sum_plus {A} (f g : A -> nat) l :
  list_sum (map (fun x => f x + g x)%nat l)
  = (list_sum (map f l) + list_sum (map g l))%nat.
Proof. induction l as [|x l IH]; simpl; auto. rewrite IH. lia. Qed.

Lemma list_sum_cons x l : list_sum (x :: l) = (x + list_sum l)%nat.
Proof. reflexivity. Qed.

Lemma no_key_matches (x : JsNumber.value) ks :
  (forall k, In k ks -> JsNumber.sameValueZero x k = false) ->
  list_sum (map (fun k => if JsNumber.sameValueZero x k then 1 else 0)%nat ks)
  = O.
Proof.
  induction ks as [|k ks IH]; intros H; simpl; auto.
  rewrite (H k) by now left. apply IH. intros a Ha. apply H. now right.
Qed.

Lemma one_key_matches (x : JsNumber.value) ks :
  distinctKeys ks ->
  (exists k, In k ks /\ JsNumber.sameValueZero x k = true) ->
  list_sum (map (fun k => if JsNumber.sameValueZero x k then 1 else 0)%nat ks)
  = 1%nat.
Proof.
  induction ks as [|k0 ks IH]; intros [N D] (k & Hk & E).
  - destruct Hk.
  - inversion N as [|? ? N0 N']; subst. rewrite map_cons, list_sum_cons.
    destruct (JsNumber.sameValueZero x k0) eqn:E0.
    + rewrite no_key_matches; [reflexivity|].
      intros k1 H1. destruct (JsNumber.sameValueZero x k1) eqn:E1; auto.
      exfalso. apply N0. replace k0 with k1; auto.
      symmetry. apply D; simpl; auto.
      now rewrite <- (sameValueZero_congruent x k0 k1 E0).
    + simpl. apply IH.
      * split; auto. intros a b Ha Hb. apply D; now right.
      * destruct Hk as [<-|Hk]; [congruence|eauto].
Qed.

Lemma filters_cover ks : forall stats,
  distinctKeys ks ->
  (forall t, In t stats ->
             exists k, In k ks /\ JsNumber.sameValueZero (unixTimestamp t) k = true) ->
  list_sum (map (fun k => List.length (filter (stampedAs k) stats)) ks)
  = List.length stats.
Proof.
  induction stats as [|v stats IH]; intros D C.
  - clear D C. simpl. induction ks; simpl; auto.
  - cbn [filter List.length].
    rewrite (map_ext _ (fun k => ((if JsNumber.sameValueZero (unixTimestamp v) k
                                   then 1 else 0)
                                  + List.length (filter (stampedAs k) stats))%nat)).
    + rewrite list_sum_plus, IH; auto.
      * rewrite one_key_matches; auto. apply C. now left.
      * intros t Ht. apply C. now right.
    + intros k. unfold stampedAs at 1.
      now destruct (JsNumber.sameValueZero (unixTimestamp v) k).
Qed.

Lemma list_sum_Permutation l l' :
  Permutation l l' -> list_sum l = list_sum l'.
Proof. induction 1; simpl; lia. Qed.

Lemma distinctKeys_Permutation ks ks' :
  Permutation ks ks' -> distinctKeys ks -> distinctKeys ks'.
Proof.
  intros P [N D]. split.
  - eapply Permutation_NoDup; eauto.
  - intros a b Ha Hb. apply D; eapply Permutation_in; try eassumption;
      now symmetry.
Qed.

Lemma stampedAs_own t : stampedAs (unixTimestamp t) t = true.
Proof. apply sameValueZero_refl. Qed.

Lemma queriesOf_some l q :
  queriesOf l = Some q -> q = map query l /\ (1 <= List.length q)%nat.
Proof.
  destruct l as [|x l]; simpl; [discriminate|].
  intros H. inversion H. split; auto. simpl. lia.
Qed.

Lemma concat_map_app {A B} (f g : A -> list B) l :
  Permutation (List.concat (map (fun x => f x ++ g x) l))
              (List.concat (map f l) ++ List.concat (map g l)).
Proof.
  induction l as [|x l IH]; simpl; auto.
  rewrite <- !app_assoc. apply Permutation_app_head.
  rewrite IH. rewrite !app_assoc. apply Permutation_app_tail.
  apply Permutation_app_comm.
Qed.

Lemma no_key_takes (x : JsNumber.value) (v : Timing) ks :
  (forall k, In k ks -> JsNumber.sameValueZero x k = false) ->
  List.concat (map (fun k => if JsNumber.sameValueZero x k then [v] else []) ks)
  = [].
Proof.
  induction ks as [|k ks IH]; intros H; simpl; auto.
  rewrite (H k) by now left. apply IH. intros a Ha. apply H. now right.
Qed.

Lemma one_key_takes (x : JsNumber.value) (v : Timing) ks :
  distinctKeys ks ->
  (exists k, In k ks /\ JsNumber.sameValueZero x k = true) ->
  List.concat (map (fun k => if JsNumber.sameValueZero x k then [v] else []) ks)
  = [v].
Proof.
  induction ks as [|k0 ks IH]; intros [N D] (k & Hk & E).
  - destruct Hk.
  - inversion N as [|? ? N0 N']; subst. cbn [map List.concat].
    destruct (JsNumber.sameValueZero x k0) eqn:E0.
    + rewrite no_key_takes; [reflexivity|].
      intros k1 H1. destruct (JsNumber.sameValueZero x k1) eqn:E1; auto.
      exfalso. apply N0. replace k0 with k1; auto.
      symmetry. apply D; simpl; auto.
      now rewrite <- (sameValueZero_congruent x k0 k1 E0).
    + simpl. apply IH.
      * split; auto. intros a b Ha Hb. apply D; now right.
      * destruct Hk as [<-|Hk]; [congruence|eauto].
Qed.

Lemma filters_partition ks : forall stats,
  distinctKeys ks ->
  (forall t, In t stats ->
             exists k, In k ks /\ JsNumber.sameValueZero (unixTimestamp t) k = true) ->
  Permutation (List.concat (map (fun k => filter (stampedAs k) stats) ks)) stats.
Proof.
  induction stats as [|v stats IH]; intros D C.
  - clear D C. simpl. induction ks; simpl; auto.
  - cbn [filter].
    rewrite (map_ext _ (fun k => (if JsNumber.sameValueZero (unixTimestamp v) k
                                  then [v] else [])
                                 ++ filter (stampedAs k) stats)).
    + rewrite concat_map_app, one_key_takes; auto.
      * simpl. constructor. apply IH; auto. intros t Ht. apply C. now right.
      * apply C. now left.
    + intros k. unfold stampedAs at 1.
      now destruct (JsNumber.sameValueZero (unixTimestamp v) k).
Qed.

Lemma Permutation_concat {A} {l l' : list (list A)} :
  Permutation l l' -> Permutation (List.concat l) (List.concat l').
Proof.
  induction 1; simpl; auto.
  - now apply Permutation_app_head.
  - rewrite !app_assoc. apply Permutation_app_tail, Permutation_app_comm.
  - etransitivity; eauto.
Qed.

(** X18: the buckets of the connections report split the stats by
    timestamp: a bucket holds the queries of all the stats with its
    timestamp, in insertion order, and counts them; no bucket is empty,
    no two buckets have the same timestamp, and every stat is in one
    bucket, so the counts add up to the number of stats. *)
Theorem buckets_partition_the_stats (m : TimingsMap) :
  let stats := JsMap.values m in
  let buckets := connectionsSortedByTime m in
  (forall c, In c buckets ->
             connQueries c
             = map query (filter (stampedAs (connUnixTimestamp c)) stats)
             /\ connCount c = List.length (connQueries c)
             /\ (1 <= connCount c)%nat)
  /\ (forall t, In t stats ->
                exists c, In c buckets
                          /\ stampedAs (connUnixTimestamp c) t = true)
  /\ distinctKeys (map connUnixTimestamp buckets)
  /\ Permutation (List.concat (map connQueries buckets)) (map query stats)
  /\ list_sum (map connCount buckets) = List.length stats.
Proof.
  intros stats buckets. unfold buckets, connectionsSortedByTime. fold stats.
  set (tm := groupByTimestamp stats []).
  set (f := fun timestamp =>
              let queries :=
                match JsMap.get JsNumber.sameValueZero timestamp tm with
                | Some q => q
                | None => []
                end in
              mkConnections timestamp (List.length queries) queries).
  assert (G : forall k, JsMap.get JsNumber.sameValueZero k tm
                        = queriesOf (filter (stampedAs k) stats)).
  { intros k. apply (groupByTimestamp_get stats [] []). reflexivity. }
  assert (DK : distinctKeys (JsMap.keys tm)).
  { apply groupByTimestamp_keys. split; [constructor|intros ? ? []]. }
  pose proof (sort_perm byTimestampAscending (map f (JsMap.keys tm))) as P.
  assert (F : forall k, In k (JsMap.keys tm) ->
                        connUnixTimestamp (f k) = k
                        /\ connQueries (f k)
                           = map query (filter (stampedAs k) stats)
                        /\ connCount (f k)
                           = List.length (filter (stampedAs k) stats)
                        /\ (1 <= connCount (f k))%nat).
  { intros k Hk. unfold f. cbn [connUnixTimestamp connQueries connCount].
    pose proof (get_key JsNumber.sameValueZero tm k sameValueZero_refl Hk) as N.
    rewrite G in *.
    destruct (queriesOf (filter (stampedAs k) stats)) as [q|] eqn:Q;
      [|congruence].
    apply queriesOf_some in Q. destruct Q as [-> L].
    rewrite length_map in *. auto. }
  assert (C : forall t, In t stats ->
                        exists k, In k (JsMap.keys tm)
                                  /\ JsNumber.sameValueZero (unixTimestamp t) k
                                     = true).
  { intros t Ht.
    destruct (JsMap.get JsNumber.sameValueZero (unixTimestamp t) tm)
      as [q|] eqn:E.
    - eapply get_some_key; eauto.
    - rewrite G in E.
      assert (I : In t (filter (stampedAs (unixTimestamp t)) stats))
        by (apply filter_In; auto using stampedAs_own).
      destruct (filter (stampedAs (unixTimestamp t)) stats);
        [destruct I|discriminate E]. }
  split; [|split; [|split; [|split]]].
  - intros c Hc. apply (Permutation_in _ P) in Hc.
    apply in_map_iff in Hc. destruct Hc as (k & <- & Hk).
    destruct (F k Hk) as (T & Q & N & L). rewrite T, Q.
    rewrite length_map. auto.
  - intros t Ht. destruct (C t Ht) as (k & Hk & E).
    exists (f k). split.
    + apply (Permutation_in (l := map f (JsMap.keys tm))); [now symmetry|].
      now apply in_map.
    + destruct (F k Hk) as (-> & _). exact E.
  - apply (distinctKeys_Permutation (JsMap.keys tm)); [|exact DK].
    replace (JsMap.keys tm)
      with (map connUnixTimestamp (map f (JsMap.keys tm))) at 1.
    + apply Permutation_map. now symmetry.
    + rewrite map_map. apply map_id.
  - rewrite (Permutation_concat (Permutation_map connQueries P)).
    rewrite map_map.
    rewrite (map_ext_in _ (fun k => map query (filter (stampedAs k) stats))).
    + rewrite <- map_map, <- concat_map. apply Permutation_map.
      now apply filters_partition.
    + intros k Hk. now destruct (F k Hk) as (_ & -> & _).
  - rewrite (list_sum_Permutation _ _ (Permutation_map connCount P)).
    rewrite map_map.
    rewrite (map_ext_in _ (fun k => List.length (filter (stampedAs k) stats))).
    + now apply filters_cover.
    + intros k Hk. now destruct (F k Hk) as (_ & _ & -> & _).
Qed.

(** ** The query cells *)

Lemma doubleQuotes_chars P s :
  allChars P s = true -> allChars P (doubleQuotes s) = true.
Proof.
  induction s as [|c s IH]; simpl; auto. intros H.
  apply andb_prop in H. destruct H as [Hc Hs].
  destruct (Ascii.eqb c "034"); simpl; rewrite Hc, IH; auto.
Qed.

Lemma cleanStringForCSV_digitFree s :
  digitFree s = true -> digitFree (cleanStringForCSV s) = true.
Proof.
  unfold digitFree. intros H. rewrite cleanStringForCSV_cases.
  pose proof (doubleQuotes_chars _ _ H) as D.
  destruct (MAX_CELL_STRING_LENGTH <? escapedLength s)%Z; auto.
  rewrite allChars_app, allChars_substring; auto.
Qed.

Lemma concat_digitFree sep l :
  digitFree sep = true -> Forall (fun q => digitFree q = true) l ->
  digitFree (String.concat sep l) = true.
Proof.
  unfold digitFree. intros S F. induction F as [|q l Hq F IH]; [reflexivity|].
  cbn [String.concat]. destruct l as [|q' l]; auto.
  now rewrite !allChars_app, Hq, S, IH.
Qed.

Lemma commit_digitFree m e :
  Forall (fun s => digitFree (query s) = true) (JsMap.values m) ->
  Forall (fun s => digitFree (query s) = true) (JsMap.values (commit m e)).
Proof.
  intros F. unfold commit. destruct (JsString.truthy (query e)); auto.
  destruct (JsMap.get String.eqb (cleanUpQuery (query e)) m) as [s|] eqn:G.
  - apply set_values_Forall; auto. apply get_In in G.
    rewrite Forall_forall in F. apply (F s G).
  - apply set_values_Forall; auto. cbn [newTiming setQuery query].
    rewrite cleanUpQuery_unfold.
    pose proof (substituteLiterals_digitFree (query e)) as D.
    destruct (JsString.endsWith (substituteLiterals (query e)) doubleQuote);
      auto.
    unfold JsString.substring. now apply allChars_substring.
Qed.

Lemma readLines_digitFree cw lines : forall st st',
  readLines cw st lines = Normal st' ->
  Forall (fun s => digitFree (query s) = true)
         (JsMap.values (queryToTimingsMap st)) ->
  Forall (fun s => digitFree (query s) = true)
         (JsMap.values (queryToTimingsMap st')).
Proof.
  induction lines as [|line lines IH]; intros st st'; cbn [readLines].
  - intros H. now inversion H.
  - destruct (onLine cw st line) as [st1|] eqn:L; cbn [bind]; [|discriminate].
    intros R F. apply (IH _ _ R).
    destruct (isBoundary cw line) eqn:B.
    + rewrite (onLine_boundary _ _ _ B) in L. inversion L; subst st1.
      cbn [queryToTimingsMap]. now apply commit_digitFree.
    + now rewrite (onLine_other_map _ _ _ _ B L).
Qed.

(** X19: no digit reaches the query column of either report: the
    normalized texts have none, and neither the doubling of quotes, nor
    the cut, nor the line feeds between the queries of a bucket add
    one. *)
Theorem query_cells_hold_no_digit
        (cw : bool) (lines : list string) (st : State) :
  readLines cw initialState lines = Normal st ->
  Forall (fun row => digitFree (rowQuery row) = true)
         (writeTimingsCSV (queryToTimingsMap st))
  /\ Forall (fun row => digitFree (rowQueries row) = true)
            (writeConnectionsCSV (queryToTimingsMap st)).
Proof.
  intros R.
  assert (F : Forall (fun s => digitFree (query s) = true)
                     (JsMap.values (queryToTimingsMap st))).
  { apply (readLines_digitFree _ _ _ _ R). constructor. }
  rewrite Forall_forall in F. split; apply Forall_forall; intros row I.
  - unfold writeTimingsCSV in I. apply in_map_iff in I.
    destruct I as (s & <- & I). cbn [timingRow rowQuery].
    apply cleanStringForCSV_digitFree, F.
    apply (Permutation_in _ (sort_perm _ _)) in I. exact I.
  - unfold writeConnectionsCSV in I. apply in_map_iff in I.
    destruct I as (c & <- & I). cbn [rowQueries].
    apply cleanStringForCSV_digitFree, concat_digitFree; [reflexivity|].
    unfold connectionsSortedByTime in I.
    apply (Permutation_in _ (sort_perm _ _)) in I.
    apply in_map_iff in I. destruct I as (k & <- & _). cbn [connQueries].
    rewrite (groupByTimestamp_get _ [] [] (fun _ => eq_refl)).
    cbn [app]. apply Forall_forall. intros q Hq.
    destruct (filter (stampedAs k) (JsMap.values (queryToTimingsMap st)))
      as [|t l] eqn:E; [destruct Hq|].
    cbn [queriesOf] in Hq. apply in_map_iff in Hq.
    destruct Hq as (s & <- & Hs). apply F.
    rewrite <- E in Hs. apply filter_In in Hs. tauto.
Qed.

Lemma query_cells_hold_no_digit_witness :
  readLines false initialState twoTimestampsLog = Normal twoTimestampsState
  /\ Forall (fun row => digitFree (rowQuery row) = true)
            (writeTimingsCSV (queryToTimingsMap twoTimestampsState)).
Proof.
  assert (R : readLines false initialState twoTimestampsLog
              = Normal twoTimestampsState) by (vm_compute; reflexivity).
  split; [exact R|].
  apply (query_cells_hold_no_digit false twoTimestampsLog twoTimestampsState R).
Defined.

(** ** The command line *)

